(** * SentinelPro: the supply-projection and alerting engine

    A shallow embedding of [getSupplyProjections] and [generateSupplyAlerts]
    of [server/storage.ts], with the properties the specification states
    about them.

    Modelling conventions.
    - JavaScript numbers that hold database integers (page counts, stock,
      day counts, timestamps in milliseconds) are [Z].  Numbers produced by
      a division or by the factor [1.1] (the trend, the averages, the
      predicted daily consumption, the variance) are exact rationals [Q]:
      the rounding of IEEE doubles is idealised away.  Every division of
      the source is guarded (see [ols_denominator_pos] and the [length]
      tests), so [Qdiv] is never used at a zero divisor on a reachable path.
    - Strings are byte strings holding the UTF-8 encoding of the source's
      text.
    - The JavaScript objects used as dictionaries are [gmap string _] for
      their own properties; a read also finds the members inherited from
      [Object.prototype] ([getProperty]).  The arrays stored in them are
      sorted in place by the source, which is modelled by writing the
      sorted array back into the map.
    - The timestamps read from the database are valid dates, and one call
      reads the clock as a single instant ([Clock]).  A date computed by
      the code may fall outside the range of [Date]; [toISOString] then
      throws ([toISODate]).
    - Code that may throw returns an [Outcome].  The [try] block of
      [getSupplyProjections] is [supplyProjectionsBody]; its handler
      logs the error and returns the empty array.
    - Integers that the statistics multiply and add are rounded to the
      nearest double ([toDouble]), which changes them from 2^53 on.
    - Reads of the database are total; the writes [createAlert] and
      [markAlertRead] may throw, as decided by a [Faults] oracle. *)

From Stdlib Require Import ZArith QArith Qround Qminmax Lia Lqa.
From Stdlib Require Import Sorting.Permutation Sorting.Sorted Ascii.
From stdpp Require Import gmap strings list pretty.

Open Scope Z_scope.

(** ** JavaScript array primitives *)

Section js_arrays.
Context {A B : Type}.

(** [arr.reduce((acc, x, index) => f acc x index, init)], started at
    index [i]. *)
Fixpoint reduce_from (f : B → A → nat → B) (i : nat) (acc : B) (l : list A) : B :=
  match l with
  | [] => acc
  | x :: l' => reduce_from f (S i) (f acc x i) l'
  end.

Definition reduce (f : B → A → nat → B) (init : B) (l : list A) : B :=
  reduce_from f 0 init l.
End js_arrays.

(** [arr.slice(-k)]: the start index is [max (length - k) 0]. *)
Definition slice_neg {A} (k : nat) (l : list A) : list A :=
  drop (length l - k) l.

Section js_sort.
Context {A : Type} (cmp : A → A → Z).

(** [Array.prototype.sort] is stable (ES2019).  For a consistent
    comparator every stable sort returns the same array; insertion from
    the right is the simplest one: a new element passes exactly the
    elements that compare strictly below it. *)
Fixpoint sort_insert (x : A) (l : list A) : list A :=
  match l with
  | [] => [x]
  | y :: l' => if 0 <? cmp x y then y :: sort_insert x l' else x :: y :: l'
  end.

Definition sort (l : list A) : list A := foldr sort_insert [] l.
End js_sort.

(** ** Numbers *)

(** A JavaScript number is a double.  An integer of magnitude below 2^53
    is held exactly; a larger one is rounded to 53 significant bits, to
    the nearest and on a tie to the even one.  (No sum or product of
    database integers comes near the largest double.) *)
Definition toDouble (n : Z) : Z :=
  let k := Z.log2 (Z.abs n) - 52 in
  if k <=? 0 then n
  else
    let q := Z.abs n `div` 2 ^ k in
    let r := Z.abs n `mod` 2 ^ k in
    let half := 2 ^ (k - 1) in
    let up := (half <? r) || ((half =? r) && Z.odd q) in
    Z.sgn n * ((if up then q + 1 else q) * 2 ^ k).

(** ** Exceptions *)

(** A piece of code either returns a value or throws an error. *)
Inductive Outcome (A : Type) :=
  | Returned (a : A)
  | Thrown (error : string).
Arguments Returned {A} a.
Arguments Thrown {A} error.

(** Statements in sequence: what follows a throw is skipped. *)
Definition andThen {A B} (c : Outcome A) (k : A → Outcome B) : Outcome B :=
  match c with
  | Returned a => k a
  | Thrown error => Thrown error
  end.

Notation "'run' x ← c ;; k" := (andThen c (λ x, k))
  (at level 10, x name, c at level 99, k at level 200).

(** [for (const x of l) { st = body st x }], left by the first throw. *)
Fixpoint forOf {A S} (body : S → A → Outcome S) (st : S) (l : list A) : Outcome S :=
  match l with
  | [] => Returned st
  | x :: l' => run st' ← body st x ;; forOf body st' l'
  end.

(** The comparator [(a, b) => key a - key b]. *)
Definition by_key {A} (key : A → Z) : A → A → Z := λ a b, key a - key b.

(** An array in ascending order of [key]. *)
Definition ascending {A} (key : A → Z) (l : list A) : Prop :=
  StronglySorted (λ a b, key a ≤ key b) l.

(** ** Trend estimator *)

Record DataPoint := { dp_date : Z; value : Q }.

Definition Qnat (n : nat) : Q := inject_Z (Z.of_nat n).

Definition calculateTrend (dataPoints : list DataPoint) : Q :=
  if (length dataPoints <? 2)%nat then 0%Q
  else
    let n := Qnat (length dataPoints) in
    let sumX := reduce (λ sum _ index, sum + Qnat index)%Q 0%Q dataPoints in
    let sumY := reduce (λ sum point _, sum + value point)%Q 0%Q dataPoints in
    let sumXY := reduce (λ sum point index, sum + Qnat index * value point)%Q 0%Q dataPoints in
    let sumXX := reduce (λ sum _ index, sum + Qnat index * Qnat index)%Q 0%Q dataPoints in
    let slope := ((n * sumXY - sumX * sumY) / (n * sumXX - sumX * sumX))%Q in
    slope.

(** The specification's formula, written with sums over the index
    [i = 0..n-1]; [y i] is the i-th daily total. *)
Fixpoint Qsum (n : nat) (f : nat → Q) : Q :=
  match n with
  | O => 0%Q
  | S k => (Qsum k f + f k)%Q
  end.

Definition ols_denominator (n : nat) : Q :=
  (Qnat n * Qsum n (λ i, Qnat i * Qnat i) - Qsum n Qnat * Qsum n Qnat)%Q.

Definition ols_slope (ys : list Q) : Q :=
  let n := length ys in
  let y i := nth i ys 0%Q in
  ((Qnat n * Qsum n (λ i, Qnat i * y i) - Qsum n Qnat * Qsum n y)
   / ols_denominator n)%Q.

(** ** Data model *)

(** A row of [getAllPrintJobs]: the print job joined with its user.
    [printedAt] is the timestamp in milliseconds since the epoch. *)
Record PrintJob := {
  printedAt : Z;
  pageCount : Z;
  colorMode : string;
  paperTypeId : option string;
  userCompanyId : option string;
}.

Record PaperType := {
  pt_id : string;
  pt_name : string;
  pt_stock : Z;
  pt_companyId : option string;
}.

Record TonerInventory := {
  tn_id : string;
  tn_name : string;
  tn_color : string;
  tn_stock : Z;
  tn_companyId : option string;
}.

(** The tables the projection reads, each in the order its query returns
    the rows. *)
Record Database := {
  printJobs : list PrintJob;
  paperTypes : list PaperType;
  tonerInventory : list TonerInventory;
  companies : list string;
}.

(** [Date.now()] and the value of [ninetyDaysAgo], in milliseconds. *)
Record Clock := { now : Z; ninetyDaysAgo : Z }.

(** One element of a consumption array: [{ date, pages }]. *)
Record Entry := { date : Z; pages : Z }.

Inductive Status := critical | warning | caution | normal.
Inductive Confidence := high | medium | low.

Record SupplyProjection := {
  p_type : string;
  p_id : string;
  p_name : string;
  p_color : option string;
  currentStock : Z;
  dailyConsumption : Q;
  trend : Q;
  estimatedPagesPerUnit : option Z;
  daysRemaining : Z;
  estimatedDepletionDate : Z;
  status : Status;
  confidence : Confidence;
  dataPoints : nat;
}.

(** JavaScript truthiness of a string: the empty string is falsy. *)
Definition truthy (s : string) : bool := bool_decide (s ≠ EmptyString).

Definition truthy_opt (s : option string) : bool :=
  match s with
  | Some s => truthy s
  | None => false
  end.

(** ** Database reads *)

Definition getAllPrintJobs (db : Database) (companyId : option string) : list PrintJob :=
  filter (λ job, ¬ (truthy_opt companyId ∧ userCompanyId job ≠ companyId)) (printJobs db).

Definition getAllPaperTypes (db : Database) (companyId : option string) : list PaperType :=
  if truthy_opt companyId
  then filter (λ paperType, pt_companyId paperType = companyId) (paperTypes db)
  else paperTypes db.

Definition getAllTonerInventory (db : Database) (companyId : option string) : list TonerInventory :=
  if truthy_opt companyId
  then filter (λ toner, tn_companyId toner = companyId) (tonerInventory db)
  else tonerInventory db.

Definition getAllCompanies (db : Database) : list string := companies db.

(** ** Consumption aggregator *)

(** [toISOString().split('T')[0]] is the UTC calendar day of the
    timestamp; two timestamps have the same text exactly when they fall
    on the same day number. *)
Definition dateKey (t : Z) : Z := t `div` 86400000.

(** A [Date] holds a time value of at most 8.64e15 ms from the epoch;
    built from anything beyond, it is invalid and [toISOString] throws a
    [RangeError]. *)
Definition validTime (t : Z) : bool := Z.abs t <=? 8640000000000000.

Definition toISODate (t : Z) : Outcome Z :=
  if validTime t then Returned (dateKey t)
  else Thrown "RangeError: Invalid time value".

(** The members an object literal inherits from [Object.prototype], each
    with its [length] when it is a function; [__proto__] is the
    prototype object itself, which has none. *)
Definition objectPrototype : list (string * option nat) :=
  [("constructor", Some 1%nat); ("__defineGetter__", Some 2%nat);
   ("__defineSetter__", Some 2%nat); ("hasOwnProperty", Some 1%nat);
   ("__lookupGetter__", Some 1%nat); ("__lookupSetter__", Some 1%nat);
   ("isPrototypeOf", Some 1%nat); ("propertyIsEnumerable", Some 1%nat);
   ("toString", Some 0%nat); ("valueOf", Some 0%nat); ("__proto__", None);
   ("toLocaleString", Some 0%nat)].

(** The value of [obj[key]] for a dictionary [obj]: an array stored
    under the key, or else an inherited member, or else [undefined]. *)
Inductive Property :=
  | Own (array : list Entry)
  | Inherited (memberLength : option nat)
  | Undefined.

Definition inherited (key : string) : option (option nat) :=
  (λ found, found.2.2) <$> list_find (λ member, member.1 = key) objectPrototype.

Definition getProperty (obj : gmap string (list Entry)) (key : string) : Property :=
  match obj !! key with
  | Some array => Own array
  | None =>
      match inherited key with
      | Some memberLength => Inherited memberLength
      | None => Undefined
      end
  end.

(** The body shared by both aggregation loops: find the entry of the job's
    day and add the pages to it, or push a new entry. *)
Definition addJob (job : PrintJob) (series : list Entry) : list Entry :=
  match list_find (λ entry, dateKey (date entry) = dateKey (printedAt job)) series with
  | Some (i, existingEntry) =>
      <[i := {| date := date existingEntry;
                pages := pages existingEntry + pageCount job |}]> series
  | None => series ++ [{| date := printedAt job; pages := pageCount job |}]
  end.

(** One iteration of the first loop.  An inherited member is truthy, so
    no array is stored for it, and it has no [find] to call. *)
Definition paperAggregateStep (acc : gmap string (list Entry)) (job : PrintJob)
    : Outcome (gmap string (list Entry)) :=
  match paperTypeId job with
  | Some id =>
      if truthy id then
        match getProperty acc id with
        | Own existing => Returned (<[id := addJob job existing]> acc)
        | Inherited _ =>
            Thrown "TypeError: paperConsumptionByType[job.paperTypeId].find is not a function"
        | Undefined => Returned (<[id := addJob job []]> acc)
        end
      else Returned acc
  | None => Returned acc
  end.

Definition paperAggregation (recentJobs : list PrintJob)
    : Outcome (gmap string (list Entry)) :=
  forOf paperAggregateStep ∅ recentJobs.

(** The dictionary the first loop has built when it completes. *)
Definition paperConsumptionByType (recentJobs : list PrintJob) : gmap string (list Entry) :=
  foldl (λ (acc : gmap string (list Entry)) job,
           match paperTypeId job with
           | Some id =>
               if truthy id
               then <[id := addJob job (default [] (acc !! id))]> acc
               else acc
           | None => acc
           end) ∅ recentJobs.

(** The dictionary of the second aggregation loop.  Its only key is
    ["color"], which names no inherited member. *)
Definition tonerConsumptionByColor (recentJobs : list PrintJob) : gmap string (list Entry) :=
  foldl (λ (acc : gmap string (list Entry)) job,
           if bool_decide (colorMode job = "color")
           then <[colorMode job := addJob job (default [] (acc !! colorMode job))]> acc
           else acc) ∅ recentJobs.

(** ** Depletion forecaster *)

Definition Qltb (a b : Q) : bool := negb (Qle_bool b a).

Definition calculatePredictiveConsumption (dailyConsumptions : list Q) (trend : Q) : Q :=
  if (length dailyConsumptions =? 0)%nat then 0%Q
  else
    let recentAvg :=
      (reduce (λ a b _, a + b) 0 (slice_neg 7 dailyConsumptions)
       / Qnat (Nat.min 7 (length dailyConsumptions)))%Q in
    let predicted := (recentAvg + trend)%Q in
    Qmax (predicted * 1.1) 0.

(** [Math.round(x * 100) / 100]; [Math.round] rounds halves up. *)
Definition round2 (x : Q) : Q := (inject_Z (Qfloor (x * 100 + 0.5)) / 100)%Q.

Definition statusOf (daysRemaining : Z) : Status :=
  if daysRemaining <=? 3 then critical
  else if daysRemaining <=? 7 then warning
  else if daysRemaining <=? 14 then caution
  else normal.

Definition confidenceOf (dailyConsumptions : list Q) : Confidence :=
  let mean :=
    (reduce (λ a b _, a + b) 0 dailyConsumptions / Qnat (length dailyConsumptions))%Q in
  let variance :=
    (reduce (λ sum value _, sum + (value - mean) ^ 2) 0 dailyConsumptions
     / Qnat (length dailyConsumptions))%Q in
  if Qltb variance (mean * 0.5) then high
  else if Qltb variance (mean * 1.0) then medium
  else low.

Definition dataPointsOf (consumptionData : list Entry) : list DataPoint :=
  map (λ d, {| dp_date := date d; value := inject_Z (pages d) |}) consumptionData.

(** The object the paper loop pushes once [consumptionData] is sorted, if
    it pushes any.  The date it holds is the one [toISOString] gives
    when it returns; [pushProjection] has the case where it throws. *)
Definition paperProjection (clock : Clock) (paperType : PaperType)
    (consumptionData : list Entry) : option SupplyProjection :=
  let dailyConsumptions := map (λ d, inject_Z (pages d)) consumptionData in
  let trend := calculateTrend (dataPointsOf consumptionData) in
  let predictedDailyConsumption := calculatePredictiveConsumption dailyConsumptions trend in
  if Qltb 0 predictedDailyConsumption then
    let daysRemaining := Qfloor (inject_Z (pt_stock paperType) / predictedDailyConsumption) in
    Some {| p_type := "paper";
            p_id := pt_id paperType;
            p_name := pt_name paperType;
            p_color := None;
            currentStock := pt_stock paperType;
            dailyConsumption := round2 predictedDailyConsumption;
            trend := round2 trend;
            estimatedPagesPerUnit := None;
            daysRemaining := daysRemaining;
            estimatedDepletionDate := dateKey (now clock + daysRemaining * 24 * 60 * 60 * 1000);
            status := statusOf daysRemaining;
            confidence := confidenceOf dailyConsumptions;
            dataPoints := length consumptionData |}
  else None.

Definition estimatedPagesPerCartridge (color : string) : Z :=
  if bool_decide (color = "black") then 2500
  else if bool_decide (color = "tricolor") then 1500
  else 1200.

(** The object the toner loop pushes once [consumptionData] is sorted,
    if it pushes any. *)
Definition tonerProjection (clock : Clock) (toner : TonerInventory)
    (consumptionData : list Entry) : option SupplyProjection :=
  let dailyConsumptions := map (λ d, inject_Z (pages d)) consumptionData in
  let trend := calculateTrend (dataPointsOf consumptionData) in
  let predictedDailyConsumption := calculatePredictiveConsumption dailyConsumptions trend in
  if Qltb 0 predictedDailyConsumption then
    let pagesRemaining := tn_stock toner * estimatedPagesPerCartridge (tn_color toner) in
    let daysRemaining := Qfloor (inject_Z pagesRemaining / predictedDailyConsumption) in
    Some {| p_type := "toner";
            p_id := tn_id toner;
            p_name := tn_name toner;
            p_color := Some (tn_color toner);
            currentStock := tn_stock toner;
            dailyConsumption := round2 predictedDailyConsumption;
            trend := round2 trend;
            estimatedPagesPerUnit := Some (estimatedPagesPerCartridge (tn_color toner));
            daysRemaining := daysRemaining;
            estimatedDepletionDate := dateKey (now clock + daysRemaining * 24 * 60 * 60 * 1000);
            status := statusOf daysRemaining;
            confidence := confidenceOf dailyConsumptions;
            dataPoints := length consumptionData |}
  else None.

(** [projections.push({ ... })]: the object literal is evaluated first,
    and its [estimatedDepletionDate] throws when the date is invalid. *)
Definition pushProjection (clock : Clock) (projections : list SupplyProjection)
    (computed : option SupplyProjection) : Outcome (list SupplyProjection) :=
  match computed with
  | Some projection =>
      run _ ← toISODate (now clock + daysRemaining projection * 24 * 60 * 60 * 1000) ;;
      Returned (projections ++ [projection])
  | None => Returned projections
  end.

(** One iteration of [for (const paperType of paperTypes)].  The state is
    the dictionary (whose arrays [sort] mutates) and [projections].  An
    inherited member with a positive [length] passes the test and has no
    [sort] to call. *)
Definition paperStep (clock : Clock)
    (st : gmap string (list Entry) * list SupplyProjection) (paperType : PaperType)
    : Outcome (gmap string (list Entry) * list SupplyProjection) :=
  match getProperty st.1 (pt_id paperType) with
  | Own consumptionData =>
      if (0 <? length consumptionData)%nat then
        let sorted := sort (by_key date) consumptionData in
        run projections ← pushProjection clock st.2 (paperProjection clock paperType sorted) ;;
        Returned (<[pt_id paperType := sorted]> st.1, projections)
      else Returned st
  | Inherited (Some memberLength) =>
      if (0 <? memberLength)%nat
      then Thrown "TypeError: consumptionData.sort is not a function"
      else Returned st
  | Inherited None => Returned st
  | Undefined => Returned st
  end.

(** One iteration of [for (const toner of tonerInventory)]: every toner
    reads the one array stored under the key ["color"]. *)
Definition tonerStep (clock : Clock)
    (st : gmap string (list Entry) * list SupplyProjection) (toner : TonerInventory)
    : Outcome (gmap string (list Entry) * list SupplyProjection) :=
  match st.1 !! "color" with
  | Some consumptionData =>
      if (0 <? length consumptionData)%nat then
        let sorted := sort (by_key date) consumptionData in
        run projections ← pushProjection clock st.2 (tonerProjection clock toner sorted) ;;
        Returned (<["color" := sorted]> st.1, projections)
      else Returned st
  | None => Returned st
  end.

Definition recentJobsOf (clock : Clock) (db : Database) (companyId : option string)
    : list PrintJob :=
  filter (λ job, ninetyDaysAgo clock ≤ printedAt job) (getAllPrintJobs db companyId).

(** The [try] block of [getSupplyProjections]. *)
Definition supplyProjectionsBody (clock : Clock) (db : Database)
    (companyId : option string) : Outcome (list SupplyProjection) :=
  let recentJobs := recentJobsOf clock db companyId in
  run paperConsumption ← paperAggregation recentJobs ;;
  run paperLoop ←
    forOf (paperStep clock) (paperConsumption, []) (getAllPaperTypes db companyId) ;;
  run tonerLoop ←
    forOf (tonerStep clock) (tonerConsumptionByColor recentJobs, paperLoop.2)
          (getAllTonerInventory db companyId) ;;
  Returned (sort (by_key daysRemaining) tonerLoop.2).

(** The array [getSupplyProjections] returns: the one its [try] block
    built, or the empty array of its handler.  What the handler logs is
    in [awaitSupplyProjections]. *)
Definition getSupplyProjections (clock : Clock) (db : Database)
    (companyId : option string) : list SupplyProjection :=
  match supplyProjectionsBody clock db companyId with
  | Returned projections => projections
  | Thrown _ => []
  end.

(** ** Alert store *)

Record Alert := {
  a_id : string;
  companyId : string;
  a_type : string;
  title : string;
  message : string;
  severity : string;
  read : bool;
  resourceId : option string;
  resourceType : option string;
}.

Record InsertAlert := {
  i_companyId : string;
  i_type : string;
  i_title : string;
  i_message : string;
  i_severity : string;
  i_resourceId : string;
  i_resourceType : string;
}.

(** The [alerts] table in row order, the supply of fresh primary keys
    (standing for [gen_random_uuid()]) and the lines written with
    [console.error]. *)
Record AlertStore := {
  alerts : list Alert;
  nextAlertId : N;
  console : list string;
}.

(** Which writes the database rejects by throwing. *)
Record Faults := {
  insertFails : InsertAlert → bool;
  updateFails : string → bool;
}.

Definition noFaults : Faults :=
  {| insertFails := λ _, false; updateFails := λ _, false |}.

(** A computation on the alert store either returns or throws; the
    writes made before a throw stay in the store. *)
Definition IO (A : Type) : Type := AlertStore → Outcome A * AlertStore.

Definition ret {A} (a : A) : IO A := λ s, (Returned a, s).

Definition bind {A B} (c : IO A) (k : A → IO B) : IO B :=
  λ s, match c s with
       | (Returned a, s') => k a s'
       | (Thrown e, s') => (Thrown e, s')
       end.

Notation "'await' x ← c ;; k" := (bind c (λ x, k))
  (at level 10, x name, c at level 99, k at level 200).
Notation "'exec' c ;; k" := (bind c (λ _, k))
  (at level 10, c at level 99, k at level 200).

(** [for (const x of l) { await body x }] *)
Fixpoint forEach {A} (body : A → IO unit) (l : list A) : IO unit :=
  match l with
  | [] => ret tt
  | x :: l' => exec body x ;; forEach body l'
  end.

(** [try { body } catch (error) { handler error }] *)
Definition tryCatch (body : IO unit) (handler : string → IO unit) : IO unit :=
  λ s, match body s with
       | (Returned a, s') => (Returned a, s')
       | (Thrown e, s') => handler e s'
       end.

Definition consoleError (line : string) : IO unit :=
  λ s, (Returned tt,
        {| alerts := alerts s; nextAlertId := nextAlertId s;
           console := console s ++ [line] |}).

Definition getAllAlerts (compId : string) : IO (list Alert) :=
  λ s, (Returned (filter (λ alert, companyId alert = compId) (alerts s)), s).

Definition createAlert (faults : Faults) (alert : InsertAlert) : IO Alert :=
  λ s,
    if insertFails faults alert then (Thrown "insert into alerts failed", s)
    else
      let row := {| a_id := "alert-" +:+ pretty (nextAlertId s);
                    companyId := i_companyId alert;
                    a_type := i_type alert;
                    title := i_title alert;
                    message := i_message alert;
                    severity := i_severity alert;
                    read := false;
                    resourceId := Some (i_resourceId alert);
                    resourceType := Some (i_resourceType alert) |} in
      (Returned row,
       {| alerts := alerts s ++ [row];
          nextAlertId := N.succ (nextAlertId s);
          console := console s |}).

Definition setRead (alert : Alert) : Alert :=
  {| a_id := a_id alert; companyId := companyId alert; a_type := a_type alert;
     title := title alert; message := message alert; severity := severity alert;
     read := true;
     resourceId := resourceId alert; resourceType := resourceType alert |}.

Definition markAlertRead (faults : Faults) (id : string) : IO unit :=
  λ s,
    if updateFails faults id then (Thrown "update alerts failed", s)
    else
      (Returned tt,
       {| alerts := map (λ alert, if bool_decide (a_id alert = id) then setRead alert else alert)
                        (alerts s);
          nextAlertId := nextAlertId s;
          console := console s |}).

(** ** Day count of a message: [message.match(/(\d+) día/)?.[1] || "0"] *)

Definition isDigit (c : ascii) : bool :=
  (48 <=? nat_of_ascii c)%nat && (nat_of_ascii c <=? 57)%nat.

(** The longest prefix of digits and what follows it. *)
Fixpoint spanDigits (s : string) : string * string :=
  match s with
  | EmptyString => (EmptyString, EmptyString)
  | String c s' =>
      if isDigit c
      then let r := spanDigits s' in (String c r.1, r.2)
      else (EmptyString, s)
  end.

(** The pattern anchored at the start of [s].  [\d+] is greedy, and giving
    back a digit leaves a digit where the space must be, so only the
    longest run of digits can match. *)
Definition matchHere (s : string) : option string :=
  let r := spanDigits s in
  if bool_decide (r.1 ≠ EmptyString) && String.prefix " día" r.2
  then Some r.1 else None.

(** The leftmost match, as [String.prototype.match] returns it. *)
Fixpoint matchDia (s : string) : option string :=
  match matchHere s with
  | Some digits => Some digits
  | None =>
      match s with
      | EmptyString => None
      | String _ s' => matchDia s'
      end
  end.

(** [parseInt] of a string of decimal digits. *)
Fixpoint parseInt_from (acc : Z) (digits : string) : Z :=
  match digits with
  | EmptyString => acc
  | String c digits' => parseInt_from (10 * acc + (Z.of_nat (nat_of_ascii c) - 48)) digits'
  end.

Definition parseInt (digits : string) : Z := parseInt_from 0 digits.

Definition parsedDays (msg : string) : Z :=
  parseInt (default "0" (matchDia msg)).

(** What the pattern looks for, stated on the text: a non-empty run of
    digits followed by [" día"], somewhere in the message. *)
Fixpoint allDigits (s : string) : bool :=
  match s with
  | EmptyString => true
  | String c s' => isDigit c && allDigits s'
  end.

Definition containsDayCount (msg : string) : Prop :=
  ∃ before digits after,
    msg = before +:+ digits +:+ " día" +:+ after
    ∧ digits ≠ EmptyString ∧ allDigits digits = true.

(** ** Alert policy engine *)

Definition quote : string := String (ascii_of_nat 34) EmptyString.

(** Template text of a number with at most two decimals, as
    [dailyConsumption] is after rounding. *)
Definition showHundredths (x : Q) : string :=
  let k := Qfloor (x * 100) in
  let sign := if k <? 0 then "-" else EmptyString in
  let whole := pretty (Z.abs k `div` 100) in
  let frac := Z.abs k `mod` 100 in
  if frac =? 0 then sign +:+ whole
  else if frac `mod` 10 =? 0 then sign +:+ whole +:+ "." +:+ pretty (frac `div` 10)
  else sign +:+ whole +:+ "." +:+ pretty (frac `div` 10) +:+ pretty (frac `mod` 10).

Record AlertText := {
  alertType : string;
  t_title : string;
  t_message : string;
  t_severity : string;
}.

(** The [if]/[else if] chain that picks the alert of a projection;
    [alertType] stays empty when no branch is taken. *)
Definition statusAlertFor (projection : SupplyProjection) : AlertText :=
  let isPaper := bool_decide (p_type projection = "paper") in
  let days := pretty (daysRemaining projection) in
  let stock := pretty (currentStock projection) in
  if daysRemaining projection <=? 0 then
    {| alertType := if isPaper then "paper_depleted" else "toner_depleted";
       t_title := (if isPaper then "Papel" else "Tóner") +:+ " agotado";
       t_message := "El " +:+ (if isPaper then "tipo de papel" else "cartucho de tóner")
                    +:+ " " +:+ quote +:+ p_name projection +:+ quote
                    +:+ " se ha agotado. Stock actual: " +:+ stock;
       t_severity := "error" |}
  else if daysRemaining projection <=? 3 then
    {| alertType := if isPaper then "paper_critical" else "toner_critical";
       t_title := "¡" +:+ (if isPaper then "Papel" else "Tóner") +:+ " crítico!";
       t_message := (if isPaper then "Tipo de papel" else "Cartucho de tóner")
                    +:+ " " +:+ quote +:+ p_name projection +:+ quote
                    +:+ " se agotará en " +:+ days +:+ " día(s). Stock actual: " +:+ stock
                    +:+ ". Consumo diario: " +:+ showHundredths (dailyConsumption projection);
       t_severity := "error" |}
  else if daysRemaining projection <=? 7 then
    {| alertType := if isPaper then "paper_warning" else "toner_warning";
       t_title := (if isPaper then "Papel" else "Tóner") +:+ " bajo";
       t_message := (if isPaper then "Tipo de papel" else "Cartucho de tóner")
                    +:+ " " +:+ quote +:+ p_name projection +:+ quote
                    +:+ " se agotará en " +:+ days +:+ " día(s). Stock actual: " +:+ stock;
       t_severity := "warning" |}
  else if daysRemaining projection <=? 14 then
    {| alertType := if isPaper then "paper_caution" else "toner_caution";
       t_title := (if isPaper then "Papel" else "Tóner") +:+ " próximo a agotarse";
       t_message := (if isPaper then "Tipo de papel" else "Cartucho de tóner")
                    +:+ " " +:+ quote +:+ p_name projection +:+ quote
                    +:+ " se agotará en " +:+ days +:+ " día(s). Considere reabastecer.";
       t_severity := "warning" |}
  else
    {| alertType := EmptyString; t_title := EmptyString; t_message := EmptyString;
       t_severity := "info" |}.

(** [arr.find(P)] *)
Definition find {A} (P : A → Prop) `{∀ x, Decision (P x)} (l : list A) : option A :=
  snd <$> list_find P l.

Definition similarStatusAlert (text : AlertText) (projection : SupplyProjection)
    (alert : Alert) : Prop :=
  a_type alert = alertType text
  ∧ resourceId alert = Some (p_id projection)
  ∧ resourceType alert = Some (p_type projection)
  ∧ read alert = false.

Definition statusInsert (compId : string) (text : AlertText)
    (projection : SupplyProjection) : InsertAlert :=
  {| i_companyId := compId;
     i_type := alertType text;
     i_title := t_title text;
     i_message := t_message text;
     i_severity := t_severity text;
     i_resourceId := p_id projection;
     i_resourceType := p_type projection |}.

#[global] Instance Confidence_eq_dec : EqDecision Confidence.
Proof. solve_decision. Defined.

#[global] Instance Status_eq_dec : EqDecision Status.
Proof. solve_decision. Defined.

#[global] Instance similarStatusAlert_dec text projection alert :
  Decision (similarStatusAlert text projection alert).
Proof. unfold similarStatusAlert. apply _. Defined.

Definition similarUnreliableAlert (projection : SupplyProjection) (alert : Alert) : Prop :=
  a_type alert = "projection_unreliable"
  ∧ resourceId alert = Some (p_id projection)
  ∧ read alert = false.

#[global] Instance similarUnreliableAlert_dec projection alert :
  Decision (similarUnreliableAlert projection alert).
Proof. unfold similarUnreliableAlert. apply _. Defined.

Definition unreliableInsert (compId : string) (projection : SupplyProjection) : InsertAlert :=
  {| i_companyId := compId;
     i_type := "projection_unreliable";
     i_title := "Proyección poco confiable: " +:+ p_name projection;
     i_message := "La proyección de agotamiento para " +:+ quote +:+ p_name projection
                  +:+ quote +:+ " tiene baja confiabilidad debido a datos insuficientes o variabilidad alta. Considere revisar el inventario manualmente.";
     i_severity := "info";
     i_resourceId := p_id projection;
     i_resourceType := p_type projection |}.

Definition lowConfidence (p : SupplyProjection) : Prop :=
  confidence p = low ∧ daysRemaining p ≤ 30.

#[global] Instance lowConfidence_dec p : Decision (lowConfidence p).
Proof. unfold lowConfidence. apply _. Defined.

(** [await this.getSupplyProjections(companyId)] as a caller sees it:
    the array, and the line the handler writes when the block threw. *)
Definition awaitSupplyProjections (clock : Clock) (db : Database)
    (companyId : option string) : IO (list SupplyProjection) :=
  match supplyProjectionsBody clock db companyId with
  | Returned projections => ret projections
  | Thrown error =>
      exec consoleError ("Error calculating supply projections: " +:+ error) ;;
      ret []
  end.

Section alert_engine.
Context (faults : Faults) (clock : Clock) (db : Database).

(** The body of [for (const projection of companyProjections)]. *)
Definition statusStep (compId : string) (projection : SupplyProjection) : IO unit :=
  let text := statusAlertFor projection in
  if truthy (alertType text) then
    await existingAlerts ← getAllAlerts compId ;;
    match find (similarStatusAlert text projection) existingAlerts with
    | None =>
        exec createAlert faults (statusInsert compId text projection) ;;
        ret tt
    | Some similarAlert =>
        let daysDiff :=
          Z.abs (daysRemaining projection - parsedDays (message similarAlert)) in
        if 2 <=? daysDiff then
          exec markAlertRead faults (a_id similarAlert) ;;
          exec createAlert faults (statusInsert compId text projection) ;;
          ret tt
        else ret tt
    end
  else ret tt.

(** The body of [for (const projection of lowConfidenceProjections)]. *)
Definition unreliableStep (compId : string) (projection : SupplyProjection) : IO unit :=
  await existingAlerts ← getAllAlerts compId ;;
  match find (similarUnreliableAlert projection) existingAlerts with
  | None =>
      exec createAlert faults (unreliableInsert compId projection) ;;
      ret tt
  | Some _ => ret tt
  end.

(** The body of [for (const compId of companiesToCheck)]. *)
Definition companyStep (companyId : option string) (projections : list SupplyProjection)
    (compId : string) : IO unit :=
  await companyProjections ←
    (if truthy_opt companyId then ret projections
     else awaitSupplyProjections clock db (Some compId)) ;;
  exec forEach (statusStep compId) companyProjections ;;
  let lowConfidenceProjections := filter lowConfidence companyProjections in
  forEach (unreliableStep compId) lowConfidenceProjections.

Definition companiesToCheck (companyId : option string) : list string :=
  (match companyId with
   | Some c => if truthy c then [c] else []
   | None => []
   end)
  ++ (if truthy_opt companyId then [] else getAllCompanies db).

Definition generateSupplyAlerts (companyId : option string) : IO unit :=
  tryCatch
    (await projections ← awaitSupplyProjections clock db companyId ;;
     forEach (companyStep companyId projections) (companiesToCheck companyId))
    (λ error, consoleError ("Error generating supply alerts: " +:+ error)).

End alert_engine.

(** ** The specification's reading of the forecaster *)


Fixpoint Qtotal (l : list Q) : Q :=
  match l with
  | [] => 0%Q
  | x :: l' => (x + Qtotal l')%Q
  end.



(** The array stored under [key], as an iteration has sorted it. *)
Definition sortedSeries (byKey : gmap string (list Entry)) (key : string) : list Entry :=
  sort (by_key date) (default [] (byKey !! key)).

(** The consumption series of a paper type and of the toner, as the
    loops see them: aggregated by day and sorted by date. *)
Definition paperSeries (clock : Clock) (db : Database) (companyId : option string)
    (id : string) : list Entry :=
  sortedSeries (paperConsumptionByType (recentJobsOf clock db companyId)) id.

Definition tonerSeries (clock : Clock) (db : Database) (companyId : option string)
    : list Entry :=
  sortedSeries (tonerConsumptionByColor (recentJobsOf clock db companyId)) "color".

(** What one iteration of each loop pushes, if anything. *)
Definition paperResult (clock : Clock) (series : list Entry) (paperType : PaperType)
    : option SupplyProjection :=
  if (0 <? length series)%nat then paperProjection clock paperType series else None.

Definition tonerResult (clock : Clock) (series : list Entry) (toner : TonerInventory)
    : option SupplyProjection :=
  if (0 <? length series)%nat then tonerProjection clock toner series else None.

Definition dailyTotals (series : list Entry) : list Q :=
  map (λ d, inject_Z (pages d)) series.

(** The predicted daily consumption of a sorted series. *)
Definition predictedOf (series : list Entry) : Q :=
  calculatePredictiveConsumption (dailyTotals series) (calculateTrend (dataPointsOf series)).



(** The color jobs of the database: all the toner loop reads. *)
Definition colorJobs (db : Database) : list PrintJob :=
  filter (λ job, colorMode job = "color") (printJobs db).

(** ** Sample data *)

Definition msPerDay : Z := 86400000.

Definition sampleClock : Clock :=
  {| now := 100 * msPerDay; ninetyDaysAgo := 10 * msPerDay |}.

Definition sampleJob (company : string) (day pages : Z) (mode : string)
    (paper : option string) : PrintJob :=
  {| printedAt := day * msPerDay + 3600000; pageCount := pages; colorMode := mode;
     paperTypeId := paper; userCompanyId := Some company |}.

Definition samplePaper (company id : string) (stock : Z) : PaperType :=
  {| pt_id := id; pt_name := "A4"; pt_stock := stock; pt_companyId := Some company |}.

Definition sampleToner (company id color : string) (stock : Z) : TonerInventory :=
  {| tn_id := id; tn_name := "TN-" +:+ color; tn_color := color; tn_stock := stock;
     tn_companyId := Some company |}.

(** One company, one paper type with a single day of ten pages: the
    predicted daily consumption is 11. *)
Definition paperDb (stock : Z) : Database :=
  {| printJobs := [sampleJob "acme" 95 10 "bw" (Some "P1")];
     paperTypes := [samplePaper "acme" "P1" stock];
     tonerInventory := [];
     companies := ["acme"] |}.


Definition sampleSeries : list Entry := [{| date := 95 * msPerDay; pages := 10 |}].

(** Seven days of ten pages each. *)
Definition weekSeries : list Entry :=
  (λ day, {| date := day * msPerDay; pages := 10 |}) <$> [89; 90; 91; 92; 93; 94; 95].

Definition emptyStore : AlertStore :=
  {| alerts := []; nextAlertId := 0; console := [] |}.

(** The alerts of a company, as [getAllAlerts] returns them. *)
Definition companyAlerts (compId : string) (s : AlertStore) : list Alert :=
  filter (λ alert, companyId alert = compId) (alerts s).

(** A pass of [generateSupplyAlerts] for the sample company over a
    database, without faults. *)
Definition alertPass (db : Database) (s : AlertStore) : AlertStore :=
  (generateSupplyAlerts noFaults sampleClock db (Some "acme") s).2.

(** The store after a first pass at 10 days remaining (stock 115). *)
Definition storeAt10 : AlertStore := alertPass (paperDb 115) emptyStore.

(** The store after a first pass with the paper out of stock. *)
Definition storeDepleted : AlertStore := alertPass (paperDb 0) emptyStore.

(** A paper type with an erratic series (1 page, then 100): confidence
    is low and 20 days remain. *)
Definition erraticDb : Database :=
  {| printJobs := [sampleJob "acme" 96 100 "bw" (Some "P1");
                   sampleJob "acme" 95 1 "bw" (Some "P1")];
     paperTypes := [samplePaper "acme" "P1" 3400];
     tonerInventory := [];
     companies := ["acme"] |}.

Definition storeUnreliable : AlertStore := alertPass erraticDb emptyStore.

(** Two companies, each with a paper type at 7 days remaining, and a
    database that rejects the alerts of the first. *)
Definition twoCompanyDb : Database :=
  {| printJobs := [sampleJob "acme" 95 10 "bw" (Some "P1");
                   sampleJob "globex" 95 10 "bw" (Some "P2")];
     paperTypes := [samplePaper "acme" "P1" 80; samplePaper "globex" "P2" 80];
     tonerInventory := [];
     companies := ["acme"; "globex"] |}.

Definition acmeInsertFails : Faults :=
  {| insertFails := λ alert, bool_decide (i_companyId alert = "acme");
     updateFails := λ _, false |}.

Definition logged (line : string) (s : AlertStore) : AlertStore :=
  {| alerts := alerts s; nextAlertId := nextAlertId s; console := console s ++ [line] |}.

(** Whether a pass marked read an alert that was unread before it. *)
Definition someAlertMarkedRead (before after : AlertStore) : bool :=
  existsb (λ old, negb (read old)
                  && existsb (λ alert, bool_decide (a_id alert = a_id old) && read alert)
                             (alerts after))
          (alerts before).

(** ** Further readings of the engine *)

(** The array an aggregation loop builds from the jobs of one resource. *)
Definition aggregate (jobs : list PrintJob) : list Entry :=
  foldl (λ series job, addJob job series) [] jobs.

Definition Zsum (l : list Z) : Z := foldr Z.add 0 l.

(** The calendar days of a series and of a list of jobs. *)
Definition seriesDays (series : list Entry) : list Z := (dateKey ∘ date) <$> series.

Definition jobDays (jobs : list PrintJob) : list Z := (dateKey ∘ printedAt) <$> jobs.

(** The recent jobs the paper loop attributes to a paper type, and the
    ones the toner loop reads. *)
Definition paperJobs (clock : Clock) (db : Database) (companyId : option string)
    (id : string) : list PrintJob :=
  filter (λ job, paperTypeId job = Some id ∧ truthy id = true)
         (recentJobsOf clock db companyId).

Definition tonerJobs (clock : Clock) (db : Database) (companyId : option string)
    : list PrintJob :=
  filter (λ job, colorMode job = "color") (recentJobsOf clock db companyId).

(** The projections a pass checks for a company: the ones computed up
    front when a company was given, the company's own otherwise. *)
Definition checkedProjections (clock : Clock) (db : Database)
    (companyId : option string) (compId : string) : list SupplyProjection :=
  if truthy_opt companyId then getSupplyProjections clock db companyId
  else getSupplyProjections clock db (Some compId).

(** The arguments of the calls of [getSupplyProjections] a pass makes:
    one up front, and one per company when no company was given. *)
Definition projectionCalls (db : Database) (companyId : option string)
    : list (option string) :=
  companyId :: (if truthy_opt companyId then [] else Some <$> getAllCompanies db).

(** Two stores with the same [alerts] table. *)
Definition sameTable (s s' : AlertStore) : Prop :=
  alerts s' = alerts s ∧ nextAlertId s' = nextAlertId s.

(** Two rows that differ at most in that the second has been read. *)
Definition sameButRead (before after : Alert) : Prop :=
  setRead after = setRead before ∧ (read before = true → read after = true).

(** The table [after] keeps every row of [before], in place and changed
    at most by being read, and adds rows of the companies [owners] at
    the end. *)
Definition extendsAlerts (owners : list string) (before after : list Alert) : Prop :=
  ∃ kept added,
    after = kept ++ added
    ∧ Forall2 sameButRead before kept
    ∧ Forall (λ alert, companyId alert ∈ owners) added.

(** A computation that keeps the alert table in that sense. *)
Definition keepsAlerts {A} (owners : list string) (c : IO A) : Prop :=
  ∀ s, extendsAlerts owners (alerts s) (alerts (c s).2).

(** Texts without a digit, and texts without a given character. *)
Fixpoint noDigit (s : string) : bool :=
  match s with
  | EmptyString => true
  | String c s' => negb (isDigit c) && noDigit s'
  end.

Fixpoint lacks (c : ascii) (s : string) : bool :=
  match s with
  | EmptyString => true
  | String d s' => negb (bool_decide (d = c)) && lacks c s'
  end.

(** The row [createAlert] stores for an insert, and the table after
    [markAlertRead]. *)
Definition insertedRow (s : AlertStore) (alert : InsertAlert) : Alert :=
  {| a_id := "alert-" +:+ pretty (nextAlertId s);
     companyId := i_companyId alert;
     a_type := i_type alert;
     title := i_title alert;
     message := i_message alert;
     severity := i_severity alert;
     read := false;
     resourceId := Some (i_resourceId alert);
     resourceType := Some (i_resourceType alert) |}.

Definition markedRead (id : string) (l : list Alert) : list Alert :=
  map (λ alert, if bool_decide (a_id alert = id) then setRead alert else alert) l.

(** Inserts are rejected, updates go through. *)
Definition insertsFail : Faults :=
  {| insertFails := λ _, true; updateFails := λ _, false |}.

(** ** Dashboard and consumption statistics *)

(** A row of [getAllPrintJobs] with the further columns the statistics
    read: the copies, and the ids and names of the user and printer. *)
Record JobDetails := {
  jd_job : PrintJob;
  copies : Z;
  userId : string;
  userFullName : string;
  printerId : string;
  printerName : string;
}.

Record User := { u_id : string; u_role : string; u_companyId : option string }.

Record Printer := { pr_id : string; pr_companyId : option string }.

Record Expense := { e_date : Z; e_amount : Q; e_companyId : string }.

(** The tables the statistics read; [jobRows] is in the order of
    [getAllPrintJobs] (latest first). *)
Record StatsDb := {
  jobRows : list JobDetails;
  users : list User;
  printers : list Printer;
  expenses : list Expense;
  s_paperTypes : list PaperType;
  s_tonerInventory : list TonerInventory;
  s_companies : list string;
}.

(** The part of the tables [getSupplyProjections] reads. *)
Definition projectionDb (db : StatsDb) : Database :=
  {| printJobs := jd_job <$> jobRows db;
     paperTypes := s_paperTypes db;
     tonerInventory := s_tonerInventory db;
     companies := s_companies db |}.

Definition getAllJobDetails (db : StatsDb) (companyId : option string) : list JobDetails :=
  filter (λ job, ¬ (truthy_opt companyId ∧ userCompanyId (jd_job job) ≠ companyId))
         (jobRows db).

(** The value kept per key by the [Map] of a ranking, and an entry of
    [topUsers] or [topPrinters] (the two arrays have the same shape). *)
Record Tally := { tallyName : string; count : Z }.

Record Ranked := { rankedId : string; rankedName : string; jobCount : Z }.

(** One step of the [reduce] that counts jobs per key: [acc.get], the
    increment and [acc.set], which keeps the position of a known key and
    appends a new one. *)
Definition tallyJob (keyOf nameOf : JobDetails → string)
    (acc : list (string * Tally)) (job : JobDetails) : list (string * Tally) :=
  match list_find (λ entry, entry.1 = keyOf job) acc with
  | Some (i, (key, existing)) =>
      <[i := (key, {| tallyName := tallyName existing; count := count existing + 1 |})]> acc
  | None => acc ++ [(keyOf job, {| tallyName := nameOf job; count := 0 + 1 |})]
  end.

Definition toRanked (entry : string * Tally) : Ranked :=
  {| rankedId := entry.1; rankedName := tallyName entry.2; jobCount := count entry.2 |}.

(** [Array.from(reduce(...).entries()).map(...).sort((a, b) => b.jobCount
    - a.jobCount).slice(0, 5)] *)
Definition topFive (keyOf nameOf : JobDetails → string) (filteredJobs : list JobDetails)
    : list Ranked :=
  take 5 (sort (λ a b, jobCount b - jobCount a)
               (toRanked <$> foldl (tallyJob keyOf nameOf) [] filteredJobs)).

Record DashboardStats := {
  totalPrintJobs : nat;
  totalUsers : nat;
  totalCompanies : option nat;
  totalPrinters : nat;
  totalPagesThisMonth : Z;
  recentJobs : list JobDetails;
  topUsers : list Ranked;
  topPrinters : list Ranked;
  supplyProjections : list SupplyProjection;
}.

(** [firstDayOfMonth] is the local start of the current month, taken
    from the host's calendar. *)
Definition getDashboardStats (clock : Clock) (firstDayOfMonth : Z) (db : StatsDb)
    (companyId : option string) : DashboardStats :=
  let filteredJobs := getAllJobDetails db companyId in
  let jobsThisMonth :=
    filter (λ job, firstDayOfMonth ≤ printedAt (jd_job job)) filteredJobs in
  let pagesThisMonth :=
    reduce (λ sum job _, toDouble (sum + toDouble (pageCount (jd_job job) * copies job))) 0 jobsThisMonth in
  let userCount :=
    if negb (truthy_opt companyId)
    then length (filter (λ u, u_role u = "admin") (users db))
    else length (filter (λ u, u_companyId u = companyId
                              ∧ (u_role u = "operator" ∨ u_role u = "viewer"))
                        (users db)) in
  let printerCount :=
    if truthy_opt companyId
    then length (filter (λ printer, pr_companyId printer = companyId) (printers db))
    else length (printers db) in
  {| totalPrintJobs := length filteredJobs;
     totalUsers := userCount;
     totalCompanies :=
       if negb (truthy_opt companyId) then Some (length (s_companies db)) else None;
     totalPrinters := printerCount;
     totalPagesThisMonth := pagesThisMonth;
     recentJobs := take 10 filteredJobs;
     topUsers := topFive userId userFullName filteredJobs;
     topPrinters := topFive printerId printerName filteredJobs;
     supplyProjections := getSupplyProjections clock (projectionDb db) companyId |}.

(** The instants the periods start at: a week is counted back from now,
    the starts of the month, quarter and year come from the host's
    calendar. *)
Record Calendar := {
  cal_now : Z;
  monthStart : Z;
  quarterStart : Z;
  yearStart : Z;
}.

Definition periodStart (calendar : Calendar) (period : string) : Z :=
  if bool_decide (period = "week") then cal_now calendar - 7 * 24 * 60 * 60 * 1000
  else if bool_decide (period = "month") then monthStart calendar
  else if bool_decide (period = "quarter") then quarterStart calendar
  else if bool_decide (period = "year") then yearStart calendar
  else monthStart calendar.

Record ConsumptionStats := {
  totalJobs : nat;
  totalPages : Z;
  totalBWPages : Z;
  totalColorPages : Z;
  totalPaperUsed : Z;
  estimatedInkUsed : Q;
  totalExpenses : Q;
  period : string;
}.

(** [Math.round(x * 10) / 10] *)
Definition round1 (x : Q) : Q := (inject_Z (Qfloor (x * 10 + 0.5)) / 10)%Q.

Definition getConsumptionStats (calendar : Calendar) (db : StatsDb) (period : string)
    (companyId : option string) : ConsumptionStats :=
  let allJobs := getAllJobDetails db companyId in
  let startDate := periodStart calendar period in
  let filteredJobs := filter (λ job, startDate ≤ printedAt (jd_job job)) allJobs in
  let totalPages :=
    reduce (λ sum job _, toDouble (sum + toDouble (pageCount (jd_job job) * copies job))) 0 filteredJobs in
  let bwJobs := filter (λ job, colorMode (jd_job job) = "bw") filteredJobs in
  let colorJobs := filter (λ job, colorMode (jd_job job) = "color") filteredJobs in
  let totalBWPages :=
    reduce (λ sum job _, toDouble (sum + toDouble (pageCount (jd_job job) * copies job))) 0 bwJobs in
  let totalColorPages :=
    reduce (λ sum job _, toDouble (sum + toDouble (pageCount (jd_job job) * copies job))) 0 colorJobs in
  let estimatedInkUsed :=
    (inject_Z totalBWPages * 0.5 + inject_Z totalColorPages * 1.5)%Q in
  let expenses :=
    if truthy_opt companyId
    then filter (λ e, Some (e_companyId e) = companyId) (expenses db)
    else expenses db in
  let filteredExpenses := filter (λ e, startDate ≤ e_date e) expenses in
  let totalExpenses := reduce (λ sum e _, sum + e_amount e)%Q 0%Q filteredExpenses in
  {| totalJobs := length filteredJobs;
     totalPages := totalPages;
     totalBWPages := totalBWPages;
     totalColorPages := totalColorPages;
     totalPaperUsed := totalPages;
     estimatedInkUsed := round1 estimatedInkUsed;
     totalExpenses := totalExpenses;
     period := period |}.

(** The jobs of a key, and sample rows. *)
Definition jobsWith (keyOf : JobDetails → string) (key : string)
    (jobs : list JobDetails) : list JobDetails :=
  filter (λ job, keyOf job = key) jobs.

Definition sampleRow (user printer mode : string) (day pages copies : Z) : JobDetails :=
  {| jd_job := sampleJob "acme" day pages mode None;
     copies := copies;
     userId := user; userFullName := "User " +:+ user;
     printerId := printer; printerName := "Printer " +:+ printer |}.

Definition statsDb : StatsDb :=
  {| jobRows := [sampleRow "u1" "p1" "bw" 97 10 2;
                 sampleRow "u2" "p1" "color" 96 5 1;
                 sampleRow "u1" "p2" "color" 95 3 4;
                 sampleRow "u3" "p1" "gray" 94 7 1];
     users := []; printers := []; expenses := [];
     s_paperTypes := []; s_tonerInventory := []; s_companies := ["acme"] |}.

(** Rows whose pages pass 2^53: 94906267 copies of 94906267 pages in
    black and white, then one colour page and one more in black and
    white. *)
Definition bulkDb : StatsDb :=
  {| jobRows := [sampleRow "u1" "p1" "bw" 97 94906267 94906267;
                 sampleRow "u2" "p1" "color" 96 1 1;
                 sampleRow "u1" "p2" "bw" 95 1 1];
     users := []; printers := []; expenses := [];
     s_paperTypes := []; s_tonerInventory := []; s_companies := ["acme"] |}.

Definition sampleCalendar : Calendar :=
  {| cal_now := 100 * msPerDay; monthStart := 90 * msPerDay;
     quarterStart := 60 * msPerDay; yearStart := 0 |}.

(** The count a ranking holds for a key. *)
Definition tallied (key : string) (acc : list (string * Tally)) : Z :=
  Zsum ((count ∘ snd) <$> filter (λ entry, entry.1 = key) acc).

(** The pages a job row stands for, and the rows a period keeps. *)
Definition jobPages (job : JobDetails) : Z := pageCount (jd_job job) * copies job.

Definition periodJobs (calendar : Calendar) (db : StatsDb) (period : string)
    (companyId : option string) : list JobDetails :=
  filter (λ job, periodStart calendar period ≤ printedAt (jd_job job))
         (getAllJobDetails db companyId).

Definition otherModeJobs (jobs : list JobDetails) : list JobDetails :=
  filter (λ job, colorMode (jd_job job) ≠ "bw" ∧ colorMode (jd_job job) ≠ "color") jobs.

(** ** When the projection completes *)

(** The own keys of a dictionary are never names of inherited members:
    such a name is read as the member, and nothing is stored. *)
Definition ownKeysFree (m : gmap string (list Entry)) : Prop :=
  ∀ key, is_Some (m !! key) → inherited key = None.

(** What the two loops push when nothing throws, in the order of the
    pushes. *)
Definition pushedProjections (clock : Clock) (db : Database) (companyId : option string)
    : list SupplyProjection :=
  omap (λ pt, paperResult clock (paperSeries clock db companyId (pt_id pt)) pt)
       (getAllPaperTypes db companyId)
  ++ omap (tonerResult clock (tonerSeries clock db companyId))
          (getAllTonerInventory db companyId).

(** A paper type id under which the dictionary shows a function with a
    positive [length], on which [sort] is then called. *)
Definition sortThrows (key : string) : bool :=
  match inherited key with
  | Some (Some memberLength) => (0 <? memberLength)%nat
  | _ => false
  end.

(** A job whose paper type id reads an inherited member in the first
    loop. *)
Definition namesInherited (job : PrintJob) : bool :=
  match paperTypeId job with
  | Some id => truthy id && bool_decide (inherited id ≠ None)
  | None => false
  end.

(** The three ways the [try] block can throw are excluded: no recent job
    names an inherited member as its paper type, no paper type has the
    name of an inherited function that takes arguments, and every date
    of depletion is one a [Date] can hold. *)
Definition completes (clock : Clock) (db : Database) (companyId : option string) : Prop :=
  Forall (λ job, namesInherited job = false) (recentJobsOf clock db companyId)
  ∧ Forall (λ pt, sortThrows (pt_id pt) = false) (getAllPaperTypes db companyId)
  ∧ Forall (λ p, validTime (now clock + daysRemaining p * 24 * 60 * 60 * 1000) = true)
           (pushedProjections clock db companyId).

#[global] Instance completes_dec clock db companyId : Decision (completes clock db companyId).
Proof. unfold completes. apply _. Defined.



(** * Properties *)

(** ** Sorting *)

Section sort_facts.
Context {A : Type} (key : A → Z).

Lemma sort_insert_perm x l : sort_insert (by_key key) x l ≡ₚ x :: l.
Proof.
  induction l as [|y l IH]; simpl; [done|].
  case_match; [|done].
  rewrite IH. apply Permutation_swap.
Qed.

Lemma sort_perm l : sort (by_key key) l ≡ₚ l.
Proof.
  induction l as [|x l IH]; simpl; [done|].
  by rewrite sort_insert_perm, IH.
Qed.

Lemma sort_length l : length (sort (by_key key) l) = length l.
Proof. by rewrite sort_perm. Qed.

Lemma elem_of_sort x l : x ∈ sort (by_key key) l ↔ x ∈ l.
Proof. by rewrite sort_perm. Qed.

Lemma sort_insert_ascending x l :
  ascending key l → ascending key (sort_insert (by_key key) x l).
Proof.
  unfold ascending, by_key.
  induction 1 as [|y l Hs IH Hy]; simpl.
  - repeat constructor.
  - destruct (Z.ltb_spec 0 (key x - key y)) as [Hlt|Hge].
    + constructor; [done|].
      rewrite sort_insert_perm. constructor; [lia|done].
    + constructor; [by constructor|].
      constructor; [lia|].
      eapply Forall_impl; [exact Hy|]. simpl. intros. lia.
Qed.

Lemma sort_ascending l : ascending key (sort (by_key key) l).
Proof.
  induction l as [|x l IH]; simpl; [constructor|].
  by apply sort_insert_ascending.
Qed.

(** Sorting an array that is already in order leaves it as it is. *)
Lemma sort_of_ascending l : ascending key l → sort (by_key key) l = l.
Proof.
  unfold ascending, by_key.
  induction 1 as [|x l Hs IH Hx]; simpl; [done|].
  rewrite IH. destruct l as [|y l]; simpl; [done|].
  apply Forall_cons in Hx as [Hxy _].
  destruct (Z.ltb_spec 0 (key x - key y)); [lia|done].
Qed.

Lemma sort_idemp l : sort (by_key key) (sort (by_key key) l) = sort (by_key key) l.
Proof. apply sort_of_ascending, sort_ascending. Qed.

End sort_facts.

(** ** Sums computed by [reduce] *)

Lemma Qsum_ext n f g : (∀ i, (i < n)%nat → (f i == g i)%Q) → (Qsum n f == Qsum n g)%Q.
Proof.
  induction n as [|n IH]; simpl; intros Hfg; [reflexivity|].
  rewrite IH, (Hfg n) by (intros; try apply Hfg; lia). reflexivity.
Qed.

Lemma Qsum_shift n f : (Qsum (S n) f == f O + Qsum n (λ i, f (S i)))%Q.
Proof.
  induction n as [|n IH].
  - simpl. ring.
  - change (Qsum (S (S n)) f) with (Qsum (S n) f + f (S n))%Q.
    rewrite IH. simpl. ring.
Qed.

Lemma reduce_from_Qsum {A} (g : nat → A → Q) (d : A) l i acc :
  (reduce_from (λ sum x index, sum + g index x) i acc l
   == acc + Qsum (length l) (λ k, g (i + k)%nat (nth k l d)))%Q.
Proof.
  revert i acc. induction l as [|x l IH]; intros i acc.
  - simpl. ring.
  - cbn [reduce_from length]. rewrite IH, Qsum_shift.
    cbn [nth]. rewrite Nat.add_0_r.
    rewrite (Qsum_ext _ (λ k, g (i + S k)%nat (nth k l d))
                        (λ k, g (S i + k)%nat (nth k l d))).
    + ring.
    + intros k _. by rewrite Nat.add_succ_r.
Qed.

Lemma reduce_Qsum {A} (g : nat → A → Q) (d : A) l :
  (reduce (λ sum x index, sum + g index x) 0 l
   == Qsum (length l) (λ k, g k (nth k l d)))%Q.
Proof. unfold reduce. rewrite (reduce_from_Qsum g d). simpl. ring. Qed.

(** ** Trend estimator *)

Lemma Qnat_S n : (Qnat (S n) == Qnat n + 1)%Q.
Proof. unfold Qnat. rewrite Nat2Z.inj_succ, <- Z.add_1_r, inject_Z_plus. reflexivity. Qed.

Lemma Qsum_index n : (2 * Qsum n Qnat == Qnat n * (Qnat n - 1))%Q.
Proof.
  induction n as [|n IH].
  - simpl. unfold Qnat. simpl. ring.
  - cbn [Qsum]. rewrite Qnat_S.
    transitivity (2 * Qsum n Qnat + 2 * Qnat n)%Q; [ring|].
    rewrite IH. ring.
Qed.

Lemma Qsum_index_sq n :
  (6 * Qsum n (λ i, Qnat i * Qnat i) == (Qnat n - 1) * Qnat n * (2 * Qnat n - 1))%Q.
Proof.
  induction n as [|n IH].
  - simpl. unfold Qnat. simpl. ring.
  - cbn [Qsum]. rewrite Qnat_S.
    transitivity (6 * Qsum n (λ i, Qnat i * Qnat i) + 6 * (Qnat n * Qnat n))%Q; [ring|].
    rewrite IH. ring.
Qed.

Lemma ols_denominator_closed n :
  (12 * ols_denominator n == Qnat n * Qnat n * (Qnat n - 1) * (Qnat n + 1))%Q.
Proof.
  unfold ols_denominator.
  transitivity (2 * Qnat n * (6 * Qsum n (λ i, Qnat i * Qnat i))
                - 3 * ((2 * Qsum n Qnat) * (2 * Qsum n Qnat)))%Q; [ring|].
  rewrite Qsum_index_sq, Qsum_index. ring.
Qed.

Lemma Qnat_ge2 n : (2 ≤ n)%nat → (2 <= Qnat n)%Q.
Proof.
  intros Hn. unfold Qnat. change 2%Q with (inject_Z 2).
  rewrite <- Zle_Qle. lia.
Qed.

(** The denominator of the slope is positive from two data points on. *)
Lemma ols_denominator_pos n : (2 ≤ n)%nat → (0 < ols_denominator n)%Q.
Proof.
  intros Hn. pose proof (Qnat_ge2 n Hn) as H2.
  pose proof (ols_denominator_closed n) as Hc.
  assert (0 < Qnat n * Qnat n * (Qnat n - 1) * (Qnat n + 1))%Q as Hpos.
  { repeat apply Qmult_lt_0_compat; lra. }
  lra.
Qed.

(** C4. With fewer than two data points the trend is 0; from two data
    points on it is the least-squares slope of the daily totals against
    the index 0..n-1, whose denominator is not zero. *)
Theorem calculateTrend_least_squares (dataPoints : list DataPoint) :
  ((length dataPoints < 2)%nat → calculateTrend dataPoints = 0%Q) ∧
  ((2 ≤ length dataPoints)%nat →
     ¬ (ols_denominator (length dataPoints) == 0)%Q ∧
     (calculateTrend dataPoints == ols_slope (map value dataPoints))%Q).
Proof.
  split; intros Hn; unfold calculateTrend.
  - destruct (Nat.ltb_spec (length dataPoints) 2); [done|lia].
  - split.
    { pose proof (ols_denominator_pos _ Hn). lra. }
    destruct (Nat.ltb_spec (length dataPoints) 2); [lia|].
    unfold ols_slope, ols_denominator. rewrite length_map.
    set (d := {| dp_date := 0; value := 0 |}).
    assert (∀ i, nth i (map value dataPoints) 0%Q = value (nth i dataPoints d)) as Hnth.
    { intros i. apply (map_nth value dataPoints d i). }
    rewrite (reduce_Qsum (λ i _, Qnat i) d).
    rewrite (reduce_Qsum (λ _ p, value p) d).
    rewrite (reduce_Qsum (λ i p, Qnat i * value p)%Q d).
    rewrite (reduce_Qsum (λ i _, Qnat i * Qnat i)%Q d).
    rewrite (Qsum_ext _ (λ i, Qnat i * nth i (map value dataPoints) 0)%Q
                        (λ i, Qnat i * value (nth i dataPoints d))%Q)
      by (intros; by rewrite Hnth).
    rewrite (Qsum_ext _ (λ i, nth i (map value dataPoints) 0%Q)
                        (λ i, value (nth i dataPoints d)))
      by (intros; by rewrite Hnth).
    reflexivity.
Qed.

Lemma calculateTrend_least_squares_witness :
  calculateTrend [] = 0%Q ∧
  (¬ (ols_denominator 3 == 0)%Q ∧
   (calculateTrend [ {| dp_date := 0; value := 20 |};
                     {| dp_date := 1; value := 1 |};
                     {| dp_date := 2; value := 4 |} ]
    == ols_slope [20; 1; 4])%Q).
Proof.
  split.
  - apply (proj1 (calculateTrend_least_squares [])). simpl. lia.
  - apply (proj2 (calculateTrend_least_squares
                    [ {| dp_date := 0; value := 20 |};
                      {| dp_date := 1; value := 1 |};
                      {| dp_date := 2; value := 4 |} ])).
    simpl. lia.
Defined.

Lemma calculateTrend_sums (d : DataPoint) dataPoints :
  (2 ≤ length dataPoints)%nat →
  (calculateTrend dataPoints
   == (Qnat (length dataPoints)
       * Qsum (length dataPoints) (λ i, Qnat i * value (nth i dataPoints d))
       - Qsum (length dataPoints) Qnat
         * Qsum (length dataPoints) (λ i, value (nth i dataPoints d)))
      / ols_denominator (length dataPoints))%Q.
Proof.
  intros Hn. unfold calculateTrend, ols_denominator.
  destruct (Nat.ltb_spec (length dataPoints) 2); [lia|].
  rewrite (reduce_Qsum (λ i _, Qnat i) d).
  rewrite (reduce_Qsum (λ _ p, value p) d).
  rewrite (reduce_Qsum (λ i p, Qnat i * value p)%Q d).
  rewrite (reduce_Qsum (λ i _, Qnat i * Qnat i)%Q d).
  reflexivity.
Qed.

(** ** The two projection loops *)

Section loops.
Context (clock : Clock).

Lemma sortedSeries_insert_sorted (m : gmap string (list Entry)) id l k :
  m !! id = Some l →
  sortedSeries (<[id := sort (by_key date) l]> m) k = sortedSeries m k.
Proof.
  intros Hl. unfold sortedSeries.
  destruct (decide (id = k)) as [->|Hne].
  - rewrite lookup_insert_eq, Hl. simpl. apply sort_idemp.
  - by rewrite lookup_insert_ne.
Qed.

Lemma andThen_Returned {A B} (c : Outcome A) (k : A → Outcome B) b :
  andThen c k = Returned b → ∃ a, c = Returned a ∧ k a = Returned b.
Proof. destruct c as [a|e]; simpl; [|done]. intros Hk. by exists a. Qed.

Lemma pushProjection_Returned acc computed projections :
  pushProjection clock acc computed = Returned projections →
  projections = acc ++ option_list computed
  ∧ ∀ p, computed = Some p →
         validTime (now clock + daysRemaining p * 24 * 60 * 60 * 1000) = true.
Proof.
  unfold pushProjection, toISODate. destruct computed as [p|]; simpl.
  - destruct (validTime _) eqn:Hvalid; simpl; [|done].
    intros [= <-]. split; [done|]. by intros ? [= <-].
  - intros [= <-]. split; [by rewrite app_nil_r|done].
Qed.

Lemma pushProjection_valid acc computed :
  (∀ p, computed = Some p →
        validTime (now clock + daysRemaining p * 24 * 60 * 60 * 1000) = true) →
  pushProjection clock acc computed = Returned (acc ++ option_list computed).
Proof.
  unfold pushProjection, toISODate. destruct computed as [p|]; simpl.
  - intros Hvalid. by rewrite (Hvalid p eq_refl).
  - by rewrite app_nil_r.
Qed.

Lemma getProperty_Own m key array : getProperty m key = Own array ↔ m !! key = Some array.
Proof.
  unfold getProperty. destruct (m !! key) as [a|].
  - split; congruence.
  - destruct (inherited key); split; congruence.
Qed.

Lemma getProperty_not_Own m key :
  (∀ array, getProperty m key ≠ Own array) → m !! key = None.
Proof.
  intros Hnot. destruct (m !! key) as [a|] eqn:Hm; [|done].
  by apply getProperty_Own, Hnot in Hm.
Qed.

Lemma getProperty_Inherited m key member :
  getProperty m key = Inherited member ↔ m !! key = None ∧ inherited key = Some member.
Proof.
  unfold getProperty. destruct (m !! key) as [a|]; [split; [done|by intros [? _]]|].
  destruct (inherited key) as [o|]; split.
  - by intros [= ->].
  - by intros [_ [= ->]].
  - done.
  - by intros [_ ?].
Qed.

Lemma getProperty_Undefined m key :
  getProperty m key = Undefined ↔ m !! key = None ∧ inherited key = None.
Proof.
  unfold getProperty. destruct (m !! key) as [a|]; [split; [done|by intros [? _]]|].
  destruct (inherited key) as [o|]; split; try done. by intros [_ ?].
Qed.

Lemma sortedSeries_absent (m : gmap string (list Entry)) key :
  m !! key = None → sortedSeries m key = [].
Proof. intros Hm. unfold sortedSeries. by rewrite Hm. Qed.

Lemma paperStep_spec m acc paperType st :
  paperStep clock (m, acc) paperType = Returned st →
  st.2 = acc ++ option_list (paperResult clock (sortedSeries m (pt_id paperType)) paperType)
  ∧ (∀ k, sortedSeries st.1 k = sortedSeries m k)
  ∧ ∀ p, paperResult clock (sortedSeries m (pt_id paperType)) paperType = Some p →
         validTime (now clock + daysRemaining p * 24 * 60 * 60 * 1000) = true.
Proof.
  unfold paperStep, paperResult. simpl.
  destruct (getProperty m (pt_id paperType)) as [l|member|] eqn:Hget.
  - apply getProperty_Own in Hget.
    assert (sortedSeries m (pt_id paperType) = sort (by_key date) l) as ->.
    { unfold sortedSeries. by rewrite Hget. }
    rewrite sort_length.
    destruct (0 <? length l)%nat.
    + intros (projections & Hpush & [= <-])%andThen_Returned. simpl.
      apply pushProjection_Returned in Hpush as [-> Hvalid].
      split; [done|]. split; [|done].
      intros k. by apply sortedSeries_insert_sorted.
    + intros [= <-]. simpl. by rewrite app_nil_r.
  - assert (sortedSeries m (pt_id paperType) = []) as ->.
    { apply sortedSeries_absent, getProperty_not_Own. congruence. }
    simpl. destruct member as [n|]; [destruct (0 <? n)%nat; [done|]|];
      intros [= <-]; simpl; by rewrite app_nil_r.
  - assert (sortedSeries m (pt_id paperType) = []) as ->.
    { apply sortedSeries_absent, getProperty_not_Own. congruence. }
    simpl. intros [= <-]. simpl. by rewrite app_nil_r.
Qed.

Lemma tonerStep_spec m acc toner st :
  tonerStep clock (m, acc) toner = Returned st →
  st.2 = acc ++ option_list (tonerResult clock (sortedSeries m "color") toner)
  ∧ (∀ k, sortedSeries st.1 k = sortedSeries m k)
  ∧ ∀ p, tonerResult clock (sortedSeries m "color") toner = Some p →
         validTime (now clock + daysRemaining p * 24 * 60 * 60 * 1000) = true.
Proof.
  unfold tonerStep, tonerResult. simpl.
  assert (sortedSeries m "color"
          = sort (by_key date) (default [] (m !! "color"))) as -> by done.
  destruct (m !! "color") as [l|] eqn:Hl; simpl.
  - rewrite sort_length.
    destruct (0 <? length l)%nat.
    + intros (projections & Hpush & [= <-])%andThen_Returned. simpl.
      apply pushProjection_Returned in Hpush as [-> Hvalid].
      split; [done|]. split; [|done].
      intros k. by apply sortedSeries_insert_sorted.
    + intros [= <-]. simpl. by rewrite app_nil_r.
  - intros [= <-]. simpl. by rewrite app_nil_r.
Qed.

Lemma paperLoop_spec m0 paperTypes : ∀ m acc st,
  (∀ k, sortedSeries m k = sortedSeries m0 k) →
  forOf (paperStep clock) (m, acc) paperTypes = Returned st →
  st.2 = acc ++ omap (λ pt, paperResult clock (sortedSeries m0 (pt_id pt)) pt) paperTypes
  ∧ ∀ pt p, pt ∈ paperTypes →
            paperResult clock (sortedSeries m0 (pt_id pt)) pt = Some p →
            validTime (now clock + daysRemaining p * 24 * 60 * 60 * 1000) = true.
Proof.
  induction paperTypes as [|pt pts IH]; intros m acc st Hm; simpl.
  - intros [= <-]. simpl. split; [by rewrite app_nil_r|]. by intros ? ? ?%elem_of_nil.
  - intros ([m' acc'] & Hstep & Hrest)%andThen_Returned.
    apply paperStep_spec in Hstep as (Hacc & Hsame & Hvalid). simpl in Hacc, Hsame.
    subst acc'. rewrite Hm in Hvalid.
    apply IH in Hrest as [-> Hvalid']; [|intros k; by rewrite Hsame].
    rewrite Hm. split.
    + destruct (paperResult clock (sortedSeries m0 (pt_id pt)) pt); simpl.
      * by rewrite <- app_assoc.
      * by rewrite app_nil_r.
    + intros pt' p [->|Hin]%elem_of_cons; [apply Hvalid|by apply Hvalid'].
Qed.

Lemma tonerLoop_spec m0 toners : ∀ m acc st,
  (∀ k, sortedSeries m k = sortedSeries m0 k) →
  forOf (tonerStep clock) (m, acc) toners = Returned st →
  st.2 = acc ++ omap (tonerResult clock (sortedSeries m0 "color")) toners
  ∧ ∀ tn p, tn ∈ toners →
            tonerResult clock (sortedSeries m0 "color") tn = Some p →
            validTime (now clock + daysRemaining p * 24 * 60 * 60 * 1000) = true.
Proof.
  induction toners as [|tn tns IH]; intros m acc st Hm; simpl.
  - intros [= <-]. simpl. split; [by rewrite app_nil_r|]. by intros ? ? ?%elem_of_nil.
  - intros ([m' acc'] & Hstep & Hrest)%andThen_Returned.
    apply tonerStep_spec in Hstep as (Hacc & Hsame & Hvalid). simpl in Hacc, Hsame.
    subst acc'. rewrite Hm in Hvalid.
    apply IH in Hrest as [-> Hvalid']; [|intros k; by rewrite Hsame].
    rewrite Hm. split.
    + destruct (tonerResult clock (sortedSeries m0 "color") tn); simpl.
      * by rewrite <- app_assoc.
      * by rewrite app_nil_r.
    + intros tn' p [->|Hin]%elem_of_cons; [apply Hvalid|by apply Hvalid'].
Qed.

(** The first loop, when it completes, has built
    [paperConsumptionByType]. *)
Lemma paperAggregateStep_Returned acc job acc' :
  paperAggregateStep acc job = Returned acc' →
  acc' = match paperTypeId job with
         | Some id =>
             if truthy id
             then <[id := addJob job (default [] (acc !! id))]> acc
             else acc
         | None => acc
         end.
Proof.
  unfold paperAggregateStep. destruct (paperTypeId job) as [id|]; [|congruence].
  destruct (truthy id); [|congruence].
  destruct (getProperty acc id) as [l|member|] eqn:Hget.
  - apply getProperty_Own in Hget. rewrite Hget. simpl. congruence.
  - done.
  - rewrite getProperty_not_Own by congruence. simpl. congruence.
Qed.

Lemma paperAggregation_from jobs : ∀ acc acc',
  forOf paperAggregateStep acc jobs = Returned acc' →
  acc' = foldl (λ (acc : gmap string (list Entry)) job,
                  match paperTypeId job with
                  | Some id =>
                      if truthy id
                      then <[id := addJob job (default [] (acc !! id))]> acc
                      else acc
                  | None => acc
                  end) acc jobs.
Proof.
  induction jobs as [|job jobs IH]; intros acc acc'; simpl.
  - congruence.
  - intros (acc1 & Hstep & Hrest)%andThen_Returned.
    apply paperAggregateStep_Returned in Hstep as ->. by apply IH.
Qed.

Lemma paperAggregation_Returned jobs acc :
  paperAggregation jobs = Returned acc → acc = paperConsumptionByType jobs.
Proof. apply paperAggregation_from. Qed.

Lemma ownKeysFree_empty : ownKeysFree ∅.
Proof. intros key. rewrite lookup_empty. by intros [? ?]. Qed.

Lemma paperAggregateStep_inv acc job acc' :
  ownKeysFree acc →
  paperAggregateStep acc job = Returned acc' →
  ownKeysFree acc' ∧ namesInherited job = false.
Proof.
  intros Hfree. unfold paperAggregateStep, namesInherited.
  destruct (paperTypeId job) as [id|]; [|intros [= <-]; by split].
  destruct (truthy id) eqn:Htruthy; [|intros [= <-]; by split].
  destruct (getProperty acc id) as [l|member|] eqn:Hget; [| done |].
  - apply getProperty_Own in Hget. intros [= <-].
    assert (inherited id = None) as Hid by (apply Hfree; by eexists).
    split; [|rewrite Hid; by case_bool_decide].
    intros key. destruct (decide (id = key)) as [<-|Hne]; [done|].
    rewrite lookup_insert_ne by done. apply Hfree.
  - apply getProperty_Undefined in Hget as [_ Hid]. intros [= <-].
    split; [|rewrite Hid; by case_bool_decide].
    intros key. destruct (decide (id = key)) as [<-|Hne]; [done|].
    rewrite lookup_insert_ne by done. apply Hfree.
Qed.

Lemma paperAggregation_inv jobs : ∀ acc acc',
  ownKeysFree acc →
  forOf paperAggregateStep acc jobs = Returned acc' →
  ownKeysFree acc' ∧ Forall (λ job, namesInherited job = false) jobs.
Proof.
  induction jobs as [|job jobs IH]; intros acc acc' Hfree; simpl.
  - intros [= <-]. by split.
  - intros (acc1 & Hstep & Hrest)%andThen_Returned.
    apply paperAggregateStep_inv in Hstep as [Hfree1 Hjob]; [|done].
    apply IH in Hrest as [Hfree' Hjobs]; [|done].
    split; [done|]. by constructor.
Qed.

Lemma paperAggregateStep_completes acc job :
  namesInherited job = false → ∃ acc', paperAggregateStep acc job = Returned acc'.
Proof.
  unfold paperAggregateStep, namesInherited.
  destruct (paperTypeId job) as [id|]; [|by eexists].
  destruct (truthy id) eqn:Htruthy; [|by eexists]. simpl.
  case_bool_decide as Hid; [done|]. intros _.
  destruct (getProperty acc id) as [l|member|] eqn:Hget; [by eexists| |by eexists].
  apply getProperty_Inherited in Hget as [_ Hmember].
  congruence.
Qed.

Lemma paperAggregation_completes jobs :
  Forall (λ job, namesInherited job = false) jobs →
  paperAggregation jobs = Returned (paperConsumptionByType jobs).
Proof.
  intros Hjobs.
  assert (∀ acc, ∃ acc', forOf paperAggregateStep acc jobs = Returned acc') as Hsome.
  { induction Hjobs as [|job jobs Hjob _ IH]; intros acc; simpl; [by eexists|].
    destruct (paperAggregateStep_completes acc job Hjob) as [acc1 ->]. simpl. apply IH. }
  destruct (Hsome ∅) as [acc' Hacc']. unfold paperAggregation. rewrite Hacc'.
  f_equal. by apply paperAggregation_Returned.
Qed.

Lemma paperLoop_inv paperTypes : ∀ m acc st,
  ownKeysFree m →
  forOf (paperStep clock) (m, acc) paperTypes = Returned st →
  Forall (λ pt, sortThrows (pt_id pt) = false) paperTypes.
Proof.
  induction paperTypes as [|pt pts IH]; intros m acc st Hfree; simpl; [done|].
  intros ([m' acc'] & Hstep & Hrest)%andThen_Returned.
  unfold paperStep in Hstep. simpl in Hstep.
  destruct (getProperty m (pt_id pt)) as [l|member|] eqn:Hget.
  - apply getProperty_Own in Hget.
    assert (inherited (pt_id pt) = None) as Hid by (apply Hfree; by eexists).
    constructor; [unfold sortThrows; by rewrite Hid|].
    destruct (0 <? length l)%nat.
    + apply andThen_Returned in Hstep as (projections & _ & [= <- <-]).
      eapply IH; [|exact Hrest].
      intros key. destruct (decide (pt_id pt = key)) as [<-|Hne]; [done|].
      rewrite lookup_insert_ne by done. apply Hfree.
    + injection Hstep as <- <-. by eapply IH.
  - apply getProperty_Inherited in Hget as [_ Hid].
    destruct member as [n|].
    + destruct (0 <? n)%nat eqn:Hn; [done|]. injection Hstep as <- <-.
      constructor; [unfold sortThrows; by rewrite Hid|]. by eapply IH.
    + injection Hstep as <- <-.
      constructor; [unfold sortThrows; by rewrite Hid|]. by eapply IH.
  - apply getProperty_Undefined in Hget as [_ Hid].
    injection Hstep as <- <-.
    constructor; [unfold sortThrows; by rewrite Hid|]. by eapply IH.
Qed.

Lemma paperLoop_completes m0 paperTypes : ∀ m acc,
  (∀ k, sortedSeries m k = sortedSeries m0 k) →
  Forall (λ pt, sortThrows (pt_id pt) = false) paperTypes →
  (∀ pt p, pt ∈ paperTypes →
           paperResult clock (sortedSeries m0 (pt_id pt)) pt = Some p →
           validTime (now clock + daysRemaining p * 24 * 60 * 60 * 1000) = true) →
  ∃ st, forOf (paperStep clock) (m, acc) paperTypes = Returned st.
Proof.
  induction paperTypes as [|pt pts IH]; intros m acc Hm Hids Hvalid; simpl; [by eexists|].
  apply Forall_cons in Hids as [Hid Hids].
  assert (∃ st, paperStep clock (m, acc) pt = Returned st) as [[m' acc'] Hstep].
  { unfold paperStep. simpl.
    destruct (getProperty m (pt_id pt)) as [l|member|] eqn:Hget.
    - apply getProperty_Own in Hget.
      destruct (0 <? length l)%nat eqn:Hlen; [|by eexists].
      rewrite pushProjection_valid; [by eexists|].
      intros p Hp. apply (Hvalid pt p); [apply list_elem_of_here|].
      unfold paperResult. rewrite <- Hm. unfold sortedSeries. rewrite Hget. simpl.
      by rewrite sort_length, Hlen.
    - apply getProperty_Inherited in Hget as [_ Hmember].
      unfold sortThrows in Hid. rewrite Hmember in Hid.
      destruct member as [n|]; [rewrite Hid|]; by eexists.
    - by eexists. }
  rewrite Hstep. simpl.
  apply paperStep_spec in Hstep as (_ & Hsame & _). simpl in Hsame.
  apply IH; [intros k; by rewrite Hsame|done|].
  intros pt' p Hin. apply Hvalid. by apply list_elem_of_further.
Qed.

Lemma tonerLoop_completes m0 toners : ∀ m acc,
  (∀ k, sortedSeries m k = sortedSeries m0 k) →
  (∀ tn p, tn ∈ toners →
           tonerResult clock (sortedSeries m0 "color") tn = Some p →
           validTime (now clock + daysRemaining p * 24 * 60 * 60 * 1000) = true) →
  ∃ st, forOf (tonerStep clock) (m, acc) toners = Returned st.
Proof.
  induction toners as [|tn tns IH]; intros m acc Hm Hvalid; simpl; [by eexists|].
  assert (∃ st, tonerStep clock (m, acc) tn = Returned st) as [[m' acc'] Hstep].
  { unfold tonerStep. simpl.
    destruct (m !! "color") as [l|] eqn:Hget; [|by eexists].
    destruct (0 <? length l)%nat eqn:Hlen; [|by eexists].
    rewrite pushProjection_valid; [by eexists|].
    intros p Hp. apply (Hvalid tn p); [apply list_elem_of_here|].
    unfold tonerResult. rewrite <- Hm. unfold sortedSeries. rewrite Hget. simpl.
    by rewrite sort_length, Hlen. }
  rewrite Hstep. simpl.
  apply tonerStep_spec in Hstep as (_ & Hsame & _). simpl in Hsame.
  apply IH; [intros k; by rewrite Hsame|].
  intros tn' p Hin. apply Hvalid. by apply list_elem_of_further.
Qed.

(** The [try] block, when it returns, returns what every paper type and
    every toner pushes, sorted by the days remaining; and it returns
    exactly when [completes] holds. *)
Lemma supplyProjectionsBody_Returned db companyId projections :
  supplyProjectionsBody clock db companyId = Returned projections →
  projections = sort (by_key daysRemaining) (pushedProjections clock db companyId)
  ∧ completes clock db companyId.
Proof.
  unfold supplyProjectionsBody. cbv zeta.
  intros (m & Hagg & Hrest)%andThen_Returned.
  apply andThen_Returned in Hrest as (paperLoop & Hpaper & Hrest).
  apply andThen_Returned in Hrest as (tonerLoop & Htoner & [= <-]).
  destruct (paperAggregation_inv _ _ _ ownKeysFree_empty Hagg) as [Hfree Hjobs].
  apply paperAggregation_Returned in Hagg as ->.
  pose proof (paperLoop_inv _ _ _ _ Hfree Hpaper) as Hids.
  apply (paperLoop_spec (paperConsumptionByType (recentJobsOf clock db companyId)))
    in Hpaper as [Hpushed Hvalid]; [|done].
  apply (tonerLoop_spec (tonerConsumptionByColor (recentJobsOf clock db companyId)))
    in Htoner as [-> Hvalid']; [|done].
  rewrite Hpushed. simpl. split; [done|].
  split; [done|]. split; [done|].
  apply Forall_forall. intros p. unfold pushedProjections.
  rewrite elem_of_app, !list_elem_of_omap.
  intros [(pt & Hpt & Hp)|(tn & Htn & Hp)]; [by eapply Hvalid|by eapply Hvalid'].
Qed.

Lemma supplyProjectionsBody_completes db companyId :
  completes clock db companyId →
  supplyProjectionsBody clock db companyId
  = Returned (sort (by_key daysRemaining) (pushedProjections clock db companyId)).
Proof.
  intros (Hjobs & Hids & Hvalid).
  assert (∃ projections, supplyProjectionsBody clock db companyId = Returned projections)
    as [projections Hbody].
  { unfold supplyProjectionsBody. cbv zeta.
    rewrite paperAggregation_completes by done. simpl.
    destruct (paperLoop_completes
                (paperConsumptionByType (recentJobsOf clock db companyId))
                (getAllPaperTypes db companyId)
                (paperConsumptionByType (recentJobsOf clock db companyId)) [])
      as [paperLoop ->]; [done|done| |].
    { intros pt p Hpt Hp. eapply Forall_forall in Hvalid; [exact Hvalid|].
      unfold pushedProjections. apply elem_of_app. left.
      apply list_elem_of_omap. by exists pt. }
    simpl.
    destruct (tonerLoop_completes
                (tonerConsumptionByColor (recentJobsOf clock db companyId))
                (getAllTonerInventory db companyId)
                (tonerConsumptionByColor (recentJobsOf clock db companyId)) paperLoop.2)
      as [tonerLoop ->]; [done| |].
    { intros tn p Htn Hp. eapply Forall_forall in Hvalid; [exact Hvalid|].
      unfold pushedProjections. apply elem_of_app. right.
      apply list_elem_of_omap. by exists tn. }
    simpl. by eexists. }
  rewrite Hbody. f_equal. by apply supplyProjectionsBody_Returned in Hbody as [-> _].
Qed.


(** The array returned: the handler's empty array, or the sorted
    pushes. *)
Lemma getSupplyProjections_cases db companyId :
  (¬ completes clock db companyId ∧ getSupplyProjections clock db companyId = [])
  ∨ (completes clock db companyId
     ∧ getSupplyProjections clock db companyId
       = sort (by_key daysRemaining) (pushedProjections clock db companyId)).
Proof.
  unfold getSupplyProjections.
  destruct (supplyProjectionsBody clock db companyId) as [projections|error] eqn:Hbody.
  - right. by apply supplyProjectionsBody_Returned in Hbody as [-> ?].
  - left. split; [|done]. intros Hcompletes%supplyProjectionsBody_completes. congruence.
Qed.


Lemma elem_of_pushedProjections db companyId p :
  p ∈ pushedProjections clock db companyId ↔
  (∃ pt, pt ∈ getAllPaperTypes db companyId
         ∧ paperResult clock (paperSeries clock db companyId (pt_id pt)) pt = Some p)
  ∨ (∃ tn, tn ∈ getAllTonerInventory db companyId
           ∧ tonerResult clock (tonerSeries clock db companyId) tn = Some p).
Proof. unfold pushedProjections. by rewrite elem_of_app, !list_elem_of_omap. Qed.

Lemma elem_of_getSupplyProjections db companyId p :
  p ∈ getSupplyProjections clock db companyId →
  (∃ pt, pt ∈ getAllPaperTypes db companyId
         ∧ paperResult clock (paperSeries clock db companyId (pt_id pt)) pt = Some p)
  ∨ (∃ tn, tn ∈ getAllTonerInventory db companyId
           ∧ tonerResult clock (tonerSeries clock db companyId) tn = Some p).
Proof.
  destruct (getSupplyProjections_cases db companyId) as [[_ ->]|[_ ->]].
  - by intros ?%elem_of_nil.
  - by rewrite elem_of_sort, elem_of_pushedProjections.
Qed.

Lemma getSupplyProjections_valid db companyId p :
  p ∈ getSupplyProjections clock db companyId →
  validTime (now clock + daysRemaining p * 24 * 60 * 60 * 1000) = true.
Proof.
  destruct (getSupplyProjections_cases db companyId) as [[_ ->]|[(_ & _ & Hvalid) ->]].
  - by intros ?%elem_of_nil.
  - rewrite elem_of_sort. intros Hp. by eapply Forall_forall in Hvalid.
Qed.

End loops.


(** ** What an emitted projection holds *)

Lemma Qltb_lt a b : Qltb a b = true ↔ (a < b)%Q.
Proof.
  unfold Qltb. rewrite negb_true_iff, <- not_true_iff_false, Qle_bool_iff.
  split; [apply Qnot_le_lt|apply Qlt_not_le].
Qed.

Lemma paperProjection_Some clock paperType series p :
  paperProjection clock paperType series = Some p ↔
  (0 < predictedOf series)%Q ∧
  p = {| p_type := "paper"; p_id := pt_id paperType; p_name := pt_name paperType;
         p_color := None; currentStock := pt_stock paperType;
         dailyConsumption := round2 (predictedOf series);
         trend := round2 (calculateTrend (dataPointsOf series));
         estimatedPagesPerUnit := None;
         daysRemaining := Qfloor (inject_Z (pt_stock paperType) / predictedOf series);
         estimatedDepletionDate :=
           dateKey (now clock
                    + Qfloor (inject_Z (pt_stock paperType) / predictedOf series)
                      * 24 * 60 * 60 * 1000);
         status := statusOf (Qfloor (inject_Z (pt_stock paperType) / predictedOf series));
         confidence := confidenceOf (dailyTotals series);
         dataPoints := length series |}.
Proof.
  unfold paperProjection. fold (dailyTotals series). fold (predictedOf series).
  rewrite <- Qltb_lt. destruct (Qltb 0 (predictedOf series)).
  - split; [by intros [= <-]|by intros [_ ->]].
  - split; [done|by intros [? _]].
Qed.

Lemma tonerProjection_Some clock toner series p :
  tonerProjection clock toner series = Some p ↔
  (0 < predictedOf series)%Q ∧
  let pagesRemaining := tn_stock toner * estimatedPagesPerCartridge (tn_color toner) in
  p = {| p_type := "toner"; p_id := tn_id toner; p_name := tn_name toner;
         p_color := Some (tn_color toner); currentStock := tn_stock toner;
         dailyConsumption := round2 (predictedOf series);
         trend := round2 (calculateTrend (dataPointsOf series));
         estimatedPagesPerUnit := Some (estimatedPagesPerCartridge (tn_color toner));
         daysRemaining := Qfloor (inject_Z pagesRemaining / predictedOf series);
         estimatedDepletionDate :=
           dateKey (now clock
                    + Qfloor (inject_Z pagesRemaining / predictedOf series)
                      * 24 * 60 * 60 * 1000);
         status := statusOf (Qfloor (inject_Z pagesRemaining / predictedOf series));
         confidence := confidenceOf (dailyTotals series);
         dataPoints := length series |}.
Proof.
  unfold tonerProjection. fold (dailyTotals series). fold (predictedOf series).
  rewrite <- Qltb_lt. destruct (Qltb 0 (predictedOf series)).
  - split; [by intros [= <-]|by intros [_ ->]].
  - split; [done|by intros [? _]].
Qed.

(** A flat week of ten pages a day and a stock of 100: the prediction is
    11 pages a day, 9 days remain, the status is caution and the
    confidence high. *)
Example flat_week_projection :
  let projection := paperProjection sampleClock (samplePaper "acme" "P1" 100) weekSeries in
  showHundredths ∘ dailyConsumption <$> projection = Some "11"
  ∧ showHundredths ∘ trend <$> projection = Some "0"
  ∧ daysRemaining <$> projection = Some 9
  ∧ status <$> projection = Some caution
  ∧ confidence <$> projection = Some high
  ∧ dataPoints <$> projection = Some 7%nat.
Proof. by vm_compute. Qed.

(** Two black cartridges hold 5000 pages. *)
Example black_toner_projection :
  let projection := tonerProjection sampleClock (sampleToner "acme" "T1" "black" 2) weekSeries in
  estimatedPagesPerUnit <$> projection = Some (Some 2500)
  ∧ daysRemaining <$> projection = Some 454
  ∧ status <$> projection = Some normal.
Proof. by vm_compute. Qed.

Lemma projection_status clock db companyId p :
  p ∈ getSupplyProjections clock db companyId → status p = statusOf (daysRemaining p).
Proof.
  intros Hp%elem_of_getSupplyProjections. revert Hp.
  unfold paperResult, tonerResult.
  intros [(pt & _ & Hp)|(tn & _ & Hp)]; case_match; try done.
  - apply paperProjection_Some in Hp as [_ ->]. done.
  - apply tonerProjection_Some in Hp as [_ ->]. done.
Qed.

(** C3. The status of an emitted projection is fixed by its days
    remaining: at most 3 is critical, 4 to 7 warning, 8 to 14 caution,
    15 and more normal. *)
Theorem status_by_daysRemaining clock db companyId p :
  p ∈ getSupplyProjections clock db companyId →
  (daysRemaining p ≤ 3 → status p = critical) ∧
  (4 ≤ daysRemaining p ≤ 7 → status p = warning) ∧
  (8 ≤ daysRemaining p ≤ 14 → status p = caution) ∧
  (15 ≤ daysRemaining p → status p = normal) ∧
  statusOf <$> [3; 4; 7; 8; 14; 15]
    = [critical; warning; warning; caution; caution; normal].
Proof.
  intros Hp. rewrite (projection_status _ _ _ _ Hp). unfold statusOf.
  destruct (Z.leb_spec (daysRemaining p) 3), (Z.leb_spec (daysRemaining p) 7),
    (Z.leb_spec (daysRemaining p) 14);
    repeat split; intros; (done || lia).
Qed.

Lemma status_by_daysRemaining_witness :
  ∃ p, p ∈ getSupplyProjections sampleClock (paperDb 80) (Some "acme")
       ∧ daysRemaining p = 7 ∧ status p = warning.
Proof.
  eexists. split; [|split].
  - vm_compute. apply list_elem_of_here.
  - reflexivity.
  - refine (proj1 (proj2 (status_by_daysRemaining sampleClock (paperDb 80)
                            (Some "acme") _ _)) _).
    + vm_compute. apply list_elem_of_here.
    + vm_compute. split; discriminate.
Defined.

(** C8. The list [getSupplyProjections] returns is in ascending order of
    [daysRemaining]. *)
Theorem getSupplyProjections_sorted clock db companyId :
  ascending daysRemaining (getSupplyProjections clock db companyId).
Proof.
  destruct (getSupplyProjections_cases clock db companyId) as [[_ ->]|[_ ->]].
  - constructor.
  - apply sort_ascending.
Qed.

(** ** Days remaining against stock *)

Lemma floor_div_monotone (s1 s2 : Z) (predicted : Q) :
  (0 < predicted)%Q → s1 ≤ s2 →
  Qfloor (inject_Z s1 / predicted) ≤ Qfloor (inject_Z s2 / predicted).
Proof.
  intros Hpos Hle. apply Qfloor_resp_le.
  unfold Qdiv. apply Qmult_le_compat_r.
  - by rewrite <- Zle_Qle.
  - apply Qlt_le_weak, Qinv_lt_0_compat, Hpos.
Qed.

Lemma estimatedPagesPerCartridge_pos color : 0 < estimatedPagesPerCartridge color.
Proof. unfold estimatedPagesPerCartridge. repeat case_bool_decide; lia. Qed.

(** C9. With the consumption series fixed, less stock never gives more
    days remaining, for paper (stock) and for toner (stock times the
    pages of a cartridge). *)
Theorem daysRemaining_monotone_in_stock clock series :
  (∀ pt1 pt2 p1 p2,
     pt_stock pt1 ≤ pt_stock pt2 →
     paperProjection clock pt1 series = Some p1 →
     paperProjection clock pt2 series = Some p2 →
     daysRemaining p1 = Qfloor (inject_Z (pt_stock pt1) / predictedOf series)
     ∧ daysRemaining p2 = Qfloor (inject_Z (pt_stock pt2) / predictedOf series)
     ∧ daysRemaining p1 ≤ daysRemaining p2) ∧
  (∀ tn1 tn2 p1 p2,
     tn_color tn1 = tn_color tn2 →
     tn_stock tn1 ≤ tn_stock tn2 →
     tonerProjection clock tn1 series = Some p1 →
     tonerProjection clock tn2 series = Some p2 →
     daysRemaining p1
       = Qfloor (inject_Z (tn_stock tn1 * estimatedPagesPerCartridge (tn_color tn1))
                 / predictedOf series)
     ∧ daysRemaining p2
       = Qfloor (inject_Z (tn_stock tn2 * estimatedPagesPerCartridge (tn_color tn2))
                 / predictedOf series)
     ∧ daysRemaining p1 ≤ daysRemaining p2).
Proof.
  split.
  - intros pt1 pt2 p1 p2 Hle [Hpos ->]%paperProjection_Some [_ ->]%paperProjection_Some.
    simpl. repeat split. by apply floor_div_monotone.
  - intros tn1 tn2 p1 p2 Hcolor Hle [Hpos ->]%tonerProjection_Some
      [_ ->]%tonerProjection_Some.
    simpl. repeat split. apply floor_div_monotone; [done|].
    rewrite Hcolor. apply Z.mul_le_mono_nonneg_r; [|done].
    pose proof (estimatedPagesPerCartridge_pos (tn_color tn2)). lia.
Qed.

Lemma daysRemaining_monotone_in_stock_witness :
  (∃ p1 p2, daysRemaining p1 ≤ daysRemaining p2
            ∧ daysRemaining p1 = 7 ∧ daysRemaining p2 = 10)
  ∧ (∃ p1 p2, daysRemaining p1 ≤ daysRemaining p2
              ∧ daysRemaining p1 = 227 ∧ daysRemaining p2 = 454).
Proof.
  split; eexists _, _; (split; [|split]).
  - refine (proj2 (proj2 (proj1 (daysRemaining_monotone_in_stock sampleClock sampleSeries)
              (samplePaper "acme" "P1" 80) (samplePaper "acme" "P1" 115) _ _ _ _ _))).
    + simpl. lia.
    + vm_compute. reflexivity.
    + vm_compute. reflexivity.
  - reflexivity.
  - reflexivity.
  - refine (proj2 (proj2 (proj2 (daysRemaining_monotone_in_stock sampleClock sampleSeries)
              (sampleToner "acme" "T1" "black" 1) (sampleToner "acme" "T2" "black" 2)
              _ _ _ _ _ _))).
    + reflexivity.
    + simpl. lia.
    + vm_compute. reflexivity.
    + vm_compute. reflexivity.
  - reflexivity.
  - reflexivity.
Defined.

(** ** The toner series *)






(** ** Predicted daily consumption *)













(** ** The day count of a message *)

Lemma spanDigits_spec s :
  s = (spanDigits s).1 +:+ (spanDigits s).2 ∧ allDigits (spanDigits s).1 = true.
Proof.
  induction s as [|c s [IH1 IH2]]; simpl; [done|].
  destruct (isDigit c) eqn:Hc; simpl; [|done].
  rewrite Hc, IH2. split; [|done].
  change (String c s = String c ((spanDigits s).1 +:+ (spanDigits s).2)).
  by rewrite <- IH1.
Qed.

Lemma spanDigits_run digits c rest :
  allDigits digits = true → isDigit c = false →
  spanDigits (digits +:+ String c rest) = (digits, String c rest).
Proof.
  intros Hd Hc. induction digits as [|d digits IH]; simpl in *.
  - by rewrite Hc.
  - apply andb_true_iff in Hd as [-> Hd]. by rewrite IH.
Qed.

Lemma prefix_split p s : String.prefix p s = true → ∃ rest, s = p +:+ rest.
Proof.
  revert s. induction p as [|c p IH]; intros s; simpl.
  - by exists s.
  - destruct s as [|c' s]; [done|]. simpl.
    destruct (ascii_dec c c') as [<-|]; [|done].
    intros [rest ->]%IH. by exists rest.
Qed.

Lemma prefix_app p rest : String.prefix p (p +:+ rest) = true.
Proof.
  induction p as [|c p IH]; simpl; [by destruct rest|].
  by destruct (ascii_dec c c).
Qed.

Lemma matchHere_Some s digits :
  matchHere s = Some digits →
  ∃ after, s = digits +:+ " día" +:+ after
           ∧ digits ≠ EmptyString ∧ allDigits digits = true.
Proof.
  unfold matchHere. destruct (spanDigits_spec s) as [Hs Hd].
  case_bool_decide as Hne; simpl; [|done].
  destruct (String.prefix " día" (spanDigits s).2) eqn:Hp; [|done].
  intros [= <-]. apply prefix_split in Hp as [after Hafter].
  exists after. by rewrite <- Hafter.
Qed.

Lemma matchHere_run digits after :
  digits ≠ EmptyString → allDigits digits = true →
  matchHere (digits +:+ " día" +:+ after) = Some digits.
Proof.
  intros Hne Hd. unfold matchHere.
  change (" día" +:+ after) with (String " " ("día" +:+ after)).
  rewrite spanDigits_run by done. simpl.
  rewrite bool_decide_true by done. simpl.
  change (String " " ("día" +:+ after)) with (" día" +:+ after).
  by rewrite prefix_app.
Qed.

Lemma matchDia_here s digits : matchHere s = Some digits → matchDia s = Some digits.
Proof. intros Hh. destruct s; cbn [matchDia]; by rewrite Hh. Qed.

(** [matchDia] finds a match exactly when the text holds a day count. *)
Lemma matchDia_is_Some msg : is_Some (matchDia msg) ↔ containsDayCount msg.
Proof.
  split.
  - intros [digits Hm]. induction msg as [|c msg IH]; simpl in Hm.
    + destruct (matchHere EmptyString) eqn:Hh; [|done].
      apply matchHere_Some in Hh as (after & ? & ? & ?).
      by exists EmptyString, s, after.
    + destruct (matchHere (String c msg)) as [d|] eqn:Hh.
      * apply matchHere_Some in Hh as (after & ? & ? & ?).
        by exists EmptyString, d, after.
      * destruct (IH Hm) as (before & d & after & -> & ? & ?).
        by exists (String c before), d, after.
  - intros (before & digits & after & -> & Hne & Hd).
    induction before as [|c before IH].
    + exists digits. by apply matchDia_here, matchHere_run.
    + change (matchDia (String c before +:+ digits +:+ " día" +:+ after))
        with (match matchHere (String c before +:+ digits +:+ " día" +:+ after) with
              | Some d => Some d
              | None => matchDia (before +:+ digits +:+ " día" +:+ after)
              end).
      by destruct (matchHere _).
Qed.

Lemma parsedDays_without_day_count msg : ¬ containsDayCount msg → parsedDays msg = 0.
Proof.
  rewrite <- matchDia_is_Some, <- eq_None_not_Some.
  intros Hnone. unfold parsedDays. by rewrite Hnone.
Qed.

(** ** Alert policy engine *)

Lemma alertType_selected projection :
  daysRemaining projection ≤ 14 → truthy (alertType (statusAlertFor projection)) = true.
Proof.
  intros Hd. unfold statusAlertFor.
  destruct (Z.leb_spec (daysRemaining projection) 0); [by case_bool_decide|].
  destruct (Z.leb_spec (daysRemaining projection) 3); [by case_bool_decide|].
  destruct (Z.leb_spec (daysRemaining projection) 7); [by case_bool_decide|].
  destruct (Z.leb_spec (daysRemaining projection) 14); [by case_bool_decide|lia].
Qed.

Lemma alertType_not_selected projection :
  14 < daysRemaining projection → alertType (statusAlertFor projection) = EmptyString.
Proof.
  intros Hd. unfold statusAlertFor.
  destruct (Z.leb_spec (daysRemaining projection) 0); [lia|].
  destruct (Z.leb_spec (daysRemaining projection) 3); [lia|].
  destruct (Z.leb_spec (daysRemaining projection) 7); [lia|].
  destruct (Z.leb_spec (daysRemaining projection) 14); [lia|done].
Qed.

Lemma statusStep_selected faults compId projection s :
  daysRemaining projection ≤ 14 →
  statusStep faults compId projection s
  = match find (similarStatusAlert (statusAlertFor projection) projection)
                (companyAlerts compId s) with
    | None =>
        (exec createAlert faults (statusInsert compId (statusAlertFor projection) projection) ;;
         ret tt) s
    | Some similarAlert =>
        if 2 <=? Z.abs (daysRemaining projection - parsedDays (message similarAlert))
        then (exec markAlertRead faults (a_id similarAlert) ;;
              exec createAlert faults
                   (statusInsert compId (statusAlertFor projection) projection) ;;
              ret tt) s
        else (Returned tt, s)
    end.
Proof.
  intros Hd. unfold statusStep. rewrite alertType_selected by done.
  unfold bind at 1, getAllAlerts. fold (companyAlerts compId s).
  destruct (find _ _); [|done].
  by destruct (2 <=? _).
Qed.

Lemma find_Some_holds {A} (P : A → Prop) `{∀ x, Decision (P x)} (l : list A) x :
  find P l = Some x → x ∈ l ∧ P x.
Proof.
  unfold find. destruct (list_find P l) as [[i y]|] eqn:Hfind; [|done].
  intros [= <-]. apply list_find_Some in Hfind as (Hi & HP & _).
  split; [by eapply list_elem_of_lookup_2|done].
Qed.

(** C2 (as the code has it). A projection that selects an alert type is
    deduplicated against the first unread alert of the company with the
    same type, resource id and resource type: none, create; a day count
    at least 2 away, mark it read and create; otherwise no write.  The
    type is part of the key: after an alert at 10 days, a projection at 9
    days writes nothing, one at 12 days marks and creates, and one at 7
    days (a warning, not a caution) only creates. *)
Theorem status_alert_dedup :
  (∀ faults compId projection s,
     daysRemaining projection ≤ 14 →
     let text := statusAlertFor projection in
     let new := statusInsert compId text projection in
     let similar := find (similarStatusAlert text projection) (companyAlerts compId s) in
     (similar = None →
        statusStep faults compId projection s = (exec createAlert faults new ;; ret tt) s)
     ∧ (∀ old, similar = Some old →
          old ∈ alerts s ∧ companyId old = compId ∧ a_type old = alertType text
          ∧ resourceId old = Some (p_id projection)
          ∧ resourceType old = Some (p_type projection) ∧ read old = false)
     ∧ (∀ old, similar = Some old →
          2 ≤ Z.abs (daysRemaining projection - parsedDays (message old)) →
          statusStep faults compId projection s
          = (exec markAlertRead faults (a_id old) ;; exec createAlert faults new ;; ret tt) s)
     ∧ (∀ old, similar = Some old →
          Z.abs (daysRemaining projection - parsedDays (message old)) < 2 →
          statusStep faults compId projection s = (Returned tt, s)))
  ∧ (a_type <$> alerts storeAt10 = ["paper_caution"]
     ∧ (parsedDays ∘ message) <$> alerts storeAt10 = [10]
     ∧ read <$> alerts storeAt10 = [false])
  ∧ (daysRemaining <$> getSupplyProjections sampleClock (paperDb 105) (Some "acme") = [9]
     ∧ alertPass (paperDb 105) storeAt10 = storeAt10)
  ∧ (daysRemaining <$> getSupplyProjections sampleClock (paperDb 135) (Some "acme") = [12]
     ∧ a_type <$> alerts (alertPass (paperDb 135) storeAt10)
       = ["paper_caution"; "paper_caution"]
     ∧ (parsedDays ∘ message) <$> alerts (alertPass (paperDb 135) storeAt10) = [10; 12]
     ∧ read <$> alerts (alertPass (paperDb 135) storeAt10) = [true; false])
  ∧ (daysRemaining <$> getSupplyProjections sampleClock (paperDb 80) (Some "acme") = [7]
     ∧ a_type <$> alerts (alertPass (paperDb 80) storeAt10)
       = ["paper_caution"; "paper_warning"]
     ∧ (parsedDays ∘ message) <$> alerts (alertPass (paperDb 80) storeAt10) = [10; 7]
     ∧ read <$> alerts (alertPass (paperDb 80) storeAt10) = [false; false]).
Proof.
  split; [|by vm_compute].
  intros faults compId projection s Hd text new similar.
  pose proof (statusStep_selected faults compId projection s Hd) as Hstep.
  fold text new similar in Hstep.
  split; [|split; [|split]].
  - intros Hnone. by rewrite Hstep, Hnone.
  - intros old [Hin (Htype & Hid & Hres & Hread)]%find_Some_holds.
    unfold companyAlerts in Hin. apply list_elem_of_filter in Hin as [Hcomp Hin].
    done.
  - intros old Hold Hdiff. rewrite Hstep, Hold.
    destruct (Z.leb_spec 2 (Z.abs (daysRemaining projection - parsedDays (message old))));
      [done|lia].
  - intros old Hold Hdiff. rewrite Hstep, Hold.
    destruct (Z.leb_spec 2 (Z.abs (daysRemaining projection - parsedDays (message old))));
      [lia|done].
Qed.

Lemma status_alert_dedup_witness :
  ∃ p old,
    p ∈ getSupplyProjections sampleClock (paperDb 135) (Some "acme")
    ∧ old ∈ alerts storeAt10
    ∧ statusStep noFaults "acme" p storeAt10
      = (exec markAlertRead noFaults (a_id old) ;;
         exec createAlert noFaults (statusInsert "acme" (statusAlertFor p) p) ;;
         ret tt) storeAt10.
Proof.
  eexists _, _. split; [vm_compute; apply list_elem_of_here|].
  split; [vm_compute; apply list_elem_of_here|].
  refine (proj1 (proj2 (proj2 (proj1 status_alert_dedup noFaults "acme" _ storeAt10 _)))
            _ _ _).
  - vm_compute. discriminate.
  - vm_compute. reflexivity.
  - vm_compute. discriminate.
Defined.

(** C2, the instance the code does not follow: with an unread caution
    alert at 10 days, a projection at 7 days is a warning; no alert is
    marked read and both stay unread. *)
Lemma status_alert_dedup_counterexample :
  daysRemaining <$> getSupplyProjections sampleClock (paperDb 80) (Some "acme") = [7]
  ∧ (parsedDays ∘ message) <$> alerts storeAt10 = [10]
  ∧ read <$> alerts storeAt10 = [false]
  ∧ someAlertMarkedRead storeAt10 (alertPass (paperDb 80) storeAt10) = false
  ∧ read <$> alerts (alertPass (paperDb 80) storeAt10) = [false; false].
Proof. by vm_compute. Qed.

(** C7 (as the code has it). A similar unread alert whose message holds
    no day count is compared as 0 days: the alert is replaced exactly when
    the absolute value of the new [daysRemaining] is at least 2. *)
Theorem unparsable_message_counts_as_zero faults compId projection s old :
  daysRemaining projection ≤ 14 →
  find (similarStatusAlert (statusAlertFor projection) projection) (companyAlerts compId s)
    = Some old →
  ¬ containsDayCount (message old) →
  parsedDays (message old) = 0
  ∧ (2 ≤ Z.abs (daysRemaining projection) →
       statusStep faults compId projection s
       = (exec markAlertRead faults (a_id old) ;;
          exec createAlert faults
               (statusInsert compId (statusAlertFor projection) projection) ;;
          ret tt) s)
  ∧ (Z.abs (daysRemaining projection) < 2 →
       statusStep faults compId projection s = (Returned tt, s)).
Proof.
  intros Hd Hold Hnone.
  pose proof (parsedDays_without_day_count _ Hnone) as Hzero.
  rewrite statusStep_selected, Hold, Hzero, Z.sub_0_r by done.
  split; [done|].
  destruct (Z.leb_spec 2 (Z.abs (daysRemaining projection))); split; (done || lia).
Qed.

Lemma unparsable_message_counts_as_zero_witness :
  ∃ p old,
    p ∈ getSupplyProjections sampleClock (paperDb 0) (Some "acme")
    ∧ old ∈ alerts storeDepleted
    ∧ parsedDays (message old) = 0
    ∧ statusStep noFaults "acme" p storeDepleted = (Returned tt, storeDepleted).
Proof.
  eexists _, _. split; [vm_compute; apply list_elem_of_here|].
  split; [vm_compute; apply list_elem_of_here|].
  match goal with
  | |- parsedDays (message ?old) = 0 ∧ statusStep _ _ ?p _ = _ =>
      destruct (unparsable_message_counts_as_zero noFaults "acme" p storeDepleted old)
        as (Hzero & _ & Hnoop)
  end.
  - vm_compute. discriminate.
  - vm_compute. reflexivity.
  - rewrite <- matchDia_is_Some. vm_compute. intros [digits Hdigits]. discriminate.
  - split; [exact Hzero|]. apply Hnoop. vm_compute. reflexivity.
Defined.

(** C7, where the claim fails: the alert of a depleted paper type holds
    no day count and the paper is still at 0 days; the next pass leaves
    the store as it is. *)
Lemma unparsable_message_counterexample :
  daysRemaining <$> getSupplyProjections sampleClock (paperDb 0) (Some "acme") = [0]
  ∧ a_type <$> alerts storeDepleted = ["paper_depleted"]
  ∧ read <$> alerts storeDepleted = [false]
  ∧ (matchDia ∘ message) <$> alerts storeDepleted = [None]
  ∧ alertPass (paperDb 0) storeDepleted = storeDepleted.
Proof. by vm_compute. Qed.

(** C6 (as the code has it). Every projection of low confidence with at
    most 30 days remaining is checked for a [projection_unreliable] alert
    of severity info: it is created when the company has no unread alert
    of that type with the same resource id (the resource type is not
    compared), and nothing is written otherwise. *)
Theorem unreliable_alert_rule faults clock db companyId projections compId :
  companyStep faults clock db companyId projections compId
  = (await companyProjections ←
       (if truthy_opt companyId then ret projections
        else awaitSupplyProjections clock db (Some compId)) ;;
     exec forEach (statusStep faults compId) companyProjections ;;
     forEach (unreliableStep faults compId)
             (filter (λ p, confidence p = low ∧ daysRemaining p ≤ 30) companyProjections))
  ∧ ∀ projection s,
      let new := unreliableInsert compId projection in
      let similar :=
        find (λ alert, a_type alert = "projection_unreliable"
                       ∧ resourceId alert = Some (p_id projection)
                       ∧ read alert = false)
             (companyAlerts compId s) in
      i_type new = "projection_unreliable" ∧ i_severity new = "info"
      ∧ (similar = None →
           unreliableStep faults compId projection s
           = (exec createAlert faults new ;; ret tt) s)
      ∧ (∀ old, similar = Some old →
           unreliableStep faults compId projection s = (Returned tt, s)).
Proof.
  split; [done|]. intros projection s new similar.
  repeat split.
  - intros Hnone. unfold unreliableStep, bind at 1, getAllAlerts.
    fold (companyAlerts compId s).
    change (find (similarUnreliableAlert projection) (companyAlerts compId s)) with similar.
    by rewrite Hnone.
  - intros old Hold. unfold unreliableStep, bind at 1, getAllAlerts.
    fold (companyAlerts compId s).
    change (find (similarUnreliableAlert projection) (companyAlerts compId s)) with similar.
    by rewrite Hold.
Qed.

Lemma unreliable_alert_rule_witness :
  ∃ p old,
    p ∈ getSupplyProjections sampleClock erraticDb (Some "acme")
    ∧ old ∈ alerts storeUnreliable
    ∧ unreliableStep noFaults "acme" p storeUnreliable = (Returned tt, storeUnreliable).
Proof.
  eexists _, _. split; [vm_compute; apply list_elem_of_here|].
  split; [vm_compute; apply list_elem_of_here|].
  refine (proj2 (proj2 (proj2 (proj2 (unreliable_alert_rule noFaults sampleClock erraticDb
                                        (Some "acme") [] "acme") _ storeUnreliable))) _ _).
  vm_compute. reflexivity.
Defined.

(** C6, where the claim fails: the unread [projection_unreliable] alert
    holds no day count, the projection is at 20 days (a difference of 20),
    and the pass neither marks the alert read nor creates another. *)
Lemma unreliable_alert_counterexample :
  confidence <$> getSupplyProjections sampleClock erraticDb (Some "acme") = [low]
  ∧ daysRemaining <$> getSupplyProjections sampleClock erraticDb (Some "acme") = [20]
  ∧ a_type <$> alerts storeUnreliable = ["projection_unreliable"]
  ∧ read <$> alerts storeUnreliable = [false]
  ∧ (parsedDays ∘ message) <$> alerts storeUnreliable = [0]
  ∧ alertPass erraticDb storeUnreliable = storeUnreliable.
Proof. by vm_compute. Qed.

(** ** Failures *)

Lemma forEach_aborts {A} (body : A → IO unit) before x after s s1 s2 error :
  forEach body before s = (Returned tt, s1) →
  body x s1 = (Thrown error, s2) →
  forEach body (before ++ x :: after) s = (Thrown error, s2).
Proof.
  revert s. induction before as [|y before IH]; intros s; simpl.
  - intros [= <-] Hx. unfold bind. by rewrite Hx.
  - intros Hrest Hx. unfold bind in Hrest |- *.
    destruct (body y s) as [[[]|e] s'] eqn:Hy; [|done].
    by apply IH.
Qed.

Lemma tryCatch_returns body handler s :
  (∀ e s', (handler e s').1 = Returned tt) →
  (tryCatch body handler s).1 = Returned tt.
Proof.
  intros Hhandler. unfold tryCatch.
  destruct (body s) as [[[]|e] s']; [done|apply Hhandler].
Qed.

Lemma awaitSupplyProjections_run clock db companyId s :
  ∃ s', awaitSupplyProjections clock db companyId s
        = (Returned (getSupplyProjections clock db companyId), s')
        ∧ alerts s' = alerts s ∧ nextAlertId s' = nextAlertId s
        ∧ (completes clock db companyId → s' = s).
Proof.
  unfold awaitSupplyProjections, getSupplyProjections.
  destruct (supplyProjectionsBody clock db companyId) as [projections|error] eqn:Hbody.
  - exists s. by repeat split.
  - eexists. split; [reflexivity|]. split; [done|]. split; [done|].
    intros Hcompletes%supplyProjectionsBody_completes. congruence.
Qed.

Lemma awaitSupplyProjections_value clock db companyId s :
  awaitSupplyProjections clock db companyId s
  = (Returned (getSupplyProjections clock db companyId),
     (awaitSupplyProjections clock db companyId s).2).
Proof.
  destruct (awaitSupplyProjections_run clock db companyId s) as (s' & Hrun & _).
  by rewrite Hrun.
Qed.

(** C5 (as the code has it). One handler surrounds the whole loop over
    the companies: a [createAlert] or [markAlertRead] that throws while a
    company is processed ends the run there.  The failure is logged, the
    caller never sees it, the writes made so far stay, and the companies
    that follow are not processed.  The loop starts from the store the
    up-front call of [getSupplyProjections] has left. *)
Theorem generateSupplyAlerts_failure_ends_run faults clock db :
  (∀ companyId s, (generateSupplyAlerts faults clock db companyId s).1 = Returned tt)
  ∧ (∀ before compId after s s1 s2 error,
       getAllCompanies db = before ++ compId :: after →
       forEach (companyStep faults clock db None (getSupplyProjections clock db None))
               before (awaitSupplyProjections clock db None s).2 = (Returned tt, s1) →
       companyStep faults clock db None (getSupplyProjections clock db None) compId s1
         = (Thrown error, s2) →
       generateSupplyAlerts faults clock db None s
       = (Returned tt, logged ("Error generating supply alerts: " +:+ error) s2)).
Proof.
  split.
  - intros companyId s. unfold generateSupplyAlerts. by apply tryCatch_returns.
  - intros before compId after s s1 s2 error Hcompanies Hbefore Hthrown.
    unfold generateSupplyAlerts, tryCatch, companiesToCheck, bind. simpl.
    rewrite awaitSupplyProjections_value, Hcompanies.
    by rewrite (forEach_aborts _ before compId after _ s1 s2 error Hbefore Hthrown).
Qed.

Lemma generateSupplyAlerts_failure_ends_run_witness :
  generateSupplyAlerts acmeInsertFails sampleClock twoCompanyDb None emptyStore
  = (Returned tt,
     logged "Error generating supply alerts: insert into alerts failed" emptyStore).
Proof.
  apply (proj2 (generateSupplyAlerts_failure_ends_run acmeInsertFails sampleClock
                  twoCompanyDb) [] "acme" ["globex"] emptyStore emptyStore emptyStore
               "insert into alerts failed").
  - reflexivity.
  - reflexivity.
  - vm_compute. reflexivity.
Defined.

(** C5, where the claim fails: the insert for the first company throws
    and the second company, whose paper is at 7 days, gets no alert,
    although processing it from the same store would create one. *)
Lemma generateSupplyAlerts_failure_counterexample :
  companiesToCheck twoCompanyDb None = ["acme"; "globex"]
  ∧ daysRemaining <$> getSupplyProjections sampleClock twoCompanyDb (Some "globex") = [7]
  ∧ alerts (generateSupplyAlerts acmeInsertFails sampleClock twoCompanyDb None emptyStore).2
    = []
  ∧ console (generateSupplyAlerts acmeInsertFails sampleClock twoCompanyDb None emptyStore).2
    = ["Error generating supply alerts: insert into alerts failed"]
  ∧ a_type <$> alerts (companyStep acmeInsertFails sampleClock twoCompanyDb None []
                         "globex" emptyStore).2
    = ["paper_warning"].
Proof. by vm_compute. Qed.

(** * Further properties of the engine *)

(** ** Consumption aggregator *)

Lemma addJob_days job series :
  seriesDays (addJob job series)
  = if decide (dateKey (printedAt job) ∈ seriesDays series)
    then seriesDays series
    else seriesDays series ++ [dateKey (printedAt job)].
Proof.
  unfold addJob, seriesDays.
  destruct (list_find _ series) as [[i e]|] eqn:Hfind.
  - apply list_find_Some in Hfind as (Hi & He & _).
    rewrite list_fmap_insert. simpl.
    rewrite list_insert_id by (by rewrite list_lookup_fmap, Hi).
    rewrite decide_True; [done|].
    apply list_elem_of_fmap. exists e. split; [done|]. by eapply list_elem_of_lookup_2.
  - apply list_find_None in Hfind.
    rewrite decide_False.
    + by rewrite fmap_app.
    + intros (e & He & Hin)%list_elem_of_fmap.
      eapply Forall_forall in Hfind; [|exact Hin]. simpl in He. congruence.
Qed.

Lemma Zsum_app l k : Zsum (l ++ k) = Zsum l + Zsum k.
Proof. unfold Zsum. induction l as [|x l IH]; simpl; lia. Qed.

Lemma Zsum_perm l k : l ≡ₚ k → Zsum l = Zsum k.
Proof. unfold Zsum. induction 1; simpl; lia. Qed.

Lemma addJob_pages job series :
  Zsum (pages <$> addJob job series) = Zsum (pages <$> series) + pageCount job.
Proof.
  unfold addJob.
  destruct (list_find _ series) as [[i e]|] eqn:Hfind.
  - apply list_find_Some in Hfind as (Hi & _ & _).
    rewrite insert_take_drop by (by eapply lookup_lt_Some).
    rewrite <- (take_drop_middle series i e Hi) at 3.
    rewrite !fmap_app, !fmap_cons, !Zsum_app. unfold Zsum. simpl. lia.
  - rewrite fmap_app, Zsum_app. unfold Zsum. simpl. lia.
Qed.

Lemma addJob_nonempty job series : addJob job series ≠ [].
Proof.
  intros Hnil. apply (f_equal length) in Hnil. revert Hnil.
  unfold addJob. destruct (list_find _ series) as [[i e]|] eqn:Hfind.
  - apply list_find_Some in Hfind as (Hi & _ & _).
    apply lookup_lt_Some in Hi. rewrite length_insert. simpl. lia.
  - rewrite length_app. simpl. lia.
Qed.

Lemma foldl_addJob_days jobs : ∀ series,
  NoDup (seriesDays series) →
  NoDup (seriesDays (foldl (λ series job, addJob job series) series jobs))
  ∧ ∀ day, day ∈ seriesDays (foldl (λ series job, addJob job series) series jobs)
           ↔ day ∈ seriesDays series ∨ day ∈ jobDays jobs.
Proof.
  induction jobs as [|job jobs IH]; intros series Hnd; cbn [foldl].
  - split; [done|]. intros day. unfold jobDays. simpl. rewrite elem_of_nil. tauto.
  - destruct (IH (addJob job series)) as [IH1 IH2].
    { rewrite addJob_days. case_decide; [done|].
      apply NoDup_app. split; [done|]. split; [|apply NoDup_singleton].
      intros x Hx ->%list_elem_of_singleton. done. }
    split; [done|]. intros day. rewrite IH2, addJob_days.
    change (jobDays (job :: jobs)) with (dateKey (printedAt job) :: jobDays jobs).
    rewrite elem_of_cons.
    case_decide as Hin.
    + split; [tauto|]. intros [?|[->|?]]; auto.
    + rewrite elem_of_app, list_elem_of_singleton. tauto.
Qed.

Lemma foldl_addJob_pages jobs : ∀ series,
  Zsum (pages <$> foldl (λ series job, addJob job series) series jobs)
  = Zsum (pages <$> series) + Zsum (pageCount <$> jobs).
Proof.
  induction jobs as [|job jobs IH]; intros series; cbn [foldl].
  - change (Zsum (pageCount <$> [])) with 0. lia.
  - rewrite IH, addJob_pages.
    change (Zsum (pageCount <$> job :: jobs))
      with (pageCount job + Zsum (pageCount <$> jobs)).
    lia.
Qed.

Lemma aggregate_nil_iff jobs : aggregate jobs = [] ↔ jobs = [].
Proof.
  split; [|by intros ->].
  unfold aggregate. destruct jobs as [|job jobs]; [done|]. simpl.
  assert (∀ series, series ≠ [] →
            foldl (λ series job, addJob job series) series jobs ≠ []) as Hne.
  { induction jobs as [|j js IH]; intros series Hs; simpl; [done|].
    apply IH, addJob_nonempty. }
  intros Hnil. by apply Hne in Hnil; [|apply addJob_nonempty].
Qed.

(** What the dictionaries hold under a key: the aggregate of the jobs
    attributed to it. *)
Lemma paper_fold_lookup jobs id : ∀ acc : gmap string (list Entry),
  default [] (foldl (λ (acc : gmap string (list Entry)) job,
                       match paperTypeId job with
                       | Some id =>
                           if truthy id
                           then <[id := addJob job (default [] (acc !! id))]> acc
                           else acc
                       | None => acc
                       end) acc jobs !! id)
  = foldl (λ series job, addJob job series) (default [] (acc !! id))
          (filter (λ job, paperTypeId job = Some id ∧ truthy id = true) jobs).
Proof.
  induction jobs as [|job jobs IH]; intros acc; [done|].
  rewrite filter_cons. cbn [foldl].
  destruct (paperTypeId job) as [id'|] eqn:Hid.
  - destruct (truthy id') eqn:Htruthy.
    + destruct (decide (id' = id)) as [->|Hne].
      * rewrite decide_True by done. cbn [foldl].
        by rewrite IH, lookup_insert_eq.
      * rewrite decide_False by (intros [[= ?] _]; done).
        by rewrite IH, lookup_insert_ne.
    + rewrite decide_False by (intros [[= ->] ?]; congruence). apply IH.
  - rewrite decide_False by (intros [? _]; done). apply IH.
Qed.

Lemma paperConsumptionByType_lookup jobs id :
  default [] (paperConsumptionByType jobs !! id)
  = aggregate (filter (λ job, paperTypeId job = Some id ∧ truthy id = true) jobs).
Proof. unfold paperConsumptionByType. by rewrite paper_fold_lookup. Qed.

Lemma toner_fold_lookup jobs : ∀ acc : gmap string (list Entry),
  default [] (foldl (λ (acc : gmap string (list Entry)) job,
                       if bool_decide (colorMode job = "color")
                       then <[colorMode job :=
                                addJob job (default [] (acc !! colorMode job))]> acc
                       else acc) acc jobs !! "color")
  = foldl (λ series job, addJob job series) (default [] (acc !! "color"))
          (filter (λ job, colorMode job = "color") jobs).
Proof.
  induction jobs as [|job jobs IH]; intros acc; [done|].
  rewrite filter_cons. cbn [foldl]. case_bool_decide as Hc.
  - rewrite decide_True by done. cbn [foldl].
    by rewrite IH, Hc, lookup_insert_eq.
  - rewrite decide_False by done. apply IH.
Qed.

Lemma tonerConsumptionByColor_lookup jobs :
  default [] (tonerConsumptionByColor jobs !! "color")
  = aggregate (filter (λ job, colorMode job = "color") jobs).
Proof. unfold tonerConsumptionByColor. by rewrite toner_fold_lookup. Qed.

Lemma paperSeries_aggregate clock db companyId id :
  paperSeries clock db companyId id
  = sort (by_key date) (aggregate (paperJobs clock db companyId id)).
Proof. unfold paperSeries, sortedSeries. by rewrite paperConsumptionByType_lookup. Qed.

Lemma tonerSeries_aggregate clock db companyId :
  tonerSeries clock db companyId
  = sort (by_key date) (aggregate (tonerJobs clock db companyId)).
Proof. unfold tonerSeries, sortedSeries. by rewrite tonerConsumptionByColor_lookup. Qed.

Lemma sorted_aggregate_facts jobs :
  let series := sort (by_key date) (aggregate jobs) in
  NoDup (seriesDays series)
  ∧ (∀ day, day ∈ seriesDays series ↔ day ∈ jobDays jobs)
  ∧ Zsum (pages <$> series) = Zsum (pageCount <$> jobs)
  ∧ (series = [] ↔ jobs = []).
Proof.
  intros series.
  assert (series ≡ₚ aggregate jobs) as Hperm by apply sort_perm.
  destruct (foldl_addJob_days jobs []) as [Hnd Hdays]; [constructor|].
  fold (aggregate jobs) in Hnd, Hdays.
  split; [|split; [|split]].
  - unfold seriesDays. by rewrite Hperm.
  - intros day. unfold seriesDays at 1. rewrite Hperm.
    fold (seriesDays (aggregate jobs)). rewrite Hdays.
    unfold seriesDays. simpl. rewrite elem_of_nil. tauto.
  - rewrite (Zsum_perm (pages <$> series) (pages <$> aggregate jobs))
      by (by rewrite Hperm).
    unfold aggregate. rewrite foldl_addJob_pages.
    change (Zsum (pages <$> [])) with 0. lia.
  - rewrite <- aggregate_nil_iff. split; intros Hnil.
    + apply Permutation_nil_r. by rewrite <- Hperm, Hnil.
    + apply Permutation_nil_r. by rewrite Hperm, Hnil.
Qed.

Lemma series_length_days jobs :
  length (sort (by_key date) (aggregate jobs)) = length (remove_dups (jobDays jobs)).
Proof.
  destruct (sorted_aggregate_facts jobs) as (Hnd & Hdays & _ & _).
  rewrite <- (length_fmap (dateKey ∘ date)).
  apply Permutation_length, NoDup_Permutation; [done|apply NoDup_remove_dups|].
  intros day. rewrite elem_of_remove_dups. apply Hdays.
Qed.

(** X1. A consumption series holds one entry per calendar day: its days
    are pairwise distinct, they are exactly the days on which the
    resource has a recent job, and the series is in ascending order of
    date. *)
Theorem series_one_entry_per_day clock db companyId :
  (∀ id,
     NoDup (seriesDays (paperSeries clock db companyId id))
     ∧ (∀ day, day ∈ seriesDays (paperSeries clock db companyId id)
               ↔ day ∈ jobDays (paperJobs clock db companyId id))
     ∧ length (paperSeries clock db companyId id)
       = length (remove_dups (jobDays (paperJobs clock db companyId id)))
     ∧ ascending date (paperSeries clock db companyId id))
  ∧ NoDup (seriesDays (tonerSeries clock db companyId))
  ∧ (∀ day, day ∈ seriesDays (tonerSeries clock db companyId)
            ↔ day ∈ jobDays (tonerJobs clock db companyId))
  ∧ length (tonerSeries clock db companyId)
    = length (remove_dups (jobDays (tonerJobs clock db companyId)))
  ∧ ascending date (tonerSeries clock db companyId).
Proof.
  split; [intros id; rewrite paperSeries_aggregate|rewrite tonerSeries_aggregate].
  - destruct (sorted_aggregate_facts (paperJobs clock db companyId id))
      as (Hnd & Hdays & _ & _).
    repeat split; try done; try apply Hdays.
    + apply series_length_days.
    + apply sort_ascending.
  - destruct (sorted_aggregate_facts (tonerJobs clock db companyId))
      as (Hnd & Hdays & _ & _).
    repeat split; try done; try apply Hdays.
    + apply series_length_days.
    + apply sort_ascending.
Qed.

(** X2. Aggregation loses no page and invents none: the daily totals of
    a series add up to the page counts of the recent jobs attributed to
    the resource. *)
Theorem series_pages_conserved clock db companyId :
  (∀ id, Zsum (pages <$> paperSeries clock db companyId id)
         = Zsum (pageCount <$> paperJobs clock db companyId id))
  ∧ Zsum (pages <$> tonerSeries clock db companyId)
    = Zsum (pageCount <$> tonerJobs clock db companyId).
Proof.
  split; [intros id; rewrite paperSeries_aggregate|rewrite tonerSeries_aggregate].
  - by destruct (sorted_aggregate_facts (paperJobs clock db companyId id))
      as (_ & _ & Hsum & _).
  - by destruct (sorted_aggregate_facts (tonerJobs clock db companyId))
      as (_ & _ & Hsum & _).
Qed.

Lemma length_omap_le {A B} (f : A → option B) (l : list A) :
  (length (omap f l) ≤ length l)%nat.
Proof.
  induction l as [|x l IH]; simpl; [done|].
  change (list_omap A B f l) with (omap f l).
  destruct (f x); simpl; lia.
Qed.

Lemma length_nonempty {A} (l : list A) : (0 <? length l)%nat = true → l ≠ [].
Proof. by destruct l. Qed.

(** X3. A projection is emitted only for a resource that has a recent
    job: a paper type needs a job of the window that names it, a
    cartridge needs a color job.  With no recent job at all the result
    is empty, and it never holds more entries than there are paper types
    and cartridges. *)
Theorem projections_need_recent_jobs clock db companyId :
  (∀ p, p ∈ getSupplyProjections clock db companyId → p_type p = "paper" →
        paperJobs clock db companyId (p_id p) ≠ [])
  ∧ (∀ p, p ∈ getSupplyProjections clock db companyId → p_type p = "toner" →
          tonerJobs clock db companyId ≠ [])
  ∧ (recentJobsOf clock db companyId = [] → getSupplyProjections clock db companyId = [])
  ∧ (length (getSupplyProjections clock db companyId)
     ≤ length (getAllPaperTypes db companyId)
       + length (getAllTonerInventory db companyId))%nat.
Proof.
  assert (∀ p, p ∈ getSupplyProjections clock db companyId →
            (p_type p = "paper" ∧ paperJobs clock db companyId (p_id p) ≠ [])
            ∨ (p_type p = "toner" ∧ tonerJobs clock db companyId ≠ [])) as Hjobs.
  { intros p [(pt & _ & Hp)|(tn & _ & Hp)]%elem_of_getSupplyProjections.
    - left. unfold paperResult in Hp.
      destruct (0 <? length _)%nat eqn:Hlen; [|done].
      apply length_nonempty in Hlen. rewrite paperSeries_aggregate in Hlen.
      apply paperProjection_Some in Hp as [_ ->]. simpl. split; [done|].
      intros Hnil. apply Hlen.
      by apply (sorted_aggregate_facts (paperJobs clock db companyId (pt_id pt))).
    - right. unfold tonerResult in Hp.
      destruct (0 <? length _)%nat eqn:Hlen; [|done].
      apply length_nonempty in Hlen. rewrite tonerSeries_aggregate in Hlen.
      apply tonerProjection_Some in Hp as [_ ->]. simpl. split; [done|].
      intros Hnil. apply Hlen.
      by apply (sorted_aggregate_facts (tonerJobs clock db companyId)). }
  split; [|split; [|split]].
  - intros p Hp Htype. destruct (Hjobs p Hp) as [[_ ?]|[Ht _]]; [done|congruence].
  - intros p Hp Htype. destruct (Hjobs p Hp) as [[Ht _]|[_ ?]]; [congruence|done].
  - intros Hnone.
    destruct (getSupplyProjections clock db companyId) as [|p ps] eqn:Hps; [done|].
    destruct (Hjobs p) as [[_ Hne]|[_ Hne]]; [by left|..];
      exfalso; apply Hne.
    + unfold paperJobs. by rewrite Hnone.
    + unfold tonerJobs. by rewrite Hnone.
  - destruct (getSupplyProjections_cases clock db companyId) as [[_ ->]|[_ ->]];
      [simpl; lia|].
    unfold pushedProjections. rewrite sort_length, length_app.
    pose proof (length_omap_le
                  (λ pt, paperResult clock (paperSeries clock db companyId (pt_id pt)) pt)
                  (getAllPaperTypes db companyId)).
    pose proof (length_omap_le (tonerResult clock (tonerSeries clock db companyId))
                  (getAllTonerInventory db companyId)).
    lia.
Qed.

Lemma projections_need_recent_jobs_witness :
  ∃ p, p ∈ getSupplyProjections sampleClock (paperDb 80) (Some "acme")
       ∧ paperJobs sampleClock (paperDb 80) (Some "acme") (p_id p) ≠ [].
Proof.
  eexists. split; [vm_compute; apply list_elem_of_here|].
  refine (proj1 (projections_need_recent_jobs sampleClock (paperDb 80) (Some "acme"))
            _ _ _).
  - vm_compute. apply list_elem_of_here.
  - reflexivity.
Defined.

(** ** Trend estimator on exact data *)

Lemma Qsum_plus n f g : (Qsum n (λ i, f i + g i) == Qsum n f + Qsum n g)%Q.
Proof. induction n as [|n IH]; simpl; [ring|]. rewrite IH. ring. Qed.

Lemma Qsum_scale n c f : (Qsum n (λ i, c * f i) == c * Qsum n f)%Q.
Proof. induction n as [|n IH]; simpl; [ring|]. rewrite IH. ring. Qed.

Lemma Qsum_const n a : (Qsum n (λ _, a) == Qnat n * a)%Q.
Proof.
  induction n as [|n IH].
  - simpl. unfold Qnat. simpl. ring.
  - cbn [Qsum]. rewrite IH, Qnat_S. ring.
Qed.

(** X4. On data that lie on a line the estimator returns the slope of
    the line: if the i-th daily total is [a + b * i], the trend is [b]
    (so a constant series has trend 0). *)
Theorem calculateTrend_exact_on_lines (dataPoints : list DataPoint) (a b : Q) :
  (2 ≤ length dataPoints)%nat →
  (∀ i point, dataPoints !! i = Some point → (value point == a + b * Qnat i)%Q) →
  (calculateTrend dataPoints == b)%Q.
Proof.
  intros Hn Hline.
  set (d := {| dp_date := 0; value := 0 |}).
  rewrite (calculateTrend_sums d) by done.
  set (n := length dataPoints).
  assert (∀ i, (i < n)%nat → (value (nth i dataPoints d) == a + b * Qnat i)%Q) as Hnth.
  { intros i Hi. destruct (lookup_lt_is_Some_2 dataPoints i Hi) as [point Hpoint].
    rewrite (nth_lookup_Some _ _ d _ Hpoint). by apply Hline. }
  rewrite (Qsum_ext n (λ i, value (nth i dataPoints d)) (λ i, a + b * Qnat i)%Q) by done.
  rewrite (Qsum_ext n (λ i, Qnat i * value (nth i dataPoints d))%Q
                      (λ i, a * Qnat i + b * (Qnat i * Qnat i))%Q).
  2:{ intros i Hi. rewrite Hnth by done. ring. }
  rewrite !Qsum_plus, !Qsum_scale, Qsum_const.
  pose proof (ols_denominator_pos n Hn) as Hpos.
  unfold ols_denominator in *.
  field. lra.
Qed.

Lemma calculateTrend_exact_on_lines_witness :
  (calculateTrend [ {| dp_date := 0; value := 1 |};
                    {| dp_date := 1; value := 3 |};
                    {| dp_date := 2; value := 5 |} ] == 2)%Q.
Proof.
  apply (calculateTrend_exact_on_lines _ 1 2).
  - simpl. lia.
  - intros [|[|[|i]]] point [= <-]; reflexivity.
Defined.

(** ** Confidence and single-day series *)

Lemma reduce_from_total {A} (g : A → Q) l i acc :
  (reduce_from (λ sum x (_ : nat), sum + g x) i acc l == acc + Qtotal (g <$> l))%Q.
Proof.
  revert i acc. induction l as [|x l IH]; intros i acc.
  - simpl. ring.
  - cbn [reduce_from]. rewrite fmap_cons. cbn [Qtotal]. rewrite IH. ring.
Qed.

Lemma Qtotal_const (v : Q) l :
  Forall (λ x, x == v)%Q l → (Qtotal l == Qnat (length l) * v)%Q.
Proof.
  induction 1 as [|x l Hx _ IH].
  - simpl. unfold Qnat. simpl. ring.
  - cbn [Qtotal length]. rewrite IH, Hx, Qnat_S. ring.
Qed.

Lemma Qtotal_zero l : Forall (λ x, x == 0)%Q l → (Qtotal l == 0)%Q.
Proof. intros Hl. rewrite (Qtotal_const 0) by done. ring. Qed.

Lemma Qnat_pos n : (0 < n)%nat → (0 < Qnat n)%Q.
Proof. intros Hn. unfold Qnat. change 0%Q with (inject_Z 0). rewrite <- Zlt_Qlt. lia. Qed.

Lemma constant_mean_variance (v : Q) totals :
  totals ≠ [] → Forall (λ x, x == v)%Q totals →
  let mean := (reduce (λ a b _, a + b) 0 totals / Qnat (length totals))%Q in
  (mean == v)%Q
  ∧ (reduce (λ sum value _, sum + (value - mean) ^ 2) 0 totals / Qnat (length totals)
     == 0)%Q.
Proof.
  intros Hne Hall mean.
  assert (0 < Qnat (length totals))%Q as Hn.
  { apply Qnat_pos. destruct totals; [done|simpl; lia]. }
  assert (mean == v)%Q as Hmean.
  { unfold mean, reduce. rewrite (reduce_from_total (λ x, x)), list_fmap_id.
    rewrite (Qtotal_const v) by done. field. lra. }
  split; [done|].
  unfold reduce. rewrite (reduce_from_total (λ x, (x - mean) ^ 2)%Q).
  rewrite Qtotal_zero.
  - field. lra.
  - apply Forall_fmap. eapply Forall_impl; [exact Hall|].
    intros x Hx. simpl in Hx |- *. rewrite Hx, Hmean.
    change ((v - v) ^ 2)%Q with ((v - v) * (v - v))%Q. ring.
Qed.

(** X5. A series whose daily totals are all equal has variance 0: its
    confidence is high when the common total is positive and low when it
    is zero or negative; it is never medium. *)
Theorem confidence_of_constant_series (v : Q) (totals : list Q) :
  totals ≠ [] → Forall (λ x, x == v)%Q totals →
  ((0 < v)%Q → confidenceOf totals = high)
  ∧ ((v <= 0)%Q → confidenceOf totals = low).
Proof.
  intros Hne Hall.
  destruct (constant_mean_variance v totals Hne Hall) as [Hmean Hvar].
  unfold confidenceOf. cbv zeta in Hmean, Hvar |- *.
  set (mean := (reduce (λ a b _, a + b) 0 totals / Qnat (length totals))%Q) in *.
  set (variance := (reduce (λ sum value _, sum + (value - mean) ^ 2) 0 totals
                    / Qnat (length totals))%Q) in *.
  split; intros Hv.
  - assert (Qltb variance (mean * 0.5) = true) as ->; [|done].
    apply Qltb_lt. rewrite Hvar, Hmean. lra.
  - destruct (Qltb variance (mean * 0.5)) eqn:H1.
    { apply Qltb_lt in H1. rewrite Hvar, Hmean in H1. lra. }
    destruct (Qltb variance (mean * 1.0)) eqn:H2; [|done].
    apply Qltb_lt in H2. rewrite Hvar, Hmean in H2. lra.
Qed.

Lemma confidence_of_constant_series_witness :
  confidenceOf (dailyTotals weekSeries) = high.
Proof.
  apply (proj1 (confidence_of_constant_series 10 (dailyTotals weekSeries)
                  ltac:(discriminate)
                  ltac:(repeat constructor))).
  reflexivity.
Defined.

Lemma confidence_of_constant_series_aux (v : Q) (totals : list Q) :
  totals = [v] →
  ((0 < v)%Q → confidenceOf totals = high).
Proof.
  intros -> Hv.
  destruct (constant_mean_variance v [v]) as [Hmean Hvar]; [done|by constructor|].
  unfold confidenceOf. cbv zeta in Hmean, Hvar |- *.
  set (mean := (reduce (λ a b _, a + b) 0 [v] / Qnat (length [v]))%Q) in *.
  set (variance := (reduce (λ sum value _, sum + (value - mean) ^ 2) 0 [v]
                    / Qnat (length [v]))%Q) in *.
  assert (Qltb variance (mean * 0.5) = true) as ->; [|done].
  apply Qltb_lt. rewrite Hvar, Hmean. lra.
Qed.

Lemma predictedOf_single e :
  (predictedOf [e] == Qmax (inject_Z (pages e) * 1.1) 0)%Q.
Proof.
  unfold predictedOf, calculatePredictiveConsumption, calculateTrend, dailyTotals,
    slice_neg, reduce. simpl.
  apply Q.max_compat; [|reflexivity].
  unfold Qnat. simpl. field.
Qed.

Lemma single_day_projection clock e :
  (0 < pages e →
     (0 < predictedOf [e])%Q ∧ confidenceOf (dailyTotals [e]) = high)
  ∧ (pages e ≤ 0 →
       ∀ paperType toner,
         paperProjection clock paperType [e] = None
         ∧ tonerProjection clock toner [e] = None).
Proof.
  pose proof (predictedOf_single e) as Hpred. split.
  - intros Hpos. split.
    + rewrite Hpred. apply Q.max_lt_iff. left.
      assert (0 < inject_Z (pages e))%Q
        by (change 0%Q with (inject_Z 0); by rewrite <- Zlt_Qlt).
      lra.
    + apply (confidence_of_constant_series_aux (inject_Z (pages e))); [done|].
      change 0%Q with (inject_Z 0). by rewrite <- Zlt_Qlt.
  - intros Hle paperType toner.
    assert (¬ (0 < predictedOf [e])%Q) as Hp.
    { rewrite Hpred. intros [H|H]%Q.max_lt_iff; [|lra].
      assert (inject_Z (pages e) <= 0)%Q
        by (change 0%Q with (inject_Z 0); by rewrite <- Zle_Qle).
      lra. }
    split.
    + destruct (paperProjection clock paperType [e]) as [p|] eqn:Hsome; [|done].
      by apply paperProjection_Some in Hsome as [? _].
    + destruct (tonerProjection clock toner [e]) as [p|] eqn:Hsome; [|done].
      by apply tonerProjection_Some in Hsome as [? _].
Qed.

(** X6. One day of consumption is enough for a projection: with a single
    entry the trend is 0 and the prediction is 1.1 times that day's
    pages.  An iteration of either loop over such a series computes a
    projection exactly when the day's total is positive, with one data
    point and high confidence; it pushes it when the date of depletion
    is one a [Date] can hold, and throws a [RangeError] when it is not. *)
Theorem single_day_series clock paperType toner m acc e :
  (predictedOf [e] == Qmax (inject_Z (pages e) * 1.1) 0)%Q
  ∧ (m !! pt_id paperType = Some [e] →
       (0 < pages e →
          ∃ p, paperProjection clock paperType [e] = Some p
               ∧ dataPoints p = 1%nat ∧ (trend p == 0)%Q ∧ confidence p = high
               ∧ paperStep clock (m, acc) paperType
                 = if validTime (now clock + daysRemaining p * 24 * 60 * 60 * 1000)
                   then Returned (<[pt_id paperType := [e]]> m, acc ++ [p])
                   else Thrown "RangeError: Invalid time value")
       ∧ (pages e ≤ 0 →
            paperStep clock (m, acc) paperType
            = Returned (<[pt_id paperType := [e]]> m, acc)))
  ∧ (m !! "color" = Some [e] →
       (0 < pages e →
          ∃ p, tonerProjection clock toner [e] = Some p
               ∧ dataPoints p = 1%nat ∧ (trend p == 0)%Q ∧ confidence p = high
               ∧ tonerStep clock (m, acc) toner
                 = if validTime (now clock + daysRemaining p * 24 * 60 * 60 * 1000)
                   then Returned (<["color" := [e]]> m, acc ++ [p])
                   else Thrown "RangeError: Invalid time value")
       ∧ (pages e ≤ 0 →
            tonerStep clock (m, acc) toner = Returned (<["color" := [e]]> m, acc))).
Proof.
  destruct (single_day_projection clock e) as [Hpositive Hnone].
  split; [apply predictedOf_single|]. split.
  - intros Hm. apply getProperty_Own in Hm.
    unfold paperStep. cbn [fst snd]. rewrite Hm. cbn [length Nat.ltb Nat.leb sort foldr
      sort_insert].
    split.
    + intros Hpos. destruct (Hpositive Hpos) as [Hp Hconf].
      eexists. split; [apply paperProjection_Some; split; [exact Hp|reflexivity]|].
      cbn [dataPoints trend confidence daysRemaining]. repeat split; [done|].
      rewrite (proj2 (paperProjection_Some clock paperType [e] _) (conj Hp eq_refl)).
      unfold pushProjection, toISODate. cbn [daysRemaining].
      by destruct (validTime _).
    + intros Hle. by rewrite (proj1 (Hnone Hle paperType toner)).
  - intros Hm. unfold tonerStep. cbn [fst snd]. rewrite Hm.
    cbn [length Nat.ltb Nat.leb sort foldr sort_insert].
    split.
    + intros Hpos. destruct (Hpositive Hpos) as [Hp Hconf].
      eexists. split; [apply tonerProjection_Some; split; [exact Hp|reflexivity]|].
      cbn [dataPoints trend confidence daysRemaining]. repeat split; [done|].
      rewrite (proj2 (tonerProjection_Some clock toner [e] _) (conj Hp eq_refl)).
      unfold pushProjection, toISODate. cbn [daysRemaining].
      by destruct (validTime _).
    + intros Hle. by rewrite (proj2 (Hnone Hle paperType toner)).
Qed.

Lemma single_day_series_witness :
  ∃ p, dataPoints p = 1%nat ∧ confidence p = high
       ∧ paperStep sampleClock ({["P1" := sampleSeries]}, []) (samplePaper "acme" "P1" 80)
         = Returned ({["P1" := sampleSeries]}, [p]).
Proof.
  destruct (single_day_series sampleClock (samplePaper "acme" "P1" 80)
              (sampleToner "acme" "T1" "black" 2)
              ({["P1" := sampleSeries]} : gmap string (list Entry)) []
              {| date := 95 * msPerDay; pages := 10 |}) as (_ & Hpaper & _).
  destruct Hpaper as [Hpositive _]; [vm_compute; reflexivity|].
  destruct Hpositive as (p & Hsome & Hpoints & _ & Hconf & Hstep); [reflexivity|].
  exists p. split; [done|]. split; [done|].
  etransitivity; [exact Hstep|]. injection Hsome as <-. vm_compute. reflexivity.
Defined.

(** ** What an emitted projection says about the stock *)

Lemma projection_origin clock db companyId p :
  p ∈ getSupplyProjections clock db companyId →
  (∃ pt, pt ∈ getAllPaperTypes db companyId
         ∧ paperProjection clock pt (paperSeries clock db companyId (pt_id pt)) = Some p)
  ∨ (∃ tn, tn ∈ getAllTonerInventory db companyId
           ∧ tonerProjection clock tn (tonerSeries clock db companyId) = Some p).
Proof.
  intros Hp%elem_of_getSupplyProjections. revert Hp. unfold paperResult, tonerResult.
  intros [(pt & Hpt & Hp)|(tn & Htn & Hp)]; case_match; try done; eauto.
Qed.

Lemma floor_div_sign (s : Z) (predicted : Q) :
  (0 < predicted)%Q → (0 ≤ s ↔ 0 ≤ Qfloor (inject_Z s / predicted)).
Proof.
  intros Hpos.
  assert (0 < / predicted)%Q as Hinv by by apply Qinv_lt_0_compat.
  split.
  - intros Hs. rewrite <- (Qfloor_Z 0). apply Qfloor_resp_le.
    unfold Qdiv. apply Qmult_le_0_compat; [|lra].
    change 0%Q with (inject_Z 0). by rewrite <- Zle_Qle.
  - intros Hfloor. destruct (Z.le_gt_cases 0 s) as [|Hneg]; [done|].
    pose proof (Qfloor_le (inject_Z s / predicted)) as Hle.
    assert (inject_Z s < 0)%Q as Hs
      by (change 0%Q with (inject_Z 0); by rewrite <- Zlt_Qlt).
    assert (inject_Z s / predicted < 0)%Q as Hq.
    { apply Qlt_shift_div_r; lra. }
    assert (inject_Z (Qfloor (inject_Z s / predicted)) < inject_Z 0)%Q as Hlt
      by (change (inject_Z 0) with 0%Q; lra).
    rewrite <- Zlt_Qlt in Hlt. lia.
Qed.

Lemma floor_div_zero (predicted : Q) : Qfloor (inject_Z 0 / predicted) = 0.
Proof.
  rewrite <- (Qfloor_Z 0) at 2. apply Qfloor_comp. unfold Qdiv.
  change (inject_Z 0) with 0%Q. ring.
Qed.

(** The shape of every emitted projection: its type, and its days
    remaining as the floor of the available units over a positive
    prediction. *)
Lemma projection_shape clock db companyId p :
  p ∈ getSupplyProjections clock db companyId →
  ∃ (available : Z) (series : list Entry),
    (0 < predictedOf series)%Q
    ∧ daysRemaining p = Qfloor (inject_Z available / predictedOf series)
    ∧ status p = statusOf (daysRemaining p)
    ∧ estimatedDepletionDate p
      = dateKey (now clock + daysRemaining p * 24 * 60 * 60 * 1000)
    ∧ dailyConsumption p = round2 (predictedOf series)
    ∧ trend p = round2 (calculateTrend (dataPointsOf series))
    ∧ ((p_type p = "paper" ∧ available = currentStock p
        ∧ series = paperSeries clock db companyId (p_id p))
       ∨ (p_type p = "toner" ∧ series = tonerSeries clock db companyId
          ∧ ∃ perUnit, 0 < perUnit ∧ available = currentStock p * perUnit)).
Proof.
  intros [(pt & _ & Hp)|(tn & _ & Hp)]%projection_origin.
  - apply paperProjection_Some in Hp as [Hpos ->].
    exists (pt_stock pt), (paperSeries clock db companyId (pt_id pt)).
    cbn [daysRemaining status estimatedDepletionDate dailyConsumption trend p_type
         currentStock p_id].
    repeat split; try done. by left.
  - apply tonerProjection_Some in Hp as [Hpos ->].
    exists (tn_stock tn * estimatedPagesPerCartridge (tn_color tn)),
      (tonerSeries clock db companyId).
    cbn [daysRemaining status estimatedDepletionDate dailyConsumption trend p_type
         currentStock p_id].
    repeat split; try done. right. repeat split; try done.
    exists (estimatedPagesPerCartridge (tn_color tn)).
    split; [apply estimatedPagesPerCartridge_pos|done].
Qed.

Lemma statusAlertFor_depleted p :
  p_type p = "paper" ∨ p_type p = "toner" →
  daysRemaining p ≤ 0 →
  alertType (statusAlertFor p) = p_type p +:+ "_depleted"
  ∧ t_severity (statusAlertFor p) = "error".
Proof.
  intros Htype Hd. unfold statusAlertFor.
  destruct (Z.leb_spec (daysRemaining p) 0); [|lia].
  cbn [alertType t_severity]. by destruct Htype as [-> | ->].
Qed.

(** X7. The sign of the days remaining is the sign of the stock: a
    projection has [daysRemaining >= 0] exactly when its stock is not
    negative, and an empty stock gives 0 days, status critical and the
    depleted alert. *)
Theorem daysRemaining_sign clock db companyId p :
  p ∈ getSupplyProjections clock db companyId →
  (0 ≤ currentStock p ↔ 0 ≤ daysRemaining p)
  ∧ (currentStock p = 0 →
       daysRemaining p = 0 ∧ status p = critical
       ∧ alertType (statusAlertFor p) = p_type p +:+ "_depleted"
       ∧ t_severity (statusAlertFor p) = "error").
Proof.
  intros (available & series & Hpos & Hdays & Hstatus & _ & _ & _ & Hkind)%projection_shape.
  assert ((0 ≤ currentStock p ↔ 0 ≤ available)
          ∧ (currentStock p = 0 → available = 0)
          ∧ (p_type p = "paper" ∨ p_type p = "toner")) as (Hsign & Hzero & Htype).
  { destruct Hkind as [(? & -> & _)|(? & _ & perUnit & ? & ->)].
    - split; [done|]. split; [done|by left].
    - split; [nia|]. split; [intros ->; lia|by right]. }
  split.
  - rewrite Hsign, Hdays. by apply floor_div_sign.
  - intros Hempty. rewrite Hstatus.
    assert (daysRemaining p = 0) as Hd
      by (rewrite Hdays, (Hzero Hempty); apply floor_div_zero).
    rewrite Hd. split; [done|]. split; [done|].
    apply statusAlertFor_depleted; [done|lia].
Qed.

Lemma daysRemaining_sign_witness :
  ∃ p, p ∈ getSupplyProjections sampleClock (paperDb 0) (Some "acme")
       ∧ daysRemaining p = 0 ∧ status p = critical
       ∧ alertType (statusAlertFor p) = p_type p +:+ "_depleted"
       ∧ t_severity (statusAlertFor p) = "error".
Proof.
  eexists. split; [vm_compute; apply list_elem_of_here|].
  refine (proj2 (daysRemaining_sign sampleClock (paperDb 0) (Some "acme") _ _) _).
  - vm_compute. apply list_elem_of_here.
  - reflexivity.
Defined.

(** ** The date of depletion *)

(** X9. The estimated depletion date is today's calendar day plus the
    days remaining, whenever that instant is one a [Date] can hold
    (within 8.64e15 ms of the epoch). *)
Theorem depletion_date_is_today_plus_days clock db companyId p :
  p ∈ getSupplyProjections clock db companyId →
  Z.abs (now clock + daysRemaining p * 86400000) ≤ 8640000000000000 →
  estimatedDepletionDate p = dateKey (now clock) + daysRemaining p.
Proof.
  intros (available & series & _ & _ & _ & Hdate & _)%projection_shape _.
  rewrite Hdate. unfold dateKey.
  replace (daysRemaining p * 24 * 60 * 60 * 1000) with (daysRemaining p * 86400000) by lia.
  by rewrite Z.div_add.
Qed.

Lemma depletion_date_is_today_plus_days_witness :
  ∃ p, p ∈ getSupplyProjections sampleClock (paperDb 80) (Some "acme")
       ∧ estimatedDepletionDate p = 107.
Proof.
  eexists. split; [vm_compute; apply list_elem_of_here|].
  refine (depletion_date_is_today_plus_days sampleClock (paperDb 80) (Some "acme") _ _ _).
  - vm_compute. apply list_elem_of_here.
  - vm_compute. discriminate.
Defined.

(** X10. The alert a projection selects agrees with its status: normal
    selects none, caution and warning select the alert of that name with
    severity warning, and critical selects the critical or the depleted
    alert, the only ones of severity error. *)
Theorem status_and_alert_agree clock db companyId p :
  p ∈ getSupplyProjections clock db companyId →
  (status p = normal ↔ alertType (statusAlertFor p) = EmptyString)
  ∧ (status p = caution ↔ alertType (statusAlertFor p) = p_type p +:+ "_caution")
  ∧ (status p = warning ↔ alertType (statusAlertFor p) = p_type p +:+ "_warning")
  ∧ (status p = critical ↔
       alertType (statusAlertFor p) = p_type p +:+ "_critical"
       ∨ alertType (statusAlertFor p) = p_type p +:+ "_depleted")
  ∧ (status p = critical ↔ t_severity (statusAlertFor p) = "error")
  ∧ (status p = caution ∨ status p = warning ↔ t_severity (statusAlertFor p) = "warning").
Proof.
  intros (available & series & _ & _ & Hstatus & _ & _ & _ & Hkind)%projection_shape.
  assert (p_type p = "paper" ∨ p_type p = "toner") as Htype
    by (destruct Hkind as [(? & _)|(? & _)]; auto).
  rewrite Hstatus. unfold statusAlertFor, statusOf.
  destruct (Z.leb_spec (daysRemaining p) 0), (Z.leb_spec (daysRemaining p) 3),
    (Z.leb_spec (daysRemaining p) 7), (Z.leb_spec (daysRemaining p) 14);
    try lia; cbn [alertType t_severity];
    destruct Htype as [-> | ->]; simpl;
    repeat split; intros; try done; try discriminate; auto;
    try (by intuition discriminate).
Qed.

Lemma status_and_alert_agree_witness :
  ∃ p, p ∈ getSupplyProjections sampleClock (paperDb 80) (Some "acme")
       ∧ alertType (statusAlertFor p) = p_type p +:+ "_warning".
Proof.
  eexists. split; [vm_compute; apply list_elem_of_here|].
  refine (proj1 (proj1 (proj2 (proj2 (status_and_alert_agree sampleClock (paperDb 80)
                                        (Some "acme") _ _)))) _).
  - vm_compute. apply list_elem_of_here.
  - reflexivity.
Defined.

(** X11. A company's projections read nothing of other tenants and
    nothing older than the window: two databases that agree on the
    company's jobs since [ninetyDaysAgo], its paper types and its
    cartridges give the same projections. *)
Theorem projections_tenant_isolated clock db db' c :
  truthy c = true →
  filter (λ job, userCompanyId job = Some c ∧ ninetyDaysAgo clock ≤ printedAt job)
         (printJobs db)
  = filter (λ job, userCompanyId job = Some c ∧ ninetyDaysAgo clock ≤ printedAt job)
           (printJobs db') →
  filter (λ paperType, pt_companyId paperType = Some c) (paperTypes db)
  = filter (λ paperType, pt_companyId paperType = Some c) (paperTypes db') →
  filter (λ toner, tn_companyId toner = Some c) (tonerInventory db)
  = filter (λ toner, tn_companyId toner = Some c) (tonerInventory db') →
  getSupplyProjections clock db (Some c) = getSupplyProjections clock db' (Some c).
Proof.
  intros Htruthy Hjobs Hpaper Htoner.
  assert (∀ d, recentJobsOf clock d (Some c)
               = filter (λ job, userCompanyId job = Some c
                                ∧ ninetyDaysAgo clock ≤ printedAt job) (printJobs d))
    as Hrecent.
  { intros d. unfold recentJobsOf, getAllPrintJobs. rewrite list_filter_filter.
    apply list_filter_iff. intros job. split.
    - intros [Hrec Hnot]. split; [|done].
      destruct (decide (userCompanyId job = Some c)) as [|Hne]; [done|].
      exfalso. apply Hnot. split; [|done]. simpl. by rewrite Htruthy.
    - intros [Huc Hrec]. split; [done|]. by intros [_ Hne]. }
  unfold getSupplyProjections, supplyProjectionsBody, getAllPaperTypes,
    getAllTonerInventory.
  cbn [truthy_opt]. rewrite Htruthy, !Hrecent, Hjobs, Hpaper, Htoner. done.
Qed.

Lemma projections_tenant_isolated_witness :
  getSupplyProjections sampleClock twoCompanyDb (Some "acme")
  = getSupplyProjections sampleClock (paperDb 80) (Some "acme").
Proof.
  apply projections_tenant_isolated; reflexivity.
Defined.

(** ** Passes that write nothing *)

Lemma forEach_noop {A} (body : A → IO unit) l s :
  (∀ x, x ∈ l → body x s = (Returned tt, s)) →
  forEach body l s = (Returned tt, s).
Proof.
  induction l as [|x l IH]; intros Hbody; [done|].
  cbn [forEach]. unfold bind. rewrite Hbody by left.
  apply IH. intros y Hy. apply Hbody. by right.
Qed.

Lemma statusStep_not_selected faults compId p s :
  14 < daysRemaining p → statusStep faults compId p s = (Returned tt, s).
Proof.
  intros Hd. unfold statusStep. by rewrite alertType_not_selected.
Qed.

Lemma forEach_sameTable {A} (body : A → IO unit) (quiet : A → Prop) l : ∀ s,
  (∀ x s0, x ∈ l →
           ∃ s1, body x s0 = (Returned tt, s1) ∧ sameTable s0 s1 ∧ (quiet x → s1 = s0)) →
  ∃ s', forEach body l s = (Returned tt, s') ∧ sameTable s s'
        ∧ ((∀ x, x ∈ l → quiet x) → s' = s).
Proof.
  induction l as [|x l IH]; intros s Hbody.
  - exists s. by repeat split.
  - destruct (Hbody x s) as (s1 & Hx & [Ha Hn] & Hquiet); [by left|].
    destruct (IH s1) as (s' & Hl & [Ha' Hn'] & Hquiet').
    { intros y s0 Hy. apply Hbody. by right. }
    exists s'. cbn [forEach]. unfold bind. rewrite Hx. split; [done|].
    split; [split; congruence|].
    intros Hall. rewrite Hquiet' by (intros y Hy; apply Hall; by right).
    apply Hquiet, Hall. by left.
Qed.

(** X12. When every projection checked by a pass has more than 14 days
    remaining and none is of low confidence within 30 days, the pass
    returns without writing to the alerts table, whatever the database
    would have rejected.  If moreover none of its calls of
    [getSupplyProjections] throws, nothing is logged and the store comes
    back as it was. *)
Theorem healthy_supplies_write_nothing faults clock db companyId s :
  (∀ compId p,
     compId ∈ companiesToCheck db companyId →
     p ∈ checkedProjections clock db companyId compId →
     14 < daysRemaining p ∧ ¬ (confidence p = low ∧ daysRemaining p ≤ 30)) →
  ∃ s', generateSupplyAlerts faults clock db companyId s = (Returned tt, s')
        ∧ alerts s' = alerts s ∧ nextAlertId s' = nextAlertId s
        ∧ ((∀ call, call ∈ projectionCalls db companyId → completes clock db call) →
           s' = s).
Proof.
  intros Hhealthy. unfold generateSupplyAlerts, tryCatch, bind at 1.
  destruct (awaitSupplyProjections_run clock db companyId s)
    as (s0 & -> & Ha0 & Hn0 & Hquiet0).
  destruct (forEach_sameTable
              (companyStep faults clock db companyId
                 (getSupplyProjections clock db companyId))
              (λ compId, truthy_opt companyId = false → completes clock db (Some compId))
              (companiesToCheck db companyId) s0)
    as (s' & -> & [Ha Hn] & Hquiet).
  { intros compId s1 Hcomp. unfold companyStep, bind at 1.
    assert (∃ s2, (if truthy_opt companyId
                   then ret (getSupplyProjections clock db companyId)
                   else awaitSupplyProjections clock db (Some compId)) s1
                  = (Returned (checkedProjections clock db companyId compId), s2)
                  ∧ sameTable s1 s2
                  ∧ ((truthy_opt companyId = false → completes clock db (Some compId))
                     → s2 = s1)) as (s2 & -> & Hsame & Hquiet).
    { unfold checkedProjections. destruct (truthy_opt companyId).
      - exists s1. by repeat split.
      - destruct (awaitSupplyProjections_run clock db (Some compId) s1)
          as (s2 & -> & ? & ? & Hq).
        exists s2. repeat split; try done. intros Hc. by apply Hq, Hc. }
    exists s2. split; [|done].
    unfold bind. rewrite forEach_noop.
    - apply forEach_noop. intros p [Hlow Hp]%list_elem_of_filter.
      by destruct (Hhealthy compId p Hcomp Hp) as [_ []].
    - intros p Hp. apply statusStep_not_selected.
      by destruct (Hhealthy compId p Hcomp Hp). }
  exists s'. split; [done|]. split; [congruence|]. split; [congruence|].
  intros Hcalls. rewrite Hquiet.
  - apply Hquiet0, Hcalls. unfold projectionCalls. by left.
  - intros compId Hcomp Hfalsy. apply Hcalls. unfold projectionCalls. right.
    rewrite Hfalsy. apply list_elem_of_fmap. exists compId. split; [done|].
    unfold companiesToCheck in Hcomp. rewrite Hfalsy in Hcomp.
    apply elem_of_app in Hcomp as [Hc|Hc]; [|done].
    destruct companyId as [c|]; [|by apply elem_of_nil in Hc].
    simpl in Hfalsy. rewrite Hfalsy in Hc. by apply elem_of_nil in Hc.
Qed.

Lemma healthy_supplies_write_nothing_witness :
  generateSupplyAlerts acmeInsertFails sampleClock (paperDb 1000) (Some "acme") storeAt10
  = (Returned tt, storeAt10).
Proof.
  destruct (healthy_supplies_write_nothing acmeInsertFails sampleClock (paperDb 1000)
              (Some "acme") storeAt10) as (s' & Hrun & _ & _ & Hquiet).
  - intros compId p _. vm_compute.
    intros [->|[]%elem_of_nil]%elem_of_cons.
    split; [reflexivity|]. intros [[=] _].
  - rewrite Hrun, Hquiet; [done|].
    intros call Hcall. vm_compute in Hcall.
    apply elem_of_cons in Hcall as [->|[]%elem_of_nil].
    apply (bool_decide_unpack _). vm_compute. exact I.
Defined.

(** ** The alert table only grows *)

Lemma sameButRead_refl a : sameButRead a a.
Proof. by split. Qed.

Lemma sameButRead_trans a b c : sameButRead a b → sameButRead b c → sameButRead a c.
Proof. intros [H1 H2] [H3 H4]. split; [congruence|auto]. Qed.

Lemma sameButRead_companyId a b : sameButRead a b → companyId b = companyId a.
Proof. intros [H _]. by apply (f_equal companyId) in H. Qed.

Lemma extendsAlerts_refl owners l : extendsAlerts owners l l.
Proof.
  exists l, []. rewrite app_nil_r. split; [done|]. split; [|constructor].
  apply Forall2_same_length_lookup. split; [done|].
  intros i a b Ha Hb. assert (a = b) as -> by congruence. apply sameButRead_refl.
Qed.

Lemma extendsAlerts_trans owners l1 l2 l3 :
  extendsAlerts owners l1 l2 → extendsAlerts owners l2 l3 → extendsAlerts owners l1 l3.
Proof.
  intros (kept1 & added1 & -> & Hkept1 & Hadd1) (kept2 & added2 & -> & Hkept2 & Hadd2).
  apply Forall2_app_inv_l in Hkept2 as (k2a & k2b & Hk2a & Hk2b & ->).
  exists k2a, (k2b ++ added2). split; [by rewrite app_assoc|]. split.
  - clear -Hkept1 Hk2a. revert k2a Hk2a.
    induction Hkept1 as [|a b l k Hab _ IH]; intros k2a Hk2a.
    + by apply Forall2_nil_inv_l in Hk2a as ->.
    + apply Forall2_cons_inv_l in Hk2a as (c & k' & Hbc & Hk' & ->).
      constructor; [by eapply sameButRead_trans|by apply IH].
  - apply Forall_app. split; [|done].
    clear -Hadd1 Hk2b. induction Hk2b as [|a b l k Hab _ IH]; [constructor|].
    apply Forall_cons in Hadd1 as [Ha Hl]. constructor; [|by apply IH].
    by rewrite (sameButRead_companyId a b).
Qed.

Lemma extendsAlerts_markRead owners l id :
  extendsAlerts owners l
    (map (λ alert, if bool_decide (a_id alert = id) then setRead alert else alert) l).
Proof.
  exists (map (λ alert, if bool_decide (a_id alert = id) then setRead alert else alert) l), [].
  rewrite app_nil_r. split; [done|]. split; [|constructor].
  induction l as [|a l IH]; simpl; constructor; [|done].
  case_bool_decide; [|apply sameButRead_refl]. by destruct a.
Qed.

Lemma extendsAlerts_append owners l row :
  companyId row ∈ owners → extendsAlerts owners l (l ++ [row]).
Proof.
  intros Hrow. exists l, [row]. split; [done|]. split; [|by repeat constructor].
  destruct (extendsAlerts_refl owners l) as (k & a & Heq & Hk & _).
  apply Forall2_same_length_lookup. split; [done|].
  intros i x y Hx Hy. assert (x = y) as -> by congruence. apply sameButRead_refl.
Qed.

Lemma keepsAlerts_ret {A} owners (a : A) : keepsAlerts owners (ret a).
Proof. intros s. apply extendsAlerts_refl. Qed.

Lemma keepsAlerts_bind {A B} owners (c : IO A) (k : A → IO B) :
  keepsAlerts owners c → (∀ a, keepsAlerts owners (k a)) → keepsAlerts owners (bind c k).
Proof.
  intros Hc Hk s. unfold bind. specialize (Hc s).
  destruct (c s) as [[a|e] s']; simpl in *; [|done].
  eapply extendsAlerts_trans; [exact Hc|apply Hk].
Qed.

Lemma keepsAlerts_forEach {A} owners (body : A → IO unit) l :
  (∀ x, x ∈ l → keepsAlerts owners (body x)) → keepsAlerts owners (forEach body l).
Proof.
  induction l as [|x l IH]; intros Hbody; cbn [forEach].
  - apply keepsAlerts_ret.
  - apply keepsAlerts_bind; [apply Hbody; by left|].
    intros _. apply IH. intros y Hy. apply Hbody. by right.
Qed.

Lemma keepsAlerts_tryCatch owners body handler :
  keepsAlerts owners body → (∀ e, keepsAlerts owners (handler e)) →
  keepsAlerts owners (tryCatch body handler).
Proof.
  intros Hbody Hhandler s. unfold tryCatch. specialize (Hbody s).
  destruct (body s) as [[a|e] s']; simpl in *; [done|].
  eapply extendsAlerts_trans; [exact Hbody|apply Hhandler].
Qed.

Lemma keepsAlerts_createAlert owners faults alert :
  i_companyId alert ∈ owners → keepsAlerts owners (createAlert faults alert).
Proof.
  intros Howner s. unfold createAlert.
  destruct (insertFails faults alert); simpl; [apply extendsAlerts_refl|].
  by apply extendsAlerts_append.
Qed.

Lemma keepsAlerts_markAlertRead owners faults id :
  keepsAlerts owners (markAlertRead faults id).
Proof.
  intros s. unfold markAlertRead.
  destruct (updateFails faults id); simpl; [apply extendsAlerts_refl|].
  apply extendsAlerts_markRead.
Qed.

Lemma keepsAlerts_statusStep owners faults compId p :
  compId ∈ owners → keepsAlerts owners (statusStep faults compId p).
Proof.
  intros Howner. unfold statusStep.
  destruct (truthy _); [|apply keepsAlerts_ret].
  apply keepsAlerts_bind; [intros s; apply extendsAlerts_refl|].
  intros existing. destruct (find _ existing) as [old|].
  - destruct (2 <=? _); [|apply keepsAlerts_ret].
    apply keepsAlerts_bind; [apply keepsAlerts_markAlertRead|]. intros _.
    apply keepsAlerts_bind; [by apply keepsAlerts_createAlert|].
    intros _. apply keepsAlerts_ret.
  - apply keepsAlerts_bind; [by apply keepsAlerts_createAlert|].
    intros _. apply keepsAlerts_ret.
Qed.

Lemma keepsAlerts_awaitSupplyProjections owners clock db companyId :
  keepsAlerts owners (awaitSupplyProjections clock db companyId).
Proof.
  intros s. destruct (awaitSupplyProjections_run clock db companyId s)
    as (s' & -> & Ha & _). simpl. rewrite Ha. apply extendsAlerts_refl.
Qed.

Lemma keepsAlerts_unreliableStep owners faults compId p :
  compId ∈ owners → keepsAlerts owners (unreliableStep faults compId p).
Proof.
  intros Howner. unfold unreliableStep.
  apply keepsAlerts_bind; [intros s; apply extendsAlerts_refl|].
  intros existing. destruct (find _ existing) as [old|]; [apply keepsAlerts_ret|].
  apply keepsAlerts_bind; [by apply keepsAlerts_createAlert|].
  intros _. apply keepsAlerts_ret.
Qed.

(** X13. A pass never deletes or rewrites an alert.  Every row that was
    in the table is still there, in place, with the same id, company,
    type, texts and resource, and read if it was read; the rows added
    come after them and belong to the companies the pass was run for.
    This holds whatever the database rejects. *)
Theorem alerts_only_grow faults clock db (requested : option string) s :
  ∃ kept added,
    alerts (generateSupplyAlerts faults clock db requested s).2 = kept ++ added
    ∧ Forall2 (λ before after,
                 a_id after = a_id before ∧ companyId after = companyId before
                 ∧ a_type after = a_type before ∧ title after = title before
                 ∧ message after = message before ∧ severity after = severity before
                 ∧ resourceId after = resourceId before
                 ∧ resourceType after = resourceType before
                 ∧ (read before = true → read after = true))
              (alerts s) kept
    ∧ Forall (λ alert, companyId alert ∈ companiesToCheck db requested) added.
Proof.
  assert (keepsAlerts (companiesToCheck db requested)
            (generateSupplyAlerts faults clock db requested)) as Hkeeps.
  { unfold generateSupplyAlerts. apply keepsAlerts_tryCatch.
    - apply keepsAlerts_bind; [apply keepsAlerts_awaitSupplyProjections|].
      intros projections.
      apply keepsAlerts_forEach. intros compId Hcomp. unfold companyStep.
      apply keepsAlerts_bind.
      { destruct (truthy_opt requested);
          [apply keepsAlerts_ret|apply keepsAlerts_awaitSupplyProjections]. }
      intros companyProjections. apply keepsAlerts_bind.
      + apply keepsAlerts_forEach. intros p _. by apply keepsAlerts_statusStep.
      + intros _. apply keepsAlerts_forEach. intros p _.
        by apply keepsAlerts_unreliableStep.
    - intros e s'. apply extendsAlerts_refl. }
  destruct (Hkeeps s) as (kept & added & Heq & Hkept & Hadded).
  exists kept, added. split; [done|]. split; [|done].
  eapply Forall2_impl; [exact Hkept|].
  intros a b [Hsame Hread]. destruct a, b. simpl in *. by injection Hsame as -> -> -> -> -> -> -> ->.
Qed.

(** ** Day counts written and read back *)

Lemma string_app_cons c (a b : string) : String c a +:+ b = String c (a +:+ b).
Proof. done. Qed.

Lemma string_app_assoc (a b c : string) : (a +:+ b) +:+ c = a +:+ (b +:+ c).
Proof. induction a as [|x a IH]; [done|]. by rewrite !string_app_cons, IH. Qed.

Lemma matchDia_cons c s :
  matchDia (String c s)
  = match matchHere (String c s) with
    | Some digits => Some digits
    | None => matchDia s
    end.
Proof. done. Qed.

Lemma matchHere_nondigit c s : isDigit c = false → matchHere (String c s) = None.
Proof. intros Hc. unfold matchHere. simpl. by rewrite Hc. Qed.

Lemma matchDia_skip a rest : noDigit a = true → matchDia (a +:+ rest) = matchDia rest.
Proof.
  induction a as [|c a IH]; [done|].
  intros [Hc Ha]%andb_true_iff. apply negb_true_iff in Hc.
  rewrite string_app_cons, matchDia_cons, matchHere_nondigit by done. by apply IH.
Qed.

Lemma spanDigits_all digits :
  allDigits digits = true → spanDigits digits = (digits, EmptyString).
Proof.
  induction digits as [|c digits IH]; [done|]. simpl.
  intros [-> Hd]%andb_true_iff. by rewrite IH.
Qed.

Lemma matchDia_digits_only digits : allDigits digits = true → matchDia digits = None.
Proof.
  induction digits as [|c digits IH]; [done|].
  intros Hd. rewrite matchDia_cons.
  assert (matchHere (String c digits) = None) as ->.
  { unfold matchHere. by rewrite spanDigits_all. }
  simpl in Hd. apply andb_true_iff in Hd as [_ Hd]. by apply IH.
Qed.

Lemma lacks_app c a b : lacks c (a +:+ b) = lacks c a && lacks c b.
Proof.
  induction a as [|d a IH]; [done|].
  rewrite string_app_cons. simpl. by rewrite IH, andb_assoc.
Qed.

Lemma allDigits_lacks c digits :
  isDigit c = false → allDigits digits = true → lacks c digits = true.
Proof.
  intros Hc. induction digits as [|d digits IH]; [done|]. simpl.
  intros [Hd Hds]%andb_true_iff. rewrite IH by done.
  case_bool_decide as Heq; [|done]. congruence.
Qed.

Lemma app_through t : ∀ a c rest after,
  a +:+ String c rest = t +:+ after → lacks c t = true → ∃ a', a = t +:+ a'.
Proof.
  induction t as [|d t IH]; intros a c rest after Heq Hlacks.
  - by exists a.
  - simpl in Hlacks. apply andb_true_iff in Hlacks as [Hd Ht].
    apply negb_true_iff, bool_decide_eq_false in Hd.
    rewrite string_app_cons in Heq.
    destruct a as [|x a].
    + change (EmptyString +:+ String c rest) with (String c rest) in Heq.
      by injection Heq as -> _.
    + rewrite string_app_cons in Heq.
      injection Heq as -> Heq. destruct (IH _ _ _ _ Heq Ht) as [a' ->].
      by exists a'.
Qed.

Lemma containsDayCount_cons c name :
  containsDayCount name → containsDayCount (String c name).
Proof.
  intros (before & digits & after & -> & ? & ?).
  by exists (String c before), digits, after.
Qed.

(** A name without a day count, closed by a character that is neither a
    digit nor part of [" día"], hides no match. *)
Lemma matchDia_skip_name name c rest :
  isDigit c = false → lacks c " día" = true → ¬ containsDayCount name →
  matchDia (name +:+ String c rest) = matchDia (String c rest).
Proof.
  intros Hc Hdia. induction name as [|x name IH]; intros Hname; [done|].
  rewrite string_app_cons, matchDia_cons.
  destruct (matchHere (String x (name +:+ String c rest))) as [digits|] eqn:Hhere.
  - exfalso. apply matchHere_Some in Hhere as (after & Heq & Hne & Hd).
    rewrite <- string_app_cons, <- string_app_assoc in Heq.
    apply app_through in Heq as [a' Ha'].
    + apply Hname. exists EmptyString, digits, a'.
      rewrite string_app_assoc in Ha'. by rewrite Ha'.
    + rewrite lacks_app, Hdia, andb_true_r. by apply allDigits_lacks.
  - apply IH. intros Hn. by apply Hname, containsDayCount_cons.
Qed.

(** [parseInt] after [pretty]. *)
Lemma pretty_N_go_app x : ∀ s, pretty_N_go x s = pretty_N_go x EmptyString +:+ s.
Proof.
  induction (N.lt_wf_0 x) as [x _ IH]; intros s.
  destruct (decide (x = 0)%N) as [->|Hx]; [by rewrite !pretty_N_go_0|].
  rewrite (pretty_N_go_step x s), (pretty_N_go_step x EmptyString) by lia.
  rewrite (IH (x `div` 10)%N) by (apply N.div_lt; lia).
  rewrite (IH (x `div` 10)%N ltac:(apply N.div_lt; lia) (String _ EmptyString)).
  by rewrite string_app_assoc.
Qed.

Lemma parseInt_from_app a b : ∀ acc,
  parseInt_from acc (a +:+ b) = parseInt_from (parseInt_from acc a) b.
Proof.
  induction a as [|c a IH]; intros acc; [done|].
  rewrite string_app_cons. simpl. apply IH.
Qed.

Lemma allDigits_app a b : allDigits (a +:+ b) = allDigits a && allDigits b.
Proof.
  induction a as [|c a IH]; [done|].
  rewrite string_app_cons. simpl. by rewrite IH, andb_assoc.
Qed.

Lemma pretty_N_char_digit d :
  (d < 10)%N →
  isDigit (pretty_N_char d) = true
  ∧ Z.of_nat (nat_of_ascii (pretty_N_char d)) - 48 = Z.of_N d.
Proof.
  intros Hd.
  assert (d = 0 ∨ d = 1 ∨ d = 2 ∨ d = 3 ∨ d = 4 ∨ d = 5 ∨ d = 6 ∨ d = 7 ∨ d = 8 ∨ d = 9)%N
    as Hcases by lia.
  repeat (destruct Hcases as [->|Hcases]; [by vm_compute|]). subst. by vm_compute.
Qed.

Lemma pretty_N_go_digits x :
  allDigits (pretty_N_go x EmptyString) = true
  ∧ parseInt (pretty_N_go x EmptyString) = Z.of_N x.
Proof.
  induction (N.lt_wf_0 x) as [x _ IH].
  destruct (decide (x = 0)%N) as [->|Hx]; [by rewrite pretty_N_go_0|].
  rewrite pretty_N_go_step, pretty_N_go_app by lia.
  destruct (IH (x `div` 10)%N) as [IH1 IH2]; [apply N.div_lt; lia|].
  destruct (pretty_N_char_digit (x `mod` 10)%N) as [Hc1 Hc2]; [by apply N.mod_lt|].
  split.
  - rewrite allDigits_app, IH1. simpl. by rewrite Hc1.
  - unfold parseInt in *. rewrite parseInt_from_app, IH2. simpl. rewrite Hc2.
    rewrite (N.div_mod x 10) at 3 by done. lia.
Qed.

Lemma pretty_nonneg_digits (d : Z) :
  0 ≤ d →
  allDigits (pretty d) = true ∧ parseInt (pretty d) = d ∧ pretty d ≠ EmptyString.
Proof.
  intros Hd. destruct d as [|q|q]; [done| |lia].
  change (pretty (Z.pos q)) with (pretty_N_go (N.pos q) EmptyString).
  destruct (pretty_N_go_digits (N.pos q)) as [H1 H2].
  split; [done|]. split; [done|].
  intros Hempty. rewrite Hempty in H2. done.
Qed.

Lemma matchDia_pretty (z : Z) : matchDia (pretty z) = None.
Proof.
  destruct z as [|q|q].
  - done.
  - apply matchDia_digits_only, (pretty_nonneg_digits (Z.pos q)). lia.
  - change (pretty (Z.neg q)) with ("-" +:+ pretty (Z.pos q)).
    rewrite matchDia_skip by done.
    apply matchDia_digits_only, (pretty_nonneg_digits (Z.pos q)). lia.
Qed.

Lemma quote_char : quote = String (ascii_of_nat 34) EmptyString.
Proof. done. Qed.

Lemma matchDia_skip_quoted_name name rest :
  ¬ containsDayCount name →
  matchDia (quote +:+ name +:+ quote +:+ rest) = matchDia rest.
Proof.
  intros Hname. rewrite quote_char, !string_app_cons.
  change (EmptyString +:+ name +:+ String (ascii_of_nat 34) (EmptyString +:+ rest))
    with (name +:+ String (ascii_of_nat 34) rest).
  rewrite matchDia_cons, matchHere_nondigit by done.
  rewrite matchDia_skip_name by done.
  by rewrite matchDia_cons, matchHere_nondigit.
Qed.

(** The text of a dated alert reads back as its day count. *)
Lemma dayMessage_parsedDays kind name (days : Z) tail :
  noDigit kind = true → ¬ containsDayCount name → 0 ≤ days →
  parsedDays (kind +:+ " " +:+ quote +:+ name +:+ quote +:+ " se agotará en "
              +:+ pretty days +:+ " día" +:+ tail)
  = days.
Proof.
  intros Hkind Hname Hdays.
  destruct (pretty_nonneg_digits days Hdays) as (Hdigits & Hparse & Hne).
  unfold parsedDays.
  rewrite (matchDia_skip kind), (matchDia_skip " ") by done.
  rewrite matchDia_skip_quoted_name by done.
  rewrite (matchDia_skip " se agotará en ") by done.
  by rewrite (matchDia_here _ (pretty days)) by by apply matchHere_run.
Qed.

(** The text of a depleted alert holds no day count. *)
Lemma depletedMessage_matchDia kind name (stock : Z) :
  noDigit kind = true → ¬ containsDayCount name →
  matchDia ("El " +:+ kind +:+ " " +:+ quote +:+ name +:+ quote
            +:+ " se ha agotado. Stock actual: " +:+ pretty stock)
  = None.
Proof.
  intros Hkind Hname.
  rewrite (matchDia_skip "El "), (matchDia_skip kind), (matchDia_skip " ") by done.
  rewrite matchDia_skip_quoted_name by done.
  rewrite (matchDia_skip " se ha agotado. Stock actual: ") by done.
  apply matchDia_pretty.
Qed.

Lemma statusMessage_parsedDays p :
  ¬ containsDayCount (p_name p) →
  (1 ≤ daysRemaining p ≤ 14 →
     parsedDays (t_message (statusAlertFor p)) = daysRemaining p)
  ∧ (daysRemaining p ≤ 0 →
       matchDia (t_message (statusAlertFor p)) = None
       ∧ parsedDays (t_message (statusAlertFor p)) = 0).
Proof.
  intros Hname. unfold statusAlertFor.
  destruct (Z.leb_spec (daysRemaining p) 0) as [H0|H0].
  - split; [lia|]. intros _. cbn [t_message].
    assert (matchDia
              ("El " +:+ (if bool_decide (p_type p = "paper")
                          then "tipo de papel" else "cartucho de tóner")
               +:+ " " +:+ quote +:+ p_name p +:+ quote
               +:+ " se ha agotado. Stock actual: " +:+ pretty (currentStock p)) = None)
      as Hnone.
    { apply depletedMessage_matchDia; [|done]. by case_bool_decide. }
    split; [done|]. unfold parsedDays. by rewrite Hnone.
  - split; [|lia]. intros [_ H14].
    assert (noDigit (if bool_decide (p_type p = "paper")
                     then "Tipo de papel" else "Cartucho de tóner") = true) as Hkind
      by by case_bool_decide.
    destruct (Z.leb_spec (daysRemaining p) 3);
      [|destruct (Z.leb_spec (daysRemaining p) 7);
        [|destruct (Z.leb_spec (daysRemaining p) 14); [|lia]]];
      cbn [t_message].
    + exact (dayMessage_parsedDays _ (p_name p) (daysRemaining p)
               ("(s). Stock actual: " +:+ pretty (currentStock p)
                +:+ ". Consumo diario: " +:+ showHundredths (dailyConsumption p))
               Hkind Hname ltac:(lia)).
    + exact (dayMessage_parsedDays _ (p_name p) (daysRemaining p)
               ("(s). Stock actual: " +:+ pretty (currentStock p))
               Hkind Hname ltac:(lia)).
    + exact (dayMessage_parsedDays _ (p_name p) (daysRemaining p)
               "(s). Considere reabastecer."
               Hkind Hname ltac:(lia)).
Qed.

(** X14. What the engine writes it reads back: for a resource whose name
    holds no day count of its own, the message of a critical, warning or
    caution alert parses to the days remaining it was written for, and
    the message of a depleted alert holds no day count and parses to 0. *)
Theorem alert_message_round_trip p :
  ¬ containsDayCount (p_name p) →
  (1 ≤ daysRemaining p ≤ 14 →
     parsedDays (t_message (statusAlertFor p)) = daysRemaining p)
  ∧ (daysRemaining p ≤ 0 →
       ¬ containsDayCount (t_message (statusAlertFor p))
       ∧ parsedDays (t_message (statusAlertFor p)) = 0).
Proof.
  intros Hname. destruct (statusMessage_parsedDays p Hname) as [Hdated Hdepleted].
  split; [done|]. intros Hd. destruct (Hdepleted Hd) as [Hnone Hzero].
  split; [|done]. rewrite <- matchDia_is_Some, Hnone. by intros [? ?].
Qed.

Lemma alert_message_round_trip_witness :
  ∃ p, p ∈ getSupplyProjections sampleClock (paperDb 115) (Some "acme")
       ∧ parsedDays (t_message (statusAlertFor p)) = 10.
Proof.
  eexists. split; [vm_compute; apply list_elem_of_here|].
  refine (proj1 (alert_message_round_trip _ _) _).
  - rewrite <- matchDia_is_Some. vm_compute. intros [digits Hdigits]. discriminate.
  - vm_compute. split; discriminate.
Defined.

(** ** Repeated passes *)

Lemma find_app_None {A} (P : A → Prop) `{∀ x, Decision (P x)} (l k : list A) :
  find P l = None → find P (l ++ k) = find P k.
Proof.
  unfold find. intros Hnone.
  destruct (list_find P l) as [[i x]|] eqn:Hl; [done|].
  rewrite list_find_app_r by done.
  by destruct (list_find P k) as [[j y]|].
Qed.

Lemma find_singleton {A} (P : A → Prop) `{∀ x, Decision (P x)} (x : A) :
  P x → find P [x] = Some x.
Proof. intros HP. unfold find. simpl. by rewrite decide_True. Qed.

Lemma createAlert_returned faults alert s row s1 :
  createAlert faults alert s = (Returned row, s1) →
  insertFails faults alert = false
  ∧ row = insertedRow s alert
  ∧ s1 = {| alerts := alerts s ++ [insertedRow s alert];
            nextAlertId := N.succ (nextAlertId s);
            console := console s |}.
Proof.
  unfold createAlert. destruct (insertFails faults alert); [done|].
  by intros [= <- <-].
Qed.

Lemma createAlert_thrown faults alert s e s1 :
  createAlert faults alert s = (Thrown e, s1) → insertFails faults alert = true ∧ s1 = s.
Proof.
  unfold createAlert. destruct (insertFails faults alert); [|done].
  by intros [= _ <-].
Qed.

Lemma companyAlerts_insert compId s alert :
  i_companyId alert = compId →
  companyAlerts compId {| alerts := alerts s ++ [insertedRow s alert];
                          nextAlertId := N.succ (nextAlertId s);
                          console := console s |}
  = companyAlerts compId s ++ [insertedRow s alert].
Proof.
  intros Hcomp. unfold companyAlerts. simpl.
  rewrite filter_app. f_equal.
  rewrite filter_cons, decide_True by done. done.
Qed.

(** X15. An alert just created keeps the next pass quiet: when a
    projection found no similar unread alert and its alert was stored,
    checking the same projection again writes nothing, provided the
    resource's name holds no day count and at least -1 days remain.
    With -2 days or fewer (a negative stock) the depleted alert, whose
    text holds no day count, is replaced on every pass. *)
Theorem fresh_alert_suppresses_repeat faults compId p s s1 :
  daysRemaining p ≤ 14 →
  ¬ containsDayCount (p_name p) →
  find (similarStatusAlert (statusAlertFor p) p) (companyAlerts compId s) = None →
  statusStep faults compId p s = (Returned tt, s1) →
  alerts s1 = alerts s ++ [insertedRow s (statusInsert compId (statusAlertFor p) p)]
  ∧ (-1 ≤ daysRemaining p → statusStep faults compId p s1 = (Returned tt, s1))
  ∧ (daysRemaining p ≤ -2 →
       statusStep faults compId p s1
       = (exec markAlertRead faults ("alert-" +:+ pretty (nextAlertId s)) ;;
          exec createAlert faults (statusInsert compId (statusAlertFor p) p) ;;
          ret tt) s1).
Proof.
  intros Hd Hname Hnone Hfirst.
  rewrite statusStep_selected, Hnone in Hfirst by done.
  unfold bind in Hfirst.
  destruct (createAlert faults _ s) as [[row|e] s'] eqn:Hcreate; [|done].
  injection Hfirst as ->.
  apply createAlert_returned in Hcreate as (_ & -> & ->).
  split; [done|].
  set (new := statusInsert compId (statusAlertFor p) p) in *.
  set (s1 := {| alerts := alerts s ++ [insertedRow s new];
                nextAlertId := N.succ (nextAlertId s); console := console s |}).
  assert (find (similarStatusAlert (statusAlertFor p) p) (companyAlerts compId s1)
          = Some (insertedRow s new)) as Hfound.
  { unfold s1. rewrite companyAlerts_insert by done.
    rewrite find_app_None by done. by apply find_singleton. }
  destruct (statusMessage_parsedDays p Hname) as [Hdated Hdepleted].
  assert (message (insertedRow s new) = t_message (statusAlertFor p)) as Hmsg by done.
  split; intros Hrange; rewrite statusStep_selected, Hfound, Hmsg by done.
  - destruct (Z.le_gt_cases (daysRemaining p) 0) as [Hle|Hgt].
    + destruct (Hdepleted Hle) as [_ ->].
      destruct (Z.leb_spec 2 (Z.abs (daysRemaining p - 0))); [lia|done].
    + rewrite Hdated by lia.
      destruct (Z.leb_spec 2 (Z.abs (daysRemaining p - daysRemaining p))); [lia|done].
  - destruct (Hdepleted ltac:(lia)) as [_ ->].
    destruct (Z.leb_spec 2 (Z.abs (daysRemaining p - 0))); [done|lia].
Qed.

Lemma fresh_alert_suppresses_repeat_witness :
  ∃ p, p ∈ getSupplyProjections sampleClock (paperDb 115) (Some "acme")
       ∧ statusStep noFaults "acme" p storeAt10 = (Returned tt, storeAt10).
Proof.
  eexists. split; [vm_compute; apply list_elem_of_here|].
  refine (proj1 (proj2 (fresh_alert_suppresses_repeat noFaults "acme" _ emptyStore
                          storeAt10 _ _ _ _)) _).
  - vm_compute. discriminate.
  - rewrite <- matchDia_is_Some. vm_compute. intros [digits Hdigits]. discriminate.
  - reflexivity.
  - vm_compute. reflexivity.
  - vm_compute. discriminate.
Defined.

(** X16. The unreliable-projection alert is raised once: after a check
    that returned, checking the same projection again writes nothing;
    and a check that threw left the store as it was. *)
Theorem unreliable_alert_not_repeated faults compId p s :
  (∀ s1, unreliableStep faults compId p s = (Returned tt, s1) →
         unreliableStep faults compId p s1 = (Returned tt, s1))
  ∧ (∀ e s1, unreliableStep faults compId p s = (Thrown e, s1) → s1 = s).
Proof.
  assert (∀ s', unreliableStep faults compId p s'
                = match find (similarUnreliableAlert p) (companyAlerts compId s') with
                  | None => (exec createAlert faults (unreliableInsert compId p) ;; ret tt) s'
                  | Some _ => (Returned tt, s')
                  end) as Hstep.
  { intros s'. unfold unreliableStep, bind at 1, getAllAlerts.
    fold (companyAlerts compId s'). by destruct (find _ _). }
  split.
  - intros s1. rewrite Hstep.
    destruct (find _ (companyAlerts compId s)) as [old|] eqn:Hfind.
    + intros [= <-]. by rewrite Hstep, Hfind.
    + unfold bind.
      destruct (createAlert faults _ s) as [[row|e] s'] eqn:Hcreate; [|done].
      intros [= ->]. apply createAlert_returned in Hcreate as (_ & -> & ->).
      rewrite Hstep, companyAlerts_insert by done.
      rewrite find_app_None by done. by rewrite find_singleton.
  - intros e s1. rewrite Hstep.
    destruct (find _ (companyAlerts compId s)) as [old|]; [done|].
    unfold bind.
    destruct (createAlert faults _ s) as [[row|e'] s'] eqn:Hcreate; [done|].
    intros [= _ <-]. by apply createAlert_thrown in Hcreate as [_ ->].
Qed.

Lemma unreliable_alert_not_repeated_witness :
  ∃ p, p ∈ getSupplyProjections sampleClock erraticDb (Some "acme")
       ∧ unreliableStep noFaults "acme" p storeUnreliable = (Returned tt, storeUnreliable).
Proof.
  eexists. split; [vm_compute; apply list_elem_of_here|].
  refine (proj1 (unreliable_alert_not_repeated noFaults "acme" _ emptyStore) _ _).
  vm_compute. reflexivity.
Defined.

(** X17. Replacing an alert is not atomic: when the similar alert is at
    least 2 days away, marking it read succeeds and the insert of its
    replacement is rejected, the step throws with the old alert already
    read and no new row, so the resource is left without an unread alert
    of that type. *)
Theorem failed_replacement_leaves_alert_read faults compId p s old :
  daysRemaining p ≤ 14 →
  find (similarStatusAlert (statusAlertFor p) p) (companyAlerts compId s) = Some old →
  2 ≤ Z.abs (daysRemaining p - parsedDays (message old)) →
  updateFails faults (a_id old) = false →
  insertFails faults (statusInsert compId (statusAlertFor p) p) = true →
  statusStep faults compId p s
  = (Thrown "insert into alerts failed",
     {| alerts := markedRead (a_id old) (alerts s);
        nextAlertId := nextAlertId s;
        console := console s |})
  ∧ setRead old ∈ markedRead (a_id old) (alerts s)
  ∧ ∀ alert, alert ∈ markedRead (a_id old) (alerts s) →
             a_id alert = a_id old → read alert = true.
Proof.
  intros Hd Hfound Hdiff Hupdate Hinsert.
  split; [|split].
  - rewrite statusStep_selected, Hfound by done.
    destruct (Z.leb_spec 2 (Z.abs (daysRemaining p - parsedDays (message old)))); [|lia].
    unfold bind, markAlertRead, createAlert. rewrite Hupdate. simpl.
    by rewrite Hinsert.
  - apply find_Some_holds in Hfound as [Hin _].
    unfold companyAlerts in Hin. apply list_elem_of_filter in Hin as [_ Hin].
    unfold markedRead. apply list_elem_of_fmap. exists old.
    by rewrite bool_decide_true.
  - unfold markedRead. intros alert (a & -> & Ha)%list_elem_of_fmap.
    case_bool_decide; [done|]. by destruct a.
Qed.

Lemma failed_replacement_leaves_alert_read_witness :
  ∃ p, p ∈ getSupplyProjections sampleClock (paperDb 135) (Some "acme")
       ∧ (statusStep insertsFail "acme" p storeAt10).1
         = Thrown "insert into alerts failed".
Proof.
  eexists. split; [vm_compute; apply list_elem_of_here|].
  match goal with
  | |- (statusStep _ _ ?p _).1 = _ =>
      destruct (find (similarStatusAlert (statusAlertFor p) p)
                     (companyAlerts "acme" storeAt10)) as [old|] eqn:Hfound;
        [|vm_compute in Hfound; discriminate];
        destruct (failed_replacement_leaves_alert_read insertsFail "acme" p storeAt10 old)
          as [Hstep _]
  end.
  - vm_compute. discriminate.
  - exact Hfound.
  - vm_compute in Hfound. injection Hfound as <-. vm_compute. discriminate.
  - reflexivity.
  - reflexivity.
  - rewrite Hstep. reflexivity.
Defined.

(** ** Rankings of the dashboard *)

Lemma sort_ext {A} (cmp cmp' : A → A → Z) l :
  (∀ a b, cmp a b = cmp' a b) → sort cmp l = sort cmp' l.
Proof.
  intros Hext. induction l as [|x l IH]; [done|]. simpl. rewrite IH.
  generalize (sort cmp' l). intros k.
  induction k as [|y k IHk]; [done|]. simpl. by rewrite Hext, IHk.
Qed.

Lemma StronglySorted_app_elem {A} (R : A → A → Prop) l1 l2 :
  StronglySorted R (l1 ++ l2) →
  StronglySorted R l1 ∧ ∀ x1 x2, x1 ∈ l1 → x2 ∈ l2 → R x1 x2.
Proof.
  induction l1 as [|x l1 IH]; simpl; intros Hs.
  - split; [constructor|]. intros x1 x2 []%elem_of_nil.
  - apply StronglySorted_inv in Hs as [Hs Hx].
    destruct (IH Hs) as [IH1 IH2]. apply Forall_app in Hx as [Hx1 Hx2].
    split; [by constructor|].
    intros x1 x2 [->|Hin]%elem_of_cons Hx2'.
    + by eapply Forall_forall in Hx2.
    + by apply IH2.
Qed.

Lemma filter_nil_iff_aux {A} (P : A → Prop) `{∀ x, Decision (P x)} (l : list A) :
  filter P l = [] ↔ ∀ x, x ∈ l → ¬ P x.
Proof.
  induction l as [|x l IH]; [by split; [intros _ ? ?%elem_of_nil|]|].
  rewrite filter_cons. case_decide as HP.
  - split; [done|]. intros Hall. exfalso. by apply (Hall x); [left|].
  - rewrite IH. split.
    + intros Hall y [->|Hy]%elem_of_cons; [done|by apply Hall].
    + intros Hall y Hy. apply Hall. by right.
Qed.

Section ranking.
Context (keyOf nameOf : JobDetails → string).

Lemma tallyJob_keys acc job :
  (tallyJob keyOf nameOf acc job).*1
  = if decide (keyOf job ∈ acc.*1) then acc.*1 else acc.*1 ++ [keyOf job].
Proof.
  unfold tallyJob.
  destruct (list_find _ acc) as [[i [key existing]]|] eqn:Hfind.
  - apply list_find_Some in Hfind as (Hi & Hkey & _). simpl in Hkey. subst key.
    rewrite list_fmap_insert. simpl.
    rewrite list_insert_id by (by rewrite list_lookup_fmap, Hi).
    rewrite decide_True; [done|].
    apply list_elem_of_fmap. exists (keyOf job, existing).
    split; [done|]. by eapply list_elem_of_lookup_2.
  - apply list_find_None in Hfind. rewrite decide_False; [by rewrite fmap_app|].
    intros ([key d] & Hk & Hin)%list_elem_of_fmap.
    eapply Forall_forall in Hfind; [|exact Hin]. simpl in *. congruence.
Qed.

Lemma tallied_app key l k : tallied key (l ++ k) = tallied key l + tallied key k.
Proof. unfold tallied. by rewrite filter_app, fmap_app, Zsum_app. Qed.

Lemma tallied_cons key entry l :
  tallied key (entry :: l)
  = (if decide (entry.1 = key) then count entry.2 else 0) + tallied key l.
Proof.
  unfold tallied. rewrite filter_cons. by case_decide.
Qed.

Lemma tallyJob_count key acc job :
  tallied key (tallyJob keyOf nameOf acc job)
  = tallied key acc + (if decide (keyOf job = key) then 1 else 0).
Proof.
  unfold tallyJob.
  destruct (list_find _ acc) as [[i [k existing]]|] eqn:Hfind.
  - apply list_find_Some in Hfind as (Hi & Hkey & _). simpl in Hkey. subst k.
    rewrite insert_take_drop by (by eapply lookup_lt_Some).
    rewrite <- (take_drop_middle acc i _ Hi) at 3.
    rewrite !tallied_app, !tallied_cons. simpl.
    repeat case_decide; try done; lia.
  - rewrite tallied_app, tallied_cons. simpl.
    change (tallied key []) with 0. repeat case_decide; try done; lia.
Qed.

Lemma total_tallyJob acc job :
  Zsum ((count ∘ snd) <$> tallyJob keyOf nameOf acc job)
  = Zsum ((count ∘ snd) <$> acc) + 1.
Proof.
  unfold tallyJob.
  destruct (list_find _ acc) as [[i [k existing]]|] eqn:Hfind.
  - apply list_find_Some in Hfind as (Hi & _ & _).
    rewrite insert_take_drop by (by eapply lookup_lt_Some).
    rewrite <- (take_drop_middle acc i _ Hi) at 3.
    rewrite !fmap_app, !fmap_cons, !Zsum_app. unfold Zsum. simpl. lia.
  - rewrite fmap_app, Zsum_app. unfold Zsum. simpl. lia.
Qed.

Lemma tallyJob_names (all : list JobDetails) acc job :
  job ∈ all →
  Forall (λ entry, ∃ j, j ∈ all ∧ keyOf j = entry.1 ∧ nameOf j = tallyName entry.2) acc →
  Forall (λ entry, ∃ j, j ∈ all ∧ keyOf j = entry.1 ∧ nameOf j = tallyName entry.2)
         (tallyJob keyOf nameOf acc job).
Proof.
  intros Hjob Hacc. unfold tallyJob.
  destruct (list_find _ acc) as [[i [k existing]]|] eqn:Hfind.
  - apply list_find_Some in Hfind as (Hi & _ & _).
    apply Forall_insert; [done|].
    eapply Forall_lookup_1 in Hacc; [|exact Hi]. exact Hacc.
  - apply Forall_app. split; [done|]. repeat constructor. by exists job.
Qed.

Lemma fold_tally jobs (all : list JobDetails) : ∀ acc,
  jobs ⊆ all →
  NoDup acc.*1 →
  Forall (λ entry, ∃ j, j ∈ all ∧ keyOf j = entry.1 ∧ nameOf j = tallyName entry.2) acc →
  let result := foldl (tallyJob keyOf nameOf) acc jobs in
  NoDup result.*1
  ∧ (∀ key, key ∈ result.*1 ↔ key ∈ acc.*1 ∨ key ∈ keyOf <$> jobs)
  ∧ (∀ key, tallied key result = tallied key acc + Z.of_nat (length (jobsWith keyOf key jobs)))
  ∧ Zsum ((count ∘ snd) <$> result) = Zsum ((count ∘ snd) <$> acc) + Z.of_nat (length jobs)
  ∧ Forall (λ entry, ∃ j, j ∈ all ∧ keyOf j = entry.1 ∧ nameOf j = tallyName entry.2) result.
Proof.
  induction jobs as [|job jobs IH]; intros acc Hsub Hnd Hnames; cbn [foldl].
  - cbv zeta. split; [done|]. split; [|split; [|split]]; try done.
    + intros key. rewrite fmap_nil, elem_of_nil. tauto.
    + intros key. unfold jobsWith. simpl. lia.
    + simpl. lia.
  - destruct (IH (tallyJob keyOf nameOf acc job)) as (IH1 & IH2 & IH3 & IH4 & IH5).
    { intros j Hj. apply Hsub. by right. }
    { rewrite tallyJob_keys. case_decide; [done|].
      apply NoDup_app. split; [done|]. split; [|apply NoDup_singleton].
      by intros x Hx ->%list_elem_of_singleton. }
    { apply tallyJob_names; [|done]. apply Hsub. by left. }
    cbv zeta. split; [done|]. split; [|split; [|split]]; try done.
    + intros key. rewrite IH2, tallyJob_keys, fmap_cons, elem_of_cons.
      case_decide as Hin.
      * split; [tauto|]. intros [?|[->|?]]; auto.
      * rewrite elem_of_app, list_elem_of_singleton. tauto.
    + intros key. rewrite IH3, tallyJob_count. unfold jobsWith.
      rewrite filter_cons. repeat case_decide; try done; simpl; lia.
    + rewrite IH4, total_tallyJob. simpl. lia.
Qed.

Lemma tallied_NoDup key data acc :
  NoDup acc.*1 → (key, data) ∈ acc → tallied key acc = count data.
Proof.
  induction acc as [|[k d] acc IH]; intros Hnd Hin; [by apply elem_of_nil in Hin|].
  rewrite fmap_cons in Hnd. apply NoDup_cons in Hnd as [Hk Hnd].
  rewrite tallied_cons. simpl. apply elem_of_cons in Hin as [[= <- <-]|Hin].
  - rewrite decide_True by done.
    assert (tallied key acc = 0) as ->; [|lia].
    unfold tallied. rewrite (proj2 (filter_nil_iff_aux _ _)); [done|].
    intros [k' d'] Hin' Heq. simpl in Heq. subst k'.
    apply Hk, list_elem_of_fmap. by exists (key, d').
  - rewrite decide_False; [by rewrite IH|].
    intros ->. apply Hk, list_elem_of_fmap. by exists (key, data).
Qed.

End ranking.

Lemma StronglySorted_weaken {A} (R R' : A → A → Prop) l :
  (∀ a b, R a b → R' a b) → StronglySorted R l → StronglySorted R' l.
Proof.
  intros Himpl. induction 1 as [|x l _ IH Hx]; constructor; [done|].
  eapply Forall_impl; [exact Hx|]. intros y. apply Himpl.
Qed.

Lemma Zsum_nonneg l : Forall (λ x, 0 ≤ x) l → 0 ≤ Zsum l.
Proof. unfold Zsum. induction 1; simpl; lia. Qed.

(** What [topFive] returns, for any key and name. *)
Lemma topFive_facts keyOf nameOf (jobs : list JobDetails) :
  let top := topFive keyOf nameOf jobs in
  (length top ≤ 5)%nat
  ∧ StronglySorted (λ a b, jobCount b ≤ jobCount a) top
  ∧ NoDup (rankedId <$> top)
  ∧ (∀ e, e ∈ top →
          jobCount e = Z.of_nat (length (jobsWith keyOf (rankedId e) jobs))
          ∧ ∃ job, job ∈ jobs ∧ keyOf job = rankedId e ∧ nameOf job = rankedName e)
  ∧ (∀ job, job ∈ jobs → keyOf job ∉ rankedId <$> top →
            length top = 5%nat
            ∧ ∀ e, e ∈ top →
                   Z.of_nat (length (jobsWith keyOf (keyOf job) jobs)) ≤ jobCount e)
  ∧ Zsum (jobCount <$> top) ≤ Z.of_nat (length jobs)
  ∧ ((length (remove_dups (keyOf <$> jobs)) ≤ 5)%nat →
       Zsum (jobCount <$> top) = Z.of_nat (length jobs)).
Proof.
  intros top.
  set (acc := foldl (tallyJob keyOf nameOf) [] jobs).
  destruct (fold_tally keyOf nameOf jobs jobs [])
    as (Hnd & Hkeys & Hcount & Htotal & Hnames); [done|constructor|constructor|].
  fold acc in Hnd, Hkeys, Hcount, Htotal, Hnames.
  set (ranked := toRanked <$> acc).
  set (sorted := sort (by_key (λ e, - jobCount e)) ranked).
  assert (top = take 5 sorted) as Htop_eq.
  { unfold top, topFive. f_equal. apply sort_ext. intros a b. unfold by_key. lia. }
  clearbody top.
  assert (sorted ≡ₚ ranked) as Hperm by apply sort_perm.
  assert (ascending (λ e, - jobCount e) sorted) as Hasc by apply sort_ascending.
  assert (sorted = top ++ drop 5 sorted) as Hsplit by (rewrite Htop_eq; symmetry; apply take_drop).
  unfold ascending in Hasc. rewrite Hsplit in Hasc.
  apply StronglySorted_app_elem in Hasc as [Htop Hdom].
  assert (rankedId <$> ranked = acc.*1) as Hids.
  { unfold ranked. rewrite <- list_fmap_compose. done. }
  assert (∀ e, e ∈ ranked →
            jobCount e = Z.of_nat (length (jobsWith keyOf (rankedId e) jobs))
            ∧ ∃ job, job ∈ jobs ∧ keyOf job = rankedId e ∧ nameOf job = rankedName e)
    as Hranked.
  { intros e ([key data] & -> & Hin)%list_elem_of_fmap. simpl. split.
    - rewrite <- (tallied_NoDup key data acc Hnd Hin), Hcount.
      change (tallied key []) with 0. lia.
    - eapply Forall_forall in Hnames; [|exact Hin]. exact Hnames. }
  assert (∀ e, e ∈ top → e ∈ ranked) as Htop_ranked.
  { intros e He. rewrite <- Hperm. rewrite Htop_eq in He. by apply (subseteq_take 5). }
  assert (Zsum (jobCount <$> ranked) = Z.of_nat (length jobs)) as Hsum.
  { unfold ranked. rewrite <- list_fmap_compose.
    change (jobCount ∘ toRanked) with (count ∘ (snd : string * Tally → Tally)).
    rewrite Htotal. simpl. lia. }
  split; [rewrite Htop_eq, length_take; lia|].
  split; [eapply StronglySorted_weaken; [|exact Htop]; simpl; intros; lia|].
  split.
  { eapply sublist_NoDup; [|rewrite Htop_eq, fmap_take; apply sublist_take].
    rewrite Hperm, Hids. exact Hnd. }
  split; [intros e He; by apply Hranked, Htop_ranked|].
  split.
  { intros job Hjob Hout.
    assert (keyOf job ∈ acc.*1) as Hkey.
    { apply Hkeys. right. apply list_elem_of_fmap. by exists job. }
    apply list_elem_of_fmap in Hkey as ([key data] & Hk & Hin). simpl in Hk. subst key.
    assert (toRanked (keyOf job, data) ∈ sorted) as Hsorted.
    { rewrite Hperm. apply list_elem_of_fmap. by eexists. }
    rewrite Hsplit in Hsorted. apply elem_of_app in Hsorted as [Hin_top|Hin_drop].
    { exfalso. apply Hout, list_elem_of_fmap.
      exists (toRanked (keyOf job, data)). split; [done|exact Hin_top]. }
    split.
    - rewrite Htop_eq, length_take.
      assert (5 < length sorted)%nat; [|lia].
      destruct (decide (5 < length sorted)%nat) as [|Hshort]; [done|].
      rewrite drop_ge in Hin_drop by lia. by apply elem_of_nil in Hin_drop.
    - intros e He. specialize (Hdom e _ He Hin_drop). simpl in Hdom.
      destruct (Hranked (toRanked (keyOf job, data))) as [Hc _].
      { apply list_elem_of_fmap. by eexists. }
      simpl in Hc. lia. }
  assert (Zsum (jobCount <$> sorted) = Z.of_nat (length jobs)) as Hsum_sorted.
  { rewrite <- Hsum. apply Zsum_perm. by rewrite Hperm. }
  split.
  - rewrite Hsplit, fmap_app, Zsum_app in Hsum_sorted.
    assert (0 ≤ Zsum (jobCount <$> drop 5 sorted)); [|lia].
    apply Zsum_nonneg, Forall_fmap, Forall_forall. intros e He. simpl.
    assert (e ∈ ranked) as Her.
    { rewrite <- Hperm, Hsplit. apply elem_of_app. by right. }
    destruct (Hranked e Her) as [-> _]. lia.
  - intros Hfew.
    assert (length sorted = length (remove_dups (keyOf <$> jobs))) as Hlen.
    { rewrite Hperm. unfold ranked. rewrite length_fmap, <- (length_fmap fst).
      apply Permutation_length, NoDup_Permutation; [done|apply NoDup_remove_dups|].
      intros key. rewrite elem_of_remove_dups, Hkeys, elem_of_nil. tauto. }
    rewrite Htop_eq, take_ge by lia. done.
Qed.

(** X18. [topUsers] and [topPrinters] are true top-five lists: at most
    five entries, in descending order of job count, no user or printer
    twice, each with the exact number of its jobs among the listed jobs
    and a name taken from one of them; and whoever is left out has no
    more jobs than anyone listed, which happens only when five are
    listed. *)
Theorem dashboard_top_five clock firstDayOfMonth db companyId :
  let stats := getDashboardStats clock firstDayOfMonth db companyId in
  let jobs := getAllJobDetails db companyId in
  ((length (topUsers stats) ≤ 5)%nat
   ∧ StronglySorted (λ a b, jobCount b ≤ jobCount a) (topUsers stats)
   ∧ NoDup (rankedId <$> topUsers stats)
   ∧ (∀ e, e ∈ topUsers stats →
           jobCount e = Z.of_nat (length (jobsWith userId (rankedId e) jobs))
           ∧ ∃ job, job ∈ jobs ∧ userId job = rankedId e ∧ userFullName job = rankedName e)
   ∧ (∀ job, job ∈ jobs → userId job ∉ rankedId <$> topUsers stats →
             length (topUsers stats) = 5%nat
             ∧ ∀ e, e ∈ topUsers stats →
                    Z.of_nat (length (jobsWith userId (userId job) jobs)) ≤ jobCount e))
  ∧ ((length (topPrinters stats) ≤ 5)%nat
     ∧ StronglySorted (λ a b, jobCount b ≤ jobCount a) (topPrinters stats)
     ∧ NoDup (rankedId <$> topPrinters stats)
     ∧ (∀ e, e ∈ topPrinters stats →
             jobCount e = Z.of_nat (length (jobsWith printerId (rankedId e) jobs))
             ∧ ∃ job, job ∈ jobs ∧ printerId job = rankedId e
                      ∧ printerName job = rankedName e)
     ∧ (∀ job, job ∈ jobs → printerId job ∉ rankedId <$> topPrinters stats →
               length (topPrinters stats) = 5%nat
               ∧ ∀ e, e ∈ topPrinters stats →
                      Z.of_nat (length (jobsWith printerId (printerId job) jobs))
                      ≤ jobCount e)).
Proof.
  intros stats jobs. unfold stats, getDashboardStats. cbn [topUsers topPrinters].
  fold jobs.
  destruct (topFive_facts userId userFullName jobs) as (U1 & U2 & U3 & U4 & U5 & _).
  destruct (topFive_facts printerId printerName jobs) as (P1 & P2 & P3 & P4 & P5 & _).
  done.
Qed.

Lemma dashboard_top_five_witness :
  ∃ e, e ∈ topUsers (getDashboardStats sampleClock 0 statsDb (Some "acme"))
       ∧ rankedId e = "u1" ∧ jobCount e = 2.
Proof.
  eexists. split; [vm_compute; apply list_elem_of_here|]. split; [reflexivity|].
  refine (proj1 (proj1 (proj2 (proj2 (proj2 (proj1
            (dashboard_top_five sampleClock 0 statsDb (Some "acme")))))) _ _)).
  vm_compute. apply list_elem_of_here.
Defined.

(** X19. The job counts listed in [topUsers] never add up to more than
    [totalPrintJobs], and they add up to it exactly when at most five
    distinct users printed; the same holds for [topPrinters]. *)
Theorem dashboard_counts_add_up clock firstDayOfMonth db companyId :
  let stats := getDashboardStats clock firstDayOfMonth db companyId in
  let jobs := getAllJobDetails db companyId in
  Zsum (jobCount <$> topUsers stats) ≤ Z.of_nat (totalPrintJobs stats)
  ∧ Zsum (jobCount <$> topPrinters stats) ≤ Z.of_nat (totalPrintJobs stats)
  ∧ ((length (remove_dups (userId <$> jobs)) ≤ 5)%nat →
       Zsum (jobCount <$> topUsers stats) = Z.of_nat (totalPrintJobs stats))
  ∧ ((length (remove_dups (printerId <$> jobs)) ≤ 5)%nat →
       Zsum (jobCount <$> topPrinters stats) = Z.of_nat (totalPrintJobs stats)).
Proof.
  intros stats jobs. unfold stats, getDashboardStats.
  cbn [topUsers topPrinters totalPrintJobs]. fold jobs.
  destruct (topFive_facts userId userFullName jobs) as (_ & _ & _ & _ & _ & U6 & U7).
  destruct (topFive_facts printerId printerName jobs) as (_ & _ & _ & _ & _ & P6 & P7).
  done.
Qed.

Lemma dashboard_counts_add_up_witness :
  Zsum (jobCount <$> topUsers (getDashboardStats sampleClock 0 statsDb (Some "acme")))
  = 4.
Proof.
  refine (proj1 (proj2 (proj2 (dashboard_counts_add_up sampleClock 0 statsDb
                                 (Some "acme")))) _).
  vm_compute. lia.
Defined.

(** ** Sums of pages in doubles *)

Lemma toDouble_exact n : Z.abs n < 2 ^ 53 → toDouble n = n.
Proof.
  intros Hn. unfold toDouble.
  destruct (Z.leb_spec (Z.log2 (Z.abs n) - 52) 0) as [|Hk]; [done|].
  exfalso. destruct (Z.eq_dec (Z.abs n) 0) as [H0|H0].
  - rewrite H0 in Hk. simpl in Hk. lia.
  - assert (0 < Z.abs n) as Hpos by lia.
    apply Z.log2_lt_pow2 in Hn; lia.
Qed.

(** The parts of a number of magnitude 2^53 or more. *)
Lemma double_parts n k :
  0 < n → k = Z.log2 n - 52 → 0 < k →
  0 < 2 ^ k ∧ 2 ^ 52 ≤ n `div` 2 ^ k < 2 ^ 53
  ∧ n = 2 ^ k * (n `div` 2 ^ k) + n `mod` 2 ^ k
  ∧ 0 ≤ n `mod` 2 ^ k < 2 ^ k.
Proof.
  intros Hn Hk Hpos.
  assert (0 < 2 ^ k) as HP by (apply Z.pow_pos_nonneg; lia).
  destruct (Z.log2_spec n Hn) as [Hlow Hhigh].
  replace (Z.log2 n) with (52 + k) in Hlow by lia.
  replace (Z.succ (Z.log2 n)) with (53 + k) in Hhigh by lia.
  rewrite Z.pow_add_r in Hlow, Hhigh by lia.
  split; [done|]. split; [split|split].
  - apply Z.div_le_lower_bound; lia.
  - apply Z.div_lt_upper_bound; lia.
  - apply Z.div_mod. lia.
  - apply Z.mod_pos_bound. lia.
Qed.

Lemma toDouble_large n k :
  0 < n → k = Z.log2 n - 52 → 0 < k →
  ∃ q', toDouble n = q' * 2 ^ k
        ∧ n `div` 2 ^ k ≤ q' ≤ n `div` 2 ^ k + 1
        ∧ (q' = n `div` 2 ^ k + 1 →
           2 ^ (k - 1) ≤ n `mod` 2 ^ k)
        ∧ (q' = n `div` 2 ^ k → n `mod` 2 ^ k ≤ 2 ^ (k - 1))
        ∧ (n `mod` 2 ^ k = 2 ^ (k - 1) → q' = n `div` 2 ^ k + Z.b2z (Z.odd (n `div` 2 ^ k))).
Proof.
  intros Hn Hk Hpos. unfold toDouble. rewrite Z.abs_eq by lia. rewrite <- Hk.
  destruct (Z.leb_spec k 0); [lia|].
  rewrite Z.sgn_pos by done. rewrite Z.mul_1_l.
  set (q := n `div` 2 ^ k). set (r := n `mod` 2 ^ k). set (half := 2 ^ (k - 1)).
  destruct (Z.ltb_spec half r) as [Hlt|Hge]; simpl.
  - exists (q + 1). repeat split; try lia.
  - destruct (Z.eqb_spec half r) as [Heq|Hne]; simpl.
    + destruct (Z.odd q) eqn:Hodd; simpl.
      * exists (q + 1). repeat split; try lia.
      * exists q. repeat split; try lia.
    + exists q. repeat split; try lia.
Qed.

Lemma toDouble_nonneg n : 0 ≤ n → 0 ≤ toDouble n.
Proof.
  intros Hn. unfold toDouble.
  destruct (Z.leb_spec (Z.log2 (Z.abs n) - 52) 0) as [|Hk]; [done|].
  apply Z.mul_nonneg_nonneg; [lia|].
  apply Z.mul_nonneg_nonneg.
  - assert (0 ≤ Z.abs n `div` 2 ^ (Z.log2 (Z.abs n) - 52)).
    { apply Z.div_pos; [lia|]. apply Z.pow_pos_nonneg; lia. }
    destruct (_ || _); lia.
  - apply Z.pow_nonneg. lia.
Qed.

Lemma toDouble_mono a b : 0 ≤ a → a ≤ b → toDouble a ≤ toDouble b.
Proof.
  intros Ha Hab.
  destruct (Z.lt_ge_cases (Z.log2 b - 52) 1) as [Hkb|Hkb].
  { (* both are exact *)
    assert (Z.log2 a ≤ Z.log2 b) by (by apply Z.log2_le_mono).
    unfold toDouble. rewrite !Z.abs_eq by lia.
    destruct (Z.leb_spec (Z.log2 a - 52) 0), (Z.leb_spec (Z.log2 b - 52) 0); lia. }
  assert (0 < b) as Hb.
  { destruct (Z.eq_dec b 0) as [->|]; [simpl in Hkb; lia|lia]. }
  destruct (double_parts b (Z.log2 b - 52)) as (HPb & [Hqb1 Hqb2] & Hdivb & Hrb); [lia..|].
  destruct (toDouble_large b (Z.log2 b - 52)) as (qb & -> & [Hqb3 Hqb4] & Hupb & Hdownb & Htieb);
    [lia..|].
  destruct (Z.lt_ge_cases (Z.log2 a - 52) 1) as [Hka|Hka].
  { (* a is exact, b is not *)
    rewrite toDouble_exact.
    - assert (a < 2 ^ 53).
      { destruct (Z.eq_dec a 0) as [->|]; [done|].
        apply Z.log2_lt_pow2; lia. }
      assert (2 ^ 53 ≤ qb * 2 ^ (Z.log2 b - 52)); [|lia].
      change (2 ^ 53) with (2 ^ 52 * 2). 
      assert (2 ≤ 2 ^ (Z.log2 b - 52)).
      { change 2 with (2 ^ 1) at 1. apply Z.pow_le_mono_r; lia. }
      nia.
    - rewrite Z.abs_eq by lia.
      destruct (Z.eq_dec a 0) as [->|]; [done|].
      apply Z.log2_lt_pow2; lia. }
  assert (0 < a) as Ha'.
  { destruct (Z.eq_dec a 0) as [->|]; [simpl in Hka; lia|lia]. }
  destruct (double_parts a (Z.log2 a - 52)) as (HPa & [Hqa1 Hqa2] & Hdiva & Hra); [lia..|].
  destruct (toDouble_large a (Z.log2 a - 52)) as (qa & -> & [Hqa3 Hqa4] & Hupa & Hdowna & Htiea);
    [lia..|].
  assert (Z.log2 a ≤ Z.log2 b) as Hlog by (by apply Z.log2_le_mono).
  destruct (Z.eq_dec (Z.log2 a) (Z.log2 b)) as [Heq|Hne].
  - (* the same exponent *)
    rewrite Heq in *. set (P := 2 ^ (Z.log2 b - 52)) in *.
    set (half := 2 ^ (Z.log2 b - 52 - 1)) in *.
    apply Z.mul_le_mono_nonneg_r; [lia|].
    assert (a `div` P ≤ b `div` P) by (apply Z.div_le_mono; lia).
    destruct (Z.eq_dec (a `div` P) (b `div` P)) as [Hq|Hq]; [|lia].
    assert (a `mod` P ≤ b `mod` P) by nia.
    destruct (Z.eq_dec qa (a `div` P)) as [->|]; [lia|].
    assert (qa = a `div` P + 1) as Hqa by lia.
    destruct (Z.eq_dec qb (b `div` P + 1)) as [->|]; [lia|].
    assert (qb = b `div` P) as Hqb by lia.
    specialize (Hupa Hqa). specialize (Hdownb Hqb).
    assert (a `mod` P = half) as Hta by lia.
    assert (b `mod` P = half) as Htb by lia.
    specialize (Htiea Hta). specialize (Htieb Htb). rewrite Hq in Htiea. lia.
  - (* a smaller exponent *)
    assert (qa * 2 ^ (Z.log2 a - 52) ≤ 2 ^ 53 * 2 ^ (Z.log2 a - 52)) as H1.
    { apply Z.mul_le_mono_nonneg_r; lia. }
    assert (2 ^ 52 * 2 ^ (Z.log2 b - 52) ≤ qb * 2 ^ (Z.log2 b - 52)) as H2.
    { apply Z.mul_le_mono_nonneg_r; lia. }
    assert (2 * 2 ^ (Z.log2 a - 52) ≤ 2 ^ (Z.log2 b - 52)) as H3.
    { rewrite <- Z.pow_succ_r by lia. apply Z.pow_le_mono_r; lia. }
    change (2 ^ 53) with (2 ^ 52 * 2) in H1. nia.
Qed.

Lemma toDouble_idemp n : 0 ≤ n → toDouble (toDouble n) = toDouble n.
Proof.
  intros Hn.
  destruct (Z.lt_ge_cases (Z.log2 n - 52) 1) as [Hk|Hk].
  { assert (toDouble n = n) as Hexact; [|by rewrite !Hexact].
    unfold toDouble. rewrite Z.abs_eq by lia.
    destruct (Z.leb_spec (Z.log2 n - 52) 0); [done|lia]. }
  assert (0 < n) as Hpos.
  { destruct (Z.eq_dec n 0) as [->|]; [simpl in Hk; lia|lia]. }
  set (k := Z.log2 n - 52) in *.
  destruct (double_parts n k) as (HP & [Hq1 Hq2] & Hdiv & Hr); [lia..|].
  destruct (toDouble_large n k) as (q' & Heq & [Hq3 Hq4] & _); [lia..|].
  rewrite Heq.
  assert (0 < q') as Hq' by lia.
  destruct (Z.eq_dec q' (2 ^ 53)) as [->|Hne].
  - (* rounded up to the next power of two *)
    rewrite <- Z.pow_add_r by lia.
    unfold toDouble. rewrite Z.abs_eq by (apply Z.pow_nonneg; lia).
    rewrite Z.log2_pow2 by lia.
    destruct (Z.leb_spec (53 + k - 52) 0); [lia|].
    replace (53 + k - 52) with (k + 1) by lia.
    replace (53 + k) with (52 + (k + 1)) by lia.
    rewrite Z.pow_add_r by lia.
    rewrite Z.div_mul by lia. rewrite Z.mod_mul by lia.
    assert (0 < 2 ^ (k + 1 - 1)) by (apply Z.pow_pos_nonneg; lia).
    destruct (Z.ltb_spec (2 ^ (k + 1 - 1)) 0); [lia|].
    destruct (Z.eqb_spec (2 ^ (k + 1 - 1)) 0); [lia|]. simpl.
    rewrite Z.sgn_pos; [lia|]. apply Z.mul_pos_pos; [done|]. apply Z.pow_pos_nonneg; lia.
  - assert (Z.log2 (q' * 2 ^ k) = 52 + k) as Hlog.
    { rewrite Z.log2_mul_pow2 by lia.
      assert (Z.log2 q' = 52); [|lia].
      apply Z.log2_unique; [lia|]. change (2 ^ Z.succ 52) with (2 ^ 53). lia. }
    unfold toDouble. rewrite Z.abs_eq by nia. rewrite Hlog.
    destruct (Z.leb_spec (52 + k - 52) 0); [lia|].
    replace (52 + k - 52) with k by lia.
    rewrite Z.div_mul by lia. rewrite Z.mod_mul by lia.
    assert (0 < 2 ^ (k - 1)) by (apply Z.pow_pos_nonneg; lia).
    destruct (Z.ltb_spec (2 ^ (k - 1)) 0); [lia|].
    destruct (Z.eqb_spec (2 ^ (k - 1)) 0); [lia|]. simpl.
    rewrite Z.sgn_pos by nia. lia.
Qed.

Lemma reduce_from_Zsum {A} (g : A → Z) l i acc :
  reduce_from (λ sum x _, sum + g x) i acc l = acc + Zsum (g <$> l).
Proof.
  revert i acc. induction l as [|x l IH]; intros i acc.
  - unfold Zsum. simpl. lia.
  - rewrite fmap_cons. cbn [reduce_from]. rewrite IH. unfold Zsum. cbn [foldr]. lia.
Qed.

Lemma Zsum_abs_nonneg {A} (g : A → Z) l : 0 ≤ Zsum ((Z.abs ∘ g) <$> l).
Proof. apply Zsum_nonneg, Forall_fmap, Forall_forall. intros x _. simpl. lia. Qed.

Lemma Zsum_abs_filter {A} (g : A → Z) (P : A → Prop) `{∀ x, Decision (P x)} l :
  Zsum ((Z.abs ∘ g) <$> filter P l) ≤ Zsum ((Z.abs ∘ g) <$> l).
Proof.
  induction l as [|x l IH]; [done|]. rewrite filter_cons.
  destruct (decide (P x)); rewrite ?fmap_cons; unfold Zsum in *; simpl; lia.
Qed.

(** Below 2^53 the running total in doubles is the exact sum. *)
Lemma pagesTotal_exact {A} (g : A → Z) l : ∀ i acc,
  Z.abs acc + Zsum ((Z.abs ∘ g) <$> l) < 2 ^ 53 →
  reduce_from (λ sum x _, toDouble (sum + toDouble (g x))) i acc l = acc + Zsum (g <$> l).
Proof.
  induction l as [|x l IH]; intros i acc Hbound.
  - unfold Zsum. simpl. lia.
  - rewrite !fmap_cons in *. cbn [reduce_from].
    pose proof (Zsum_abs_nonneg g l) as Hrest.
    unfold Zsum in Hbound, Hrest |- *. cbn [foldr] in Hbound |- *. simpl in Hbound.
    fold (Zsum ((Z.abs ∘ g) <$> l)) in Hbound, Hrest. fold (Zsum (g <$> l)).
    rewrite (toDouble_exact (g x)) by lia.
    rewrite (toDouble_exact (acc + g x)) by lia.
    rewrite IH by lia. lia.
Qed.

Lemma Zsum_by_mode (jobs : list JobDetails) :
  Zsum (jobPages <$> jobs)
  = Zsum (jobPages <$> filter (λ job, colorMode (jd_job job) = "bw") jobs)
    + Zsum (jobPages <$> filter (λ job, colorMode (jd_job job) = "color") jobs)
    + Zsum (jobPages <$> otherModeJobs jobs).
Proof.
  unfold otherModeJobs. induction jobs as [|job jobs IH]; [done|].
  rewrite !filter_cons.
  destruct (decide (colorMode (jd_job job) = "bw")) as [Hbw|Hbw];
    destruct (decide (colorMode (jd_job job) = "color")) as [Hcolor|Hcolor];
    try (rewrite Hbw in Hcolor; discriminate);
    (destruct (decide (colorMode (jd_job job) ≠ "bw" ∧ colorMode (jd_job job) ≠ "color"))
      as [Hother|Hother]; [try (exfalso; tauto)|try (exfalso; tauto)]);
    rewrite ?fmap_cons; unfold Zsum in *; simpl; lia.
Qed.

Lemma Qfloor_plus_half (n : Z) : Qfloor (inject_Z n + 0.5) = n.
Proof.
  rewrite (Qfloor_comp _ ((2 * n + 1) # 2)).
  - unfold Qfloor. apply eq_sym, (Z.div_unique _ _ _ 1); lia.
  - unfold Qeq, Qplus, inject_Z. simpl. lia.
Qed.

Lemma filter_from_sublist (jobs : list JobDetails) (early late : Z) :
  early ≤ late →
  filter (λ job, late ≤ printedAt (jd_job job)) jobs
  `sublist_of` filter (λ job, early ≤ printedAt (jd_job job)) jobs.
Proof.
  intros Hle. induction jobs as [|job jobs IH]; [done|].
  rewrite !filter_cons.
  destruct (decide (late ≤ printedAt (jd_job job)));
    destruct (decide (early ≤ printedAt (jd_job job))); try lia.
  - by apply sublist_skip.
  - by apply sublist_cons.
  - done.
Qed.

(** A running total in doubles of pages that are not negative does not
    decrease when rows are added. *)
Lemma pagesTotal_sublist {A} (g : A → Z) l k :
  l `sublist_of` k → Forall (λ x, 0 ≤ g x) k →
  ∀ i j acc acc',
    0 ≤ acc → acc ≤ acc' → toDouble acc = acc →
    let total := reduce_from (λ sum x _, toDouble (sum + toDouble (g x))) in
    total i acc l ≤ total j acc' k.
Proof.
  intros Hsub. induction Hsub as [|x l k _ IH|x l k _ IH];
    intros Hpos i j acc acc' Hacc Hle Hexact; cbn [reduce_from].
  - done.
  - apply Forall_cons in Hpos as [Hx Hpos].
    pose proof (toDouble_nonneg (g x) Hx).
    apply IH; [done| | |].
    + apply toDouble_nonneg. lia.
    + apply toDouble_mono; lia.
    + apply toDouble_idemp. lia.
  - apply Forall_cons in Hpos as [Hx Hpos].
    pose proof (toDouble_nonneg (g x) Hx).
    apply IH; [done|done| |done].
    rewrite <- Hexact. apply toDouble_mono; lia.
Qed.

(** X20. In the consumption statistics [totalJobs] counts the rows of
    the period.  While the pages of the period stay below 2^53, the
    totals are exact and split by colour mode: [totalPages] is
    [totalBWPages] plus [totalColorPages] plus the pages of the rows
    whose mode is neither "bw" nor "color", which appear in no other
    field.  Below 2^49 pages the rounding of [estimatedInkUsed] to one
    decimal changes nothing: it is half a unit per black-and-white page
    and one and a half per colour page. *)
Theorem consumption_pages_by_mode calendar db period companyId :
  let stats := getConsumptionStats calendar db period companyId in
  let jobs := periodJobs calendar db period companyId in
  totalJobs stats = length jobs
  ∧ (Zsum ((Z.abs ∘ jobPages) <$> jobs) < 2 ^ 53 →
       totalPages stats = Zsum (jobPages <$> jobs)
       ∧ totalPages stats
         = totalBWPages stats + totalColorPages stats
           + Zsum (jobPages <$> otherModeJobs jobs))
  ∧ (Zsum ((Z.abs ∘ jobPages) <$> jobs) < 2 ^ 49 →
       (estimatedInkUsed stats
        == inject_Z (totalBWPages stats) * 0.5 + inject_Z (totalColorPages stats) * 1.5)%Q).
Proof.
  intros stats jobs. unfold stats, getConsumptionStats.
  cbn [totalJobs totalPages totalBWPages totalColorPages estimatedInkUsed].
  fold (periodJobs calendar db period companyId). fold jobs.
  change (λ (sum : Z) (job : JobDetails) (_ : nat),
            toDouble (sum + toDouble (pageCount (jd_job job) * copies job)))
    with (λ (sum : Z) (job : JobDetails) (_ : nat), toDouble (sum + toDouble (jobPages job))).
  split; [done|]. split.
  - intros Hbound. unfold reduce.
    pose proof (Zsum_abs_filter jobPages (λ job, colorMode (jd_job job) = "bw") jobs).
    pose proof (Zsum_abs_filter jobPages (λ job, colorMode (jd_job job) = "color") jobs).
    rewrite !pagesTotal_exact by (simpl; lia).
    split; [lia|]. rewrite (Zsum_by_mode jobs). lia.
  - intros _. set (bw := reduce _ _ _). set (color := reduce _ _ _). unfold round1.
    rewrite (Qfloor_comp _ (inject_Z (5 * (bw + 3 * color)) + 0.5)).
    + rewrite Qfloor_plus_half. rewrite !inject_Z_mult, !inject_Z_plus, !inject_Z_mult.
      change (inject_Z 5) with 5%Q. change (inject_Z 3) with 3%Q. field.
    + rewrite !inject_Z_mult, !inject_Z_plus, !inject_Z_mult.
      change (inject_Z 5) with 5%Q. change (inject_Z 3) with 3%Q. ring.
Qed.

Lemma consumption_pages_by_mode_witness :
  let stats := getConsumptionStats sampleCalendar statsDb "month" (Some "acme") in
  totalPages stats = 44 ∧ totalBWPages stats = 20 ∧ totalColorPages stats = 17.
Proof.
  destruct (proj1 (proj2 (consumption_pages_by_mode sampleCalendar statsDb "month"
                            (Some "acme")))) as [Htotal _].
  - vm_compute. reflexivity.
  - split; [rewrite Htotal|]; vm_compute; done.
Defined.

(** Beyond 2^53 the totals are rounded as they are added: the square of
    94906267 is odd and lies between two doubles, the two single pages
    added to it are lost, and the page totals no longer add up. *)
Example consumption_pages_beyond_exact :
  let stats := getConsumptionStats sampleCalendar bulkDb "month" (Some "acme") in
  94906267 * 94906267 = 2 ^ 53 + 261134297
  ∧ totalPages stats = 9007199515875288
  ∧ totalBWPages stats = 9007199515875288
  ∧ totalColorPages stats = 1.
Proof. by vm_compute. Qed.

(** X21. A period that starts earlier never reports fewer jobs: with the
    start of the year no later than the start of the quarter, and that
    no later than the start of the month, the job counts of "month",
    "quarter" and "year" grow in that order, and so do the page totals
    when no row has a negative page count; a period string that is none
    of the four known ones is counted as the month. *)
Theorem consumption_periods_nest calendar db companyId
    (Hyear : yearStart calendar ≤ quarterStart calendar)
    (Hquarter : quarterStart calendar ≤ monthStart calendar) :
  let stats period := getConsumptionStats calendar db period companyId in
  (totalJobs (stats "month") ≤ totalJobs (stats "quarter")
   ∧ totalJobs (stats "quarter") ≤ totalJobs (stats "year"))%nat
  ∧ (Forall (λ job, 0 ≤ jobPages job) (getAllJobDetails db companyId) →
       totalPages (stats "month") ≤ totalPages (stats "quarter")
       ∧ totalPages (stats "quarter") ≤ totalPages (stats "year"))
  ∧ (∀ other, other ∉ ["week"; "month"; "quarter"; "year"] →
       totalJobs (stats other) = totalJobs (stats "month")
       ∧ totalPages (stats other) = totalPages (stats "month")).
Proof.
  intros stats. unfold stats, getConsumptionStats. cbn [totalJobs totalPages].
  change (λ (sum : Z) (job : JobDetails) (_ : nat),
            toDouble (sum + toDouble (pageCount (jd_job job) * copies job)))
    with (λ (sum : Z) (job : JobDetails) (_ : nat), toDouble (sum + toDouble (jobPages job))).
  change (periodStart calendar "month") with (monthStart calendar).
  change (periodStart calendar "quarter") with (quarterStart calendar).
  change (periodStart calendar "year") with (yearStart calendar).
  set (all := getAllJobDetails db companyId).
  pose proof (filter_from_sublist all _ _ Hyear) as Hyq.
  pose proof (filter_from_sublist all _ _ Hquarter) as Hqm.
  split; [split; by apply sublist_length|].
  split.
  - intros Hpos. unfold reduce.
    split; apply pagesTotal_sublist; try done;
      apply Forall_forall; intros job [_ Hjob]%list_elem_of_filter;
      eapply Forall_forall in Hpos; try exact Hjob; exact Hpos.
  - intros other Hother.
    assert (periodStart calendar other = monthStart calendar) as ->; [|done].
    unfold periodStart. repeat case_bool_decide; try done; subst other;
      exfalso; apply Hother; set_solver.
Qed.

Lemma consumption_periods_nest_witness :
  (totalJobs (getConsumptionStats sampleCalendar statsDb "month" (Some "acme"))
   ≤ totalJobs (getConsumptionStats sampleCalendar statsDb "year" (Some "acme")))%nat.
Proof.
  destruct (consumption_periods_nest sampleCalendar statsDb (Some "acme"))
    as [[Hmq Hqy] _]; [vm_compute; discriminate|vm_compute; discriminate|].
  lia.
Defined.
